(** * Tile registration of Odemis: [odemis/acq/stitching/_registrar.py]

    A shallow embedding of the two registrar classes of the stitching
    module, [IdentityRegistrar] and [ShiftRegistrar], and the properties of
    them that the design document states.

    Python floats are IEEE 754 binary64 numbers and are embedded as Rocq's
    primitive floats, so every definition below can be evaluated on concrete
    tiles.  Python's unbounded integers are [Z].  A method that mutates
    [self] is a function from the registrar to a result and the registrar it
    leaves behind: an exception does not undo the assignments made before it
    was raised. *)

From Stdlib Require Import ZArith List Bool Lia Floats.
Import ListNotations.

Set Warnings "-inexact-float".
Local Open Scope Z_scope.

(** ** Python values *)

(** The exceptions the module can raise.  The four [ValueError]s raised by
    the module itself are told apart by their message; [int] of a NaN is a
    [ValueError] of the interpreter. *)
Inductive value_error : Type :=
| TileShapeDiffers      (* "Tile shape differs from previous tile shapes" *)
| NoOverlapForShift     (* "There is no overlap between tiles for the shift given" *)
| NotEnoughData         (* "Not enough data to compute mean horizontal shift" *)
| PreviousNotStitched   (* "Trying to stitch image ..., while its previous image
                            hasn't been stitched yet" *)
| FloatNaNToInteger.    (* int(nan) *)

Inductive exn : Type :=
| ValueError (m : value_error)
| IndexError
| TypeError
| AttributeError
| OverflowError
| ZeroDivisionError
| UnboundLocalError.

Inductive result (A : Type) : Type :=
| Ok (a : A)
| Raise (e : exn).
Arguments Ok {A} a.
Arguments Raise {A} e.

Definition bindR {A B} (r : result A) (k : A -> result B) : result B :=
  match r with
  | Ok a => k a
  | Raise e => Raise e
  end.

Notation "x <~ e ;; k" := (bindR e (fun x => k))
  (at level 61, e at next level, right associativity).
Notation "' p <~ e ;; k" := (bindR e (fun x => match x with p => k end))
  (at level 61, p pattern, e at next level, right associativity).

(** An attribute that still holds [None] cannot be used in arithmetic or be
    subscripted. *)
Definition need {A} (o : option A) : result A :=
  match o with
  | Some a => Ok a
  | None => Raise TypeError
  end.

(** [float(n)] for an integer [n], rounded to nearest even. *)
Definition float_of_Z (z : Z) : float :=
  SF2Prim (binary_normalize prec emax z 0 false).

(** [int(f)]: truncation toward zero; NaN and the infinities raise. *)
Definition py_int (f : float) : result Z :=
  match Prim2SF f with
  | S754_zero _ => Ok 0
  | S754_finite s m e =>
      let v := if 0 <=? e then Z.pos m * 2 ^ e
               else Z.quot (Z.pos m) (2 ^ (- e)) in
      Ok (if s then - v else v)
  | S754_infinity _ => Raise OverflowError
  | S754_nan => Raise (ValueError FloatNaNToInteger)
  end.

(** [a / b] on Python floats. *)
Definition py_div (a b : float) : result float :=
  if (b =? 0)%float then Raise ZeroDivisionError else Ok (a / b)%float.

(** [range(lo, hi)]. *)
Definition py_range (lo hi : Z) : list Z :=
  map (fun k => lo + Z.of_nat k) (seq 0 (Z.to_nat (hi - lo))).

(** Subscripting a list: an index in [-len, len) is accepted, a negative
    one counts from the end. *)
Definition py_norm (len i : Z) : option nat :=
  if (0 <=? i) && (i <? len) then Some (Z.to_nat i)
  else if (- len <=? i) && (i <? 0) then Some (Z.to_nat (len + i))
  else None.

Fixpoint list_update {A} (n : nat) (v : A) (l : list A) : list A :=
  match l, n with
  | [], _ => []
  | _ :: t, O => v :: t
  | h :: t, S n' => h :: list_update n' v t
  end.

Definition py_getitem {A} (l : list A) (i : Z) : result A :=
  match py_norm (Z.of_nat (length l)) i with
  | Some n => match nth_error l n with
              | Some a => Ok a
              | None => Raise IndexError
              end
  | None => Raise IndexError
  end.

Definition py_setitem {A} (l : list A) (i : Z) (v : A) : result (list A) :=
  match py_norm (Z.of_nat (length l)) i with
  | Some n => Ok (list_update n v l)
  | None => Raise IndexError
  end.

(** A grid is a list of rows of optional cells; [g[r][c]] and
    [g[r][c] = v]. *)
Definition grid (A : Type) : Type := list (list (option A)).

Definition grid_get {A} (g : grid A) (r c : Z) : result (option A) :=
  row <~ py_getitem g r ;; py_getitem row c.

Definition grid_set {A} (g : grid A) (r c : Z) (v : option A) : result (grid A) :=
  row <~ py_getitem g r ;;
  row' <~ py_setitem row c v ;;
  py_setitem g r row'.

(** ** Tiles *)

(** A tile is a two-dimensional array of pixels (a list of rows) with the
    metadata entries [MD_POS] (X, Y in metres) and [MD_PIXEL_SIZE].  The
    pixels are floats: the registrar only reads them through statistics
    that numpy takes in floating point. *)
Record Tile : Type := mkTile {
  data : list (list float);
  md_pos : float * float;
  md_pixel_size : float * float
}.

(** [tile.shape], as (Y, X). *)
Definition shape (t : Tile) : Z * Z :=
  (Z.of_nat (length (data t)), Z.of_nat (length (hd [] (data t)))).

Definition shape_eqb (a b : Z * Z) : bool :=
  (fst a =? fst b) && (snd a =? snd b).

(** [a[lo:hi]] for [0 <= lo] and [0 <= hi]. *)
Definition slice {A} (lo hi : Z) (l : list A) : list A :=
  firstn (Z.to_nat (hi - lo)) (skipn (Z.to_nat lo) l).

(** [img[t:b, l:r]]. *)
Definition crop (img : list (list float)) (t b l r : Z) : list (list float) :=
  map (slice l r) (slice t b img).

(** [a.size] of a two-dimensional array. *)
Definition arr_size (a : list (list float)) : Z :=
  Z.of_nat (length (concat a)).

(** [numpy.sum(a)] of an array of floats, given flattened in C order.
    numpy does not add the values from left to right.  Its iterator hands
    the values to the inner loop in groups of at most 8192 (the size of its
    buffer); the inner loop adds to the result, which starts at 0, the sum
    of the group as [pairwise_sum] forms it.

    [pairwise_sum] is numpy's [DOUBLE_pairwise_sum]: fewer than 8 values
    are added from left to right, starting from 0; up to [PW_BLOCKSIZE]
    values are added in 8 interleaved accumulators, the accumulators are
    added as the tree ((r0 + r1) + (r2 + r3)) + ((r4 + r5) + (r6 + r7)) and
    the values past the last full block of 8 are added to that one after
    the other; more values are split at [n / 2], rounded down to a multiple
    of 8, and the sums of the two parts are added. *)
Definition PW_BLOCKSIZE : nat := 128.

Definition NPY_BUFSIZE : nat := Z.to_nat 8192.

Definition add8 (r block : list float) : list float :=
  map (fun p => (fst p + snd p)%float) (combine r block).

(** [for (i = 8; i < n - (n % 8); i += 8) r[k] += a[i + k]]: the
    accumulators after [blocks] more blocks, and the values not yet read. *)
Fixpoint accumulate8 (blocks : nat) (r a : list float) : list float * list float :=
  match blocks with
  | O => (r, a)
  | S blocks' => accumulate8 blocks' (add8 r (firstn 8 a)) (skipn 8 a)
  end.

(** The sum of 8 to [PW_BLOCKSIZE] values. *)
Definition unrolled_sum (a : list float) : float :=
  let '(r, rest) := accumulate8 (length a / 8 - 1) (firstn 8 a) (skipn 8 a) in
  match r with
  | [r0; r1; r2; r3; r4; r5; r6; r7] =>
      fold_left PrimFloat.add rest
        (((r0 + r1) + (r2 + r3)) + ((r4 + r5) + (r6 + r7)))%float
  | _ => 0%float
  end.

(** The recursion halves the array; [fuel] bounds its depth, and the
    length of the array is always enough ([pairwise_sum_rec_fuel]). *)
Fixpoint pairwise_sum_rec (fuel : nat) (a : list float) : float :=
  let n := length a in
  if (n <? 8)%nat then fold_left PrimFloat.add a 0%float
  else if (n <=? PW_BLOCKSIZE)%nat then unrolled_sum a
  else
    match fuel with
    | O => 0%float
    | S fuel' =>
        let n2 := (n / 2 - (n / 2) mod 8)%nat in
        (pairwise_sum_rec fuel' (firstn n2 a) + pairwise_sum_rec fuel' (skipn n2 a))%float
    end.

Definition pairwise_sum (a : list float) : float :=
  pairwise_sum_rec (length a) a.

(** The groups of at most [NPY_BUFSIZE] values of the iterator. *)
Fixpoint buffers (fuel : nat) (a : list float) : list (list float) :=
  match fuel, a with
  | S fuel', _ :: _ => firstn NPY_BUFSIZE a :: buffers fuel' (skipn NPY_BUFSIZE a)
  | _, _ => []
  end.

Definition np_sum (a : list float) : float :=
  fold_left (fun acc buf => (acc + pairwise_sum buf)%float) (buffers (length a) a) 0%float.

(** ** IdentityRegistrar *)

Module IdentityRegistrar.

Record t : Type := mk {
  tile_pos : list (float * float);
  dep_tiles_pos : list (list (float * float))
}.

Definition init : t := mk [] [].

(** [if dependent_tiles:] holds for a list that is neither [None] nor
    empty. *)
Definition truthy {A} (o : option (list A)) : bool :=
  match o with
  | Some (_ :: _) => true
  | _ => false
  end.

Definition addTile (tile : Tile) (dependent_tiles : option (list Tile)) (self : t) : t :=
  let tile_pos' := tile_pos self ++ [md_pos tile] in
  if truthy dependent_tiles then
    let pos := map md_pos (match dependent_tiles with Some l => l | None => [] end) in
    mk tile_pos' (dep_tiles_pos self ++ [pos])
  else mk tile_pos' (dep_tiles_pos self).

Definition getPositions (self : t) : list (float * float) * list (list (float * float)) :=
  (tile_pos self, dep_tiles_pos self).

(** A session: the calls of [addTile] made on a fresh registrar. *)
Definition run (calls : list (Tile * option (list Tile))) (self : t) : t :=
  fold_left (fun s c => addTile (fst c) (snd c) s) calls self.

End IdentityRegistrar.

(** ** ShiftRegistrar *)

Definition BEST_MATCH : float := 0.9%float.
Definition GOOD_MATCH : float := 0.2%float.
Definition EXTREME_SHIFT : float := 0.6%float.

(** [LEFT = 1] and [RIGHT = -1] in the source. *)
Inductive direction : Type := LEFT | RIGHT.

(** The attributes of a [ShiftRegistrar] object.  Attributes that
    [__init__] sets to [None] are options.  [ovrlp] starts as the integer
    0; it only enters float arithmetic, where 0 and 0.0 agree. *)
Record ShiftRegistrar : Type := mkShiftRegistrar {
  nx : Z;
  ny : Z;
  coords_ver : grid (Z * Z);
  coords_hor : grid (Z * Z);
  shifts : grid (Z * Z);
  tiles : grid Tile;
  last_ver : Z * Z;
  last_hor : Z * Z;
  ovrlp : float;
  acqOrder : list (Z * Z);
  shift_tile_dep_tiles : list (list (float * float));
  px_size : option (float * float);
  size : option (Z * Z);
  posX : option Z;
  posY : option Z;
  pos_prev_x : option Z;
  osize : option float;
  tsize : option Z
}.

(** [ShiftRegistrar.__init__] *)
Definition ShiftRegistrar_init : ShiftRegistrar :=
  {| nx := 1; ny := 1;
     coords_ver := [[None]]; coords_hor := [[None]];
     shifts := [[None]]; tiles := [[None]];
     last_ver := (0, 0); last_hor := (0, 0);
     ovrlp := 0%float;
     acqOrder := [];
     shift_tile_dep_tiles := [];
     px_size := None; size := None;
     posX := None; posY := None; pos_prev_x := None;
     osize := None; tsize := None |}.

(** Attribute assignment. *)
Definition set_nx v (s : ShiftRegistrar) :=
  mkShiftRegistrar v (ny s) (coords_ver s) (coords_hor s) (shifts s) (tiles s)
    (last_ver s) (last_hor s) (ovrlp s) (acqOrder s) (shift_tile_dep_tiles s)
    (px_size s) (size s) (posX s) (posY s) (pos_prev_x s) (osize s) (tsize s).
Definition set_coords_ver v (s : ShiftRegistrar) :=
  mkShiftRegistrar (nx s) (ny s) v (coords_hor s) (shifts s) (tiles s)
    (last_ver s) (last_hor s) (ovrlp s) (acqOrder s) (shift_tile_dep_tiles s)
    (px_size s) (size s) (posX s) (posY s) (pos_prev_x s) (osize s) (tsize s).
Definition set_coords_hor v (s : ShiftRegistrar) :=
  mkShiftRegistrar (nx s) (ny s) (coords_ver s) v (shifts s) (tiles s)
    (last_ver s) (last_hor s) (ovrlp s) (acqOrder s) (shift_tile_dep_tiles s)
    (px_size s) (size s) (posX s) (posY s) (pos_prev_x s) (osize s) (tsize s).
Definition set_shifts v (s : ShiftRegistrar) :=
  mkShiftRegistrar (nx s) (ny s) (coords_ver s) (coords_hor s) v (tiles s)
    (last_ver s) (last_hor s) (ovrlp s) (acqOrder s) (shift_tile_dep_tiles s)
    (px_size s) (size s) (posX s) (posY s) (pos_prev_x s) (osize s) (tsize s).
Definition set_tiles v (s : ShiftRegistrar) :=
  mkShiftRegistrar (nx s) (ny s) (coords_ver s) (coords_hor s) (shifts s) v
    (last_ver s) (last_hor s) (ovrlp s) (acqOrder s) (shift_tile_dep_tiles s)
    (px_size s) (size s) (posX s) (posY s) (pos_prev_x s) (osize s) (tsize s).
Definition set_last_ver v (s : ShiftRegistrar) :=
  mkShiftRegistrar (nx s) (ny s) (coords_ver s) (coords_hor s) (shifts s) (tiles s)
    v (last_hor s) (ovrlp s) (acqOrder s) (shift_tile_dep_tiles s)
    (px_size s) (size s) (posX s) (posY s) (pos_prev_x s) (osize s) (tsize s).
Definition set_last_hor v (s : ShiftRegistrar) :=
  mkShiftRegistrar (nx s) (ny s) (coords_ver s) (coords_hor s) (shifts s) (tiles s)
    (last_ver s) v (ovrlp s) (acqOrder s) (shift_tile_dep_tiles s)
    (px_size s) (size s) (posX s) (posY s) (pos_prev_x s) (osize s) (tsize s).
Definition set_ovrlp v (s : ShiftRegistrar) :=
  mkShiftRegistrar (nx s) (ny s) (coords_ver s) (coords_hor s) (shifts s) (tiles s)
    (last_ver s) (last_hor s) v (acqOrder s) (shift_tile_dep_tiles s)
    (px_size s) (size s) (posX s) (posY s) (pos_prev_x s) (osize s) (tsize s).
Definition set_acqOrder v (s : ShiftRegistrar) :=
  mkShiftRegistrar (nx s) (ny s) (coords_ver s) (coords_hor s) (shifts s) (tiles s)
    (last_ver s) (last_hor s) (ovrlp s) v (shift_tile_dep_tiles s)
    (px_size s) (size s) (posX s) (posY s) (pos_prev_x s) (osize s) (tsize s).
Definition set_shift_tile_dep_tiles v (s : ShiftRegistrar) :=
  mkShiftRegistrar (nx s) (ny s) (coords_ver s) (coords_hor s) (shifts s) (tiles s)
    (last_ver s) (last_hor s) (ovrlp s) (acqOrder s) v
    (px_size s) (size s) (posX s) (posY s) (pos_prev_x s) (osize s) (tsize s).
Definition set_px_size v (s : ShiftRegistrar) :=
  mkShiftRegistrar (nx s) (ny s) (coords_ver s) (coords_hor s) (shifts s) (tiles s)
    (last_ver s) (last_hor s) (ovrlp s) (acqOrder s) (shift_tile_dep_tiles s)
    v (size s) (posX s) (posY s) (pos_prev_x s) (osize s) (tsize s).
Definition set_size v (s : ShiftRegistrar) :=
  mkShiftRegistrar (nx s) (ny s) (coords_ver s) (coords_hor s) (shifts s) (tiles s)
    (last_ver s) (last_hor s) (ovrlp s) (acqOrder s) (shift_tile_dep_tiles s)
    (px_size s) v (posX s) (posY s) (pos_prev_x s) (osize s) (tsize s).
Definition set_posX v (s : ShiftRegistrar) :=
  mkShiftRegistrar (nx s) (ny s) (coords_ver s) (coords_hor s) (shifts s) (tiles s)
    (last_ver s) (last_hor s) (ovrlp s) (acqOrder s) (shift_tile_dep_tiles s)
    (px_size s) (size s) v (posY s) (pos_prev_x s) (osize s) (tsize s).
Definition set_posY v (s : ShiftRegistrar) :=
  mkShiftRegistrar (nx s) (ny s) (coords_ver s) (coords_hor s) (shifts s) (tiles s)
    (last_ver s) (last_hor s) (ovrlp s) (acqOrder s) (shift_tile_dep_tiles s)
    (px_size s) (size s) (posX s) v (pos_prev_x s) (osize s) (tsize s).
Definition set_pos_prev_x v (s : ShiftRegistrar) :=
  mkShiftRegistrar (nx s) (ny s) (coords_ver s) (coords_hor s) (shifts s) (tiles s)
    (last_ver s) (last_hor s) (ovrlp s) (acqOrder s) (shift_tile_dep_tiles s)
    (px_size s) (size s) (posX s) (posY s) v (osize s) (tsize s).
Definition set_osize v (s : ShiftRegistrar) :=
  mkShiftRegistrar (nx s) (ny s) (coords_ver s) (coords_hor s) (shifts s) (tiles s)
    (last_ver s) (last_hor s) (ovrlp s) (acqOrder s) (shift_tile_dep_tiles s)
    (px_size s) (size s) (posX s) (posY s) (pos_prev_x s) v (tsize s).
Definition set_tsize v (s : ShiftRegistrar) :=
  mkShiftRegistrar (nx s) (ny s) (coords_ver s) (coords_hor s) (shifts s) (tiles s)
    (last_ver s) (last_hor s) (ovrlp s) (acqOrder s) (shift_tile_dep_tiles s)
    (px_size s) (size s) (posX s) (posY s) (pos_prev_x s) (osize s) v.

(** A method: the result (or the exception) and the registrar afterwards. *)
Definition M (A : Type) : Type := ShiftRegistrar -> result A * ShiftRegistrar.

Definition ret {A} (a : A) : M A := fun s => (Ok a, s).
Definition raise {A} (e : exn) : M A := fun s => (Raise e, s).
Definition bind {A B} (m : M A) (k : A -> M B) : M B :=
  fun s => match m s with
           | (Ok a, s') => k a s'
           | (Raise e, s') => (Raise e, s')
           end.
Definition get : M ShiftRegistrar := fun s => (Ok s, s).
Definition modify (f : ShiftRegistrar -> ShiftRegistrar) : M unit :=
  fun s => (Ok tt, f s).
Definition liftR {A} (r : result A) : M A := fun s => (r, s).

Notation "x <- e ;; k" := (bind e (fun x => k))
  (at level 61, e at next level, right associativity).
Notation "' p <- e ;; k" := (bind e (fun x => match x with p => k end))
  (at level 61, p pattern, e at next level, right associativity).
Notation "e ;;; k" := (bind e (fun _ => k))
  (at level 61, right associativity).

(** [for x in l: body x] *)
Fixpoint for_each {A} (l : list A) (body : A -> M unit) : M unit :=
  match l with
  | [] => ret tt
  | x :: l' => body x ;;; for_each l' body
  end.

(** The two numeric routines the module takes from elsewhere:
    [math.hypot] of the C library, and [MeasureShift] of
    [odemis.acq.drift], the cross-correlation kernel, which is given two
    arrays and answers a shift in whole pixels. *)
Class Kernels : Type := {
  hypot : float -> float -> float;
  MeasureShift : list (list float) -> list (list float) -> Z * Z
}.

Section Methods.

Context {K : Kernels}.

(** [_find_closest_tile]: the filled slot whose [MD_POS] is nearest to
    [pos], the first one met in row-major order on a tie.  When no slot
    qualifies the local variables of the [return] are unbound. *)
Definition closest_step (g : grid Tile) (pos : float * float)
  (acc : result (float * option ((Z * Z) * (float * float)))) (ij : Z * Z)
  : result (float * option ((Z * Z) * (float * float))) :=
  '(minDist, found) <~ acc ;;
  cell <~ grid_get g (fst ij) (snd ij) ;;
  match cell with
  | None => Ok (minDist, found)
  | Some t =>
      let md_pos_ij := md_pos t in
      let dist := hypot (fst pos - fst md_pos_ij)%float (snd pos - snd md_pos_ij)%float in
      if (dist <? minDist)%float then Ok (dist, Some (ij, md_pos_ij))
      else Ok (minDist, found)
  end.

Definition _find_closest_tile (self : ShiftRegistrar) (pos : float * float)
  : result ((Z * Z) * (float * float)) :=
  let idx := list_prod (py_range 0 (Z.of_nat (length (tiles self))))
                       (py_range 0 (Z.of_nat (length (hd [] (tiles self))))) in
  '(_, found) <~ fold_left (closest_step (tiles self) pos) idx (Ok (infinity, None)) ;;
  match found with
  | Some r => Ok r
  | None => Raise UnboundLocalError
  end.

(** [_updateGrid]: one more column of [None] in every row ("x"), or one
    more row of [nx] times [None] ("y").  The column is appended to the
    rows [0 .. len(self.tiles) - 1] of each of the four grids.  The four
    grids grow together and have the same number of rows, so the
    [IndexError] of a missing row is never raised; where it would be, the
    grids are left as they were. *)
Fixpoint append_none {A} (n : nat) (g : grid A) : result (grid A) :=
  match n, g with
  | O, _ => Ok g
  | S _, [] => Raise IndexError
  | S n', r :: g' => g'' <~ append_none n' g' ;; Ok ((r ++ [None]) :: g'')
  end.

Definition _updateGrid_x : M unit :=
  modify (fun s => set_nx (nx s + 1) s) ;;;
  self <- get ;;
  let n := length (tiles self) in
  t' <- liftR (append_none n (tiles self)) ;;
  v' <- liftR (append_none n (coords_ver self)) ;;
  h' <- liftR (append_none n (coords_hor self)) ;;
  s' <- liftR (append_none n (shifts self)) ;;
  modify (fun s => set_shifts s' (set_coords_hor h' (set_coords_ver v' (set_tiles t' s)))).

Definition none_row {A} (n : Z) : list (option A) := repeat None (Z.to_nat n).

Definition _updateGrid_y : M unit :=
  modify (fun s =>
    set_shifts (shifts s ++ [none_row (nx s)])
      (set_coords_hor (coords_hor s ++ [none_row (nx s)])
        (set_coords_ver (coords_ver s ++ [none_row (nx s)])
          (set_tiles (tiles s ++ [none_row (nx s)]) s)))).

(** [_estimateROI]: (l1, t1, r1, b1), (l2, t2, r2, b2). *)
Definition roi : Type := (Z * Z * Z * Z)%type.

Definition _estimateROI (self : ShiftRegistrar) (shift : Z * Z) : result (roi * roi) :=
  sz <~ need (size self) ;;
  if (snd sz <=? fst shift) || (fst sz <=? snd shift) then
    Raise (ValueError NoOverlapForShift)
  else
    let l1 := Z.max 0 (Z.min (snd sz) (fst shift)) in
    let t1 := Z.max 0 (Z.min (fst sz) (snd shift)) in
    let r1 := Z.max 0 (Z.min (snd sz) (fst shift + snd sz)) in
    let b1 := Z.max 0 (Z.min (fst sz) (snd shift + fst sz)) in
    let l2 := Z.max 0 (Z.min (snd sz) (- fst shift)) in
    let t2 := Z.max 0 (Z.min (fst sz) (- snd shift)) in
    let r2 := Z.max 0 (Z.min (snd sz) (snd sz - fst shift)) in
    let b2 := Z.max 0 (Z.min (fst sz) (fst sz - snd shift)) in
    Ok ((l1, t1, r1, b1), (l2, t2, r2, b2)).

(** The statistics [_estimateMatch] takes of the two cropped regions. *)
Definition np_subtract (a : list (list float)) (v : float) : list float :=
  map (fun p => (p - v)%float) (concat a).

Definition np_multiply (a b : list float) : list float :=
  map (fun p => (fst p * snd p)%float) (combine a b).

Definition region_avg (a : list (list float)) : float :=
  (np_sum (concat a) / float_of_Z (arr_size a))%float.

Definition region_covar (a b : list (list float)) : float :=
  (np_sum (np_multiply (np_subtract a (region_avg a)) (np_subtract b (region_avg b)))
   / float_of_Z (arr_size a))%float.

Definition region_var (a : list (list float)) : float :=
  let d := np_subtract a (region_avg a) in
  (np_sum (np_multiply d d) / float_of_Z (arr_size a))%float.

Definition region_stDev (a : list (list float)) : float :=
  PrimFloat.sqrt (region_var a).

(** The bounds of the plausible length of a shift. *)
Definition min_shift (tsize : Z) (osize : float) : float :=
  (PrimFloat.sqrt 2 * (float_of_Z tsize - osize) - osize * EXTREME_SHIFT)%float.
Definition max_shift (tsize : Z) (osize : float) : float :=
  (PrimFloat.sqrt 2 * (float_of_Z tsize - osize) + osize * EXTREME_SHIFT)%float.

Definition shift_length (shift : Z * Z) : float :=
  hypot (float_of_Z (fst shift)) (float_of_Z (snd shift)).

Definition plausible (tsize : Z) (osize : float) (shift : Z * Z) : bool :=
  (min_shift tsize osize <=? shift_length shift)%float
  && (shift_length shift <=? max_shift tsize osize)%float.

Definition _estimateMatch (self : ShiftRegistrar) (imageA imageB : Tile) (shift : Z * Z)
  : result float :=
  ts <~ need (tsize self) ;;
  os <~ need (osize self) ;;
  if negb (plausible ts os shift) then Ok 0%float
  else
    '((l1, t1, r1, b1), (l2, t2, r2, b2)) <~ _estimateROI self shift ;;
    let imageA_sh := crop (data imageA) t1 b1 l1 r1 in
    let imageB_sh := crop (data imageB) t2 b2 l2 r2 in
    let covar := region_covar imageA_sh imageB_sh in
    let stDev := (region_stDev imageA_sh, region_stDev imageB_sh) in
    if (fst stDev =? 0)%float || (snd stDev =? 0)%float then Ok 0%float
    else Ok (covar / (fst stDev * snd stDev))%float.

(** [_get_shift] *)
Definition _get_shift (self : ShiftRegistrar) (prev_tile tile : Tile) (shift : Z * Z)
  : result (Z * Z) :=
  '((l1, t1, r1, b1), (l2, t2, r2, b2)) <~ _estimateROI self shift ;;
  let a := crop (data prev_tile) t1 b1 l1 r1 in
  let b := crop (data tile) t2 b2 l2 r2 in
  Ok (MeasureShift b a).

(** [_mean_shift]; [sum(...) / len(val)] is the true division of two
    integers, taken here as the quotient of their floats (the same for
    sums below 2^53). *)
Fixpoint comprehension {A} (f : Z -> result (option A)) (l : list Z) : result (list A) :=
  match l with
  | [] => Ok []
  | i :: l' =>
      c <~ f i ;;
      rest <~ comprehension f l' ;;
      Ok (match c with Some v => v :: rest | None => rest end)
  end.

Definition sum_Z (l : list Z) : Z := fold_left Z.add l 0.

Definition _mean_shift (row col : Z) (coords_array : grid (Z * Z)) : result (Z * Z) :=
  in_row <~ comprehension (fun i => grid_get coords_array row i) (py_range 1 col) ;;
  in_col <~ comprehension (fun i => grid_get coords_array i col) (py_range 1 row) ;;
  let val := in_row ++ in_col in
  match val with
  | [] => Raise (ValueError NotEnoughData)
  | _ =>
      let n := float_of_Z (Z.of_nat (length val)) in
      mean_x <~ py_int (float_of_Z (sum_Z (map fst val)) / n)%float ;;
      mean_y <~ py_int (float_of_Z (sum_Z (map snd val)) / n)%float ;;
      Ok (mean_x, mean_y)
  end.

(** [try: _mean_shift(...) except ValueError: last] *)
Definition mean_or_last (row col : Z) (coords_array : grid (Z * Z)) (last : Z * Z)
  : result (Z * Z) :=
  match _mean_shift row col coords_array with
  | Raise (ValueError _) => Ok last
  | r => r
  end.

(** The fallback both [_pos_to_left_right] and [_pos_to_top] run when the
    measured shift matches poorly: the mean shift (or the last one), then a
    shift measured again from there.  [exp_shift] is the ideal shift and
    [(x, y)], [match_] the shift and match so far. *)
Definition fallback (self : ShiftRegistrar) (prev_tile tile : Tile) (exp_shift : Z * Z)
  (mean : Z * Z) (xy : Z * Z) (match_ : float) : result ((Z * Z) * float) :=
  let '(mean_x, mean_y) := mean in
  match_c <~ _estimateMatch self prev_tile tile (fst exp_shift - mean_x, snd exp_shift - mean_y) ;;
  let '(xy, match_) :=
    if (match_ <? match_c)%float then ((mean_x, mean_y), match_c) else (xy, match_) in
  if (mean_x =? 0) && (mean_y =? 0) then Ok (xy, match_)
  else
    drift <~ _get_shift self prev_tile tile (fst exp_shift - mean_x, snd exp_shift - mean_y) ;;
    let mean_x := mean_x + fst drift in
    let mean_y := mean_y + snd drift in
    match_c <~ _estimateMatch self prev_tile tile (fst exp_shift - mean_x, snd exp_shift - mean_y) ;;
    if (match_ <? match_c)%float then Ok ((mean_x, mean_y), match_c)
    else Ok (xy, match_).

(** [_pos_to_left_right] *)
Definition _pos_to_left_right (row col : Z) (xdir : direction)
  : M (option (Z * Z) * float) :=
  self <- get ;;
  tile <- liftR (grid_get (tiles self) row col) ;;
  if match xdir with LEFT => 0 <? col | RIGHT => col <? nx self end then
    ts <- liftR (need (tsize self)) ;;
    let exp_shift := (ts, 0) in
    let ncol := match xdir with LEFT => col - 1 | RIGHT => col + 1 end in
    prev_pos <- liftR (grid_get (shifts self) row ncol) ;;
    prev_tile <- liftR (grid_get (tiles self) row ncol) ;;
    tile <- liftR (need tile) ;;
    prev_tile <- liftR (need prev_tile) ;;
    xy <- liftR (match xdir with
                 | LEFT => _get_shift self prev_tile tile exp_shift
                 | RIGHT => '(x, y) <~ _get_shift self tile prev_tile exp_shift ;;
                            Ok (- x, - y)
                 end) ;;
    match_ <- liftR (_estimateMatch self prev_tile tile
                       (fst exp_shift - fst xy, snd exp_shift - snd xy)) ;;
    '(xy, match_) <-
      (if (match_ <? BEST_MATCH)%float && ((1 <? row) || (1 <? col)) then
         mean <- liftR (mean_or_last row col (coords_hor self) (last_hor self)) ;;
         liftR (fallback self prev_tile tile exp_shift mean xy match_)
       else ret (xy, match_)) ;;
    modify (set_last_hor xy) ;;;
    (if (BEST_MATCH <=? match_)%float then
       s <- get ;;
       g <- liftR (grid_set (coords_hor s) row col (Some xy)) ;;
       modify (set_coords_hor g)
     else ret tt) ;;;
    s <- get ;;
    prev_pos <- liftR (need prev_pos) ;;
    sz <- liftR (need (size s)) ;;
    let spacing := (float_of_Z (snd sz) * (1 - ovrlp s))%float in
    px <- liftR (py_int (match xdir with
                         | LEFT => float_of_Z (fst prev_pos) + spacing - float_of_Z (fst xy)
                         | RIGHT => float_of_Z (fst prev_pos) - spacing - float_of_Z (fst xy)
                         end)%float) ;;
    ret (Some (px, snd prev_pos - snd xy), match_)
  else ret (None, 0%float).

(** [_pos_to_top] *)
Definition _pos_to_top (row col : Z) : M (option (Z * Z) * float) :=
  self <- get ;;
  tile <- liftR (grid_get (tiles self) row col) ;;
  if 0 <? row then
    ts <- liftR (need (tsize self)) ;;
    let exp_shift := (0, ts) in
    prev_pos <- liftR (grid_get (shifts self) (row - 1) col) ;;
    prev_tile <- liftR (grid_get (tiles self) (row - 1) col) ;;
    tile <- liftR (need tile) ;;
    prev_tile <- liftR (need prev_tile) ;;
    xy <- liftR (_get_shift self prev_tile tile exp_shift) ;;
    match_ <- liftR (_estimateMatch self prev_tile tile
                       (fst exp_shift - fst xy, snd exp_shift - snd xy)) ;;
    '(xy, match_) <-
      (if (match_ <? BEST_MATCH)%float && ((1 <? row) || (1 <? col)) then
         mean <- liftR (mean_or_last row col (coords_ver self) (last_ver self)) ;;
         liftR (fallback self prev_tile tile exp_shift mean xy match_)
       else ret (xy, match_)) ;;
    modify (set_last_ver xy) ;;;
    (if (BEST_MATCH <=? match_)%float then
       s <- get ;;
       g <- liftR (grid_set (coords_ver s) row col (Some xy)) ;;
       modify (set_coords_ver g)
     else ret tt) ;;;
    s <- get ;;
    prev_pos <- liftR (need prev_pos) ;;
    sz <- liftR (need (size s)) ;;
    let spacing := (float_of_Z (fst sz) * (1 - ovrlp s))%float in
    py <- liftR (py_int (float_of_Z (snd prev_pos) + spacing - float_of_Z (snd xy))%float) ;;
    ret (Some (fst prev_pos - fst xy, py), match_)
  else ret (None, 0%float).

(** The reconciliation of the two estimates at the end of
    [_compute_registration] ("get rid of extreme values"): [pos], [match_]
    from the left or right neighbour, [pos2], [match2] from the top one,
    [(ox, oy)] the expected position without any shift. *)
Definition truncated_mean (a b : Z) : result Z :=
  py_int (float_of_Z (a + b) / 2)%float.

Definition reconcile (pos : option (Z * Z)) (match_ : float)
  (pos2 : option (Z * Z)) (match2 : float) (ox oy : Z) : result (Z * Z) :=
  match pos, pos2 with
  | None, None => Ok (ox, oy)
  | None, Some p2 => Ok p2
  | Some p, None => Ok p
  | Some p, Some p2 =>
      if (GOOD_MATCH <? match_)%float && (GOOD_MATCH <? match2)%float then
        x <~ truncated_mean (fst p) (fst p2) ;;
        y <~ truncated_mean (snd p) (snd p2) ;;
        Ok (x, y)
      else if (match_ <? match2)%float then Ok p2
      else if (match2 =? 0)%float && (match_ =? 0)%float then Ok (ox, oy)
      else Ok p
  end.

(** The test that opens [_compute_registration]. *)
Definition previous_missing (self : ShiftRegistrar) (row col : Z) : result bool :=
  above <~ (if 1 <=? row then
              c <~ grid_get (tiles self) (row - 1) col ;;
              Ok (match c with None => true | Some _ => false end)
            else Ok false) ;;
  if above then
    if 1 <=? col then
      c <~ grid_get (tiles self) row (col - 1) ;;
      Ok (match c with None => true | Some _ => false end)
    else Ok false
  else Ok false.

Definition is_filled {A} (g : grid A) (r c : Z) : result bool :=
  cell <~ grid_get g r c ;;
  Ok (match cell with Some _ => true | None => false end).

(** The estimate from the left or right neighbour and the one from the
    top neighbour, as [_compute_registration] asks for them. *)
Definition horizontal_estimate (row col : Z) : M (option (Z * Z) * float) :=
  self <- get ;;
  ppx <- liftR (need (pos_prev_x self)) ;;
  if ppx <? col then
    filled <- liftR (if col =? 0 then Ok false
                     else is_filled (tiles self) row (col - 1)) ;;
    if filled then _pos_to_left_right row col LEFT else ret (None, 0%float)
  else if col <? ppx then
    filled <- liftR (if col =? nx self then Ok false
                     else is_filled (tiles self) row (col + 1)) ;;
    if filled then _pos_to_left_right row col RIGHT else ret (None, 0%float)
  else ret (None, 0%float).

Definition vertical_estimate (row col : Z) : M (option (Z * Z) * float) :=
  self <- get ;;
  filled <- liftR (if row =? 0 then Ok false
                   else is_filled (tiles self) (row - 1) col) ;;
  if filled then _pos_to_top row col else ret (None, 0%float).

(** The expected position of slot [(row, col)] without any shift. *)
Definition expected_position (self : ShiftRegistrar) (row col : Z) : result (Z * Z) :=
  sz <~ need (size self) ;;
  ox <~ py_int (float_of_Z col * (float_of_Z (snd sz) * (1 - ovrlp self)))%float ;;
  oy <~ py_int (float_of_Z row * (float_of_Z (fst sz) * (1 - ovrlp self)))%float ;;
  Ok (ox, oy).

(** [_compute_registration] *)
Definition _compute_registration (tile : Tile) (row col : Z) : M unit :=
  self <- get ;;
  missing <- liftR (previous_missing self row col) ;;
  if missing then raise (ValueError PreviousNotStitched)
  else
    g <- liftR (grid_set (tiles self) row col (Some tile)) ;;
    modify (set_tiles g) ;;;
    self <- get ;;
    '(ox, oy) <- liftR (expected_position self row col) ;;
    '(pos, match_) <- horizontal_estimate row col ;;
    '(pos2, match2) <- vertical_estimate row col ;;
    pos <- liftR (reconcile pos match_ pos2 match2 ox oy) ;;
    self <- get ;;
    g <- liftR (grid_set (shifts self) row col (Some pos)) ;;
    modify (set_shifts g) ;;;
    modify (fun s => set_acqOrder (acqOrder s ++ [(row, col)]) s).

(** [addTile], lines 136 to 194: the slot of the tile in the grid, and the
    overlap with the closest tile. *)
Definition set_overlap (tile : Tile) (md_pos_prev : float * float) (vertical : bool) : M unit :=
  self <- get ;;
  sz <- liftR (need (size self)) ;;
  px <- liftR (need (px_size self)) ;;
  let extent := if vertical then fst sz else snd sz in
  let size_meter :=
    (float_of_Z extent * (if vertical then snd px else fst px))%float in
  let diff :=
    if vertical then PrimFloat.abs (snd (md_pos tile) - snd md_pos_prev)%float
    else PrimFloat.abs (fst (md_pos tile) - fst md_pos_prev)%float in
  o <- liftR (py_div (PrimFloat.abs (size_meter - diff)) size_meter) ;;
  modify (set_ovrlp o) ;;;
  let os := (float_of_Z extent * o)%float in
  modify (set_osize (Some os)) ;;;
  ts <- liftR (py_int (float_of_Z extent - os)%float) ;;
  modify (set_tsize (Some ts)).

Definition find_slot (tile : Tile) : M unit :=
  self <- get ;;
  first <- liftR (grid_get (tiles self) 0 0) ;;
  match first with
  | None =>
      modify (fun s =>
        set_pos_prev_x (Some 0)
          (set_posY (Some 0)
            (set_posX (Some 0)
              (set_px_size (Some (md_pixel_size tile))
                (set_size (Some (shape tile)) s)))))
  | Some first =>
      if negb (shape_eqb (shape tile) (shape first)) then
        raise (ValueError TileShapeDiffers)
      else
        let md_pos := md_pos tile in
        '(pos_prev, md_pos_prev) <- liftR (_find_closest_tile self md_pos) ;;
        let ver_diff := (snd md_pos - snd md_pos_prev)%float in
        let hor_diff := (fst md_pos - fst md_pos_prev)%float in
        let vertical := (PrimFloat.abs hor_diff <? PrimFloat.abs ver_diff)%float in
        (if vertical then
           if (ver_diff <? 0)%float then
             modify (fun s => set_posX (Some (snd pos_prev))
                                (set_posY (Some (fst pos_prev + 1)) s)) ;;;
             s <- get ;;
             if Z.of_nat (length (shifts s)) <=? fst pos_prev + 1
             then _updateGrid_y else ret tt
           else
             modify (fun s => set_posX (Some (snd pos_prev))
                                (set_posY (Some (fst pos_prev - 1)) s))
         else
           if (0 <? hor_diff)%float then
             modify (fun s => set_posX (Some (snd pos_prev + 1))
                                (set_posY (Some (fst pos_prev)) s)) ;;;
             s <- get ;;
             row0 <- liftR (py_getitem (shifts s) 0) ;;
             if Z.of_nat (length row0) <=? snd pos_prev + 1
             then _updateGrid_x else ret tt
           else
             modify (fun s => set_posX (Some (snd pos_prev - 1))
                                (set_posY (Some (fst pos_prev)) s))) ;;;
        modify (set_pos_prev_x (Some (snd pos_prev))) ;;;
        set_overlap tile md_pos_prev vertical
  end.

(** [addTile], lines 196 to 198: the shift between the tile and each of
    its dependent tiles goes to the last list of [shift_tile_dep_tiles]. *)
Definition np_subtract2 (a b : float * float) : float * float :=
  ((fst a - fst b)%float, (snd a - snd b)%float).

Definition append_to_last (sdt : float * float) : M unit :=
  s <- get ;;
  last <- liftR (py_getitem (shift_tile_dep_tiles s) (-1)) ;;
  l <- liftR (py_setitem (shift_tile_dep_tiles s) (-1) (last ++ [sdt])) ;;
  modify (set_shift_tile_dep_tiles l).

Definition store_dependents (tile : Tile) (dependent_tiles : list Tile) : M unit :=
  for_each dependent_tiles
    (fun dt => append_to_last (np_subtract2 (md_pos dt) (md_pos tile))).

(** [addTile], up to its last line: the slot [(posY, posX)] found for the
    tile. *)
Definition addTile_slot (tile : Tile) (dependent_tiles : option (list Tile)) : M (Z * Z) :=
  dependent_tiles <-
    match dependent_tiles with
    | None => ret []
    | Some l =>
        modify (fun s => set_shift_tile_dep_tiles (shift_tile_dep_tiles s ++ [[]]) s) ;;;
        ret l
    end ;;
  find_slot tile ;;;
  store_dependents tile dependent_tiles ;;;
  self <- get ;;
  row <- liftR (need (posY self)) ;;
  col <- liftR (need (posX self)) ;;
  ret (row, col).

(** [addTile] *)
Definition addTile (tile : Tile) (dependent_tiles : option (list Tile)) : M unit :=
  '(row, col) <- addTile_slot tile dependent_tiles ;;
  _compute_registration tile row col.

(** [getPositions] *)
Definition tile_position (self : ShiftRegistrar) (firstPosition px : float * float)
  (ti : Z * Z) : result (float * float) :=
  shift <~ grid_get (shifts self) (fst ti) (snd ti) ;;
  shift <~ need shift ;;
  Ok (((float_of_Z (fst shift) + fst firstPosition) * fst px)%float,
      ((snd firstPosition - float_of_Z (snd shift)) * snd px)%float).

Fixpoint map_result {A B} (f : A -> result B) (l : list A) : result (list B) :=
  match l with
  | [] => Ok []
  | a :: l' => b <~ f a ;; bs <~ map_result f l' ;; Ok (b :: bs)
  end.

Definition dependent_positions (t : float * float) (sdts : list (float * float))
  : list (float * float) :=
  map (fun sdt => ((fst t + fst sdt)%float, (snd t + snd sdt)%float)) sdts.

Definition getPositions (self : ShiftRegistrar)
  : result (list (float * float) * list (list (float * float))) :=
  first <~ grid_get (tiles self) 0 0 ;;
  first <~ match first with Some t => Ok t | None => Raise AttributeError end ;;
  px <~ need (px_size self) ;;
  let firstPosition :=
    ((fst (md_pos first) / fst px)%float, (snd (md_pos first) / snd px)%float) in
  tile_positions <~ map_result (tile_position self firstPosition px) (acqOrder self) ;;
  let dep_tile_positions :=
    map (fun p => dependent_positions (fst p) (snd p))
        (combine tile_positions (shift_tile_dep_tiles self)) in
  Ok (tile_positions, dep_tile_positions).

(** A session: the calls of [addTile] made one after the other.  A caller
    that catches the exception of one call can go on with the next: the
    registrar is left as the failed call left it. *)
Definition run (calls : list (Tile * option (list Tile))) (self : ShiftRegistrar)
  : ShiftRegistrar :=
  fold_left (fun s c => snd (addTile (fst c) (snd c) s)) calls self.

(** A session whose caller lets the first exception through. *)
Fixpoint run_strict (calls : list (Tile * option (list Tile))) (self : ShiftRegistrar)
  : result ShiftRegistrar :=
  match calls with
  | [] => Ok self
  | c :: calls' =>
      match addTile (fst c) (snd c) self with
      | (Ok _, self') => run_strict calls' self'
      | (Raise e, _) => Raise e
      end
  end.

End Methods.

(** ** The reconciliation in the words of the design document

    Neither estimate: the ideal grid position.  One estimate: that one.
    Both, with two matches of exactly 0: the ideal grid position.  Both,
    with two matches above [GOOD_MATCH]: the truncated average.  Both
    otherwise: the estimate of the higher match, the horizontal one unless
    the vertical match is strictly higher. *)
Definition reconcile_spec (pos : option (Z * Z)) (match_ : float)
  (pos2 : option (Z * Z)) (match2 : float) (ideal : Z * Z) : result (Z * Z) :=
  match pos, pos2 with
  | None, None => Ok ideal
  | Some p, None => Ok p
  | None, Some p2 => Ok p2
  | Some p, Some p2 =>
      if (match_ =? 0)%float && (match2 =? 0)%float then Ok ideal
      else if (GOOD_MATCH <? match_)%float && (GOOD_MATCH <? match2)%float then
        x <~ truncated_mean (fst p) (fst p2) ;;
        y <~ truncated_mean (snd p) (snd p2) ;;
        Ok (x, y)
      else if (match_ <? match2)%float then Ok p2
      else Ok p
  end.

(** ** The offsets of the dependent tiles

    The offsets [addTile] takes for the dependent tiles of a tile, and the
    lists of offsets a session stores: one for each call that passed a
    list. *)
Definition offsets_of (tile : Tile) (l : list Tile) : list (float * float) :=
  map (fun dt => np_subtract2 (md_pos dt) (md_pos tile)) l.

Definition stored_offsets (calls : list (Tile * option (list Tile)))
  : list (list (float * float)) :=
  flat_map (fun c => match snd c with
                     | Some l => [offsets_of (fst c) l]
                     | None => []
                     end) calls.

(** ** Predicates of the proofs *)

(** [keeps f m]: the method [m] never changes the attribute [f], whether
    it returns or raises. *)
Definition keeps {X A} (f : ShiftRegistrar -> X) (m : M A) : Prop :=
  forall s r s', m s = (r, s') -> f s' = f s.

(** [maintains I m]: the method [m] keeps the invariant [I], whether it
    returns or raises. *)
Definition maintains {A} (I : ShiftRegistrar -> Prop) (m : M A) : Prop :=
  forall s r s', I s -> m s = (r, s') -> I s'.

(** The shape of the session: [size] holds it and the tile of slot (0, 0)
    has it. *)
Definition established (shp : Z * Z) (s : ShiftRegistrar) : Prop :=
  size s = Some shp
  /\ exists t, grid_get (tiles s) 0 0 = Ok (Some t) /\ shape t = shp.

(** [quiet r]: the result [r] is not the [ValueError] of the ordering
    test; [quietM m]: the method [m] never raises it. *)
Definition quiet {A} (r : result A) : Prop :=
  r <> Raise (ValueError PreviousNotStitched).

Definition quietM {A} (m : M A) : Prop :=
  forall s s', m s <> (Raise (ValueError PreviousNotStitched), s').

(** The grids and their width. *)
Definition same_grids (s s' : ShiftRegistrar) : Prop :=
  tiles s' = tiles s /\ shifts s' = shifts s
  /\ coords_hor s' = coords_hor s /\ coords_ver s' = coords_ver s
  /\ nx s' = nx s.

(** ** Invariants of the grids

    What the grids of a registrar satisfy through a session, and the
    relation between a registrar and a later one. *)

(** A grid of [rows] rows of [cols] cells each. *)
Definition rect {A} (rows cols : nat) (g : grid A) : Prop :=
  length g = rows /\ Forall (fun r => length r = cols) g.

(** The four grids of the registrar have the same number of rows, at
    least one, and [nx] cells in every row. *)
Definition shaped (s : ShiftRegistrar) : Prop :=
  0 < nx s
  /\ exists rows, (0 < rows)%nat
       /\ rect rows (Z.to_nat (nx s)) (tiles s)
       /\ rect rows (Z.to_nat (nx s)) (coords_ver s)
       /\ rect rows (Z.to_nat (nx s)) (coords_hor s)
       /\ rect rows (Z.to_nat (nx s)) (shifts s).

(** Every slot of [g] that is filled, at indices that are not negative, is
    filled in [g']. *)
Definition filled_kept {A} (g g' : grid A) : Prop :=
  forall i j x, 0 <= i -> 0 <= j -> grid_get g i j = Ok (Some x) ->
    exists x', grid_get g' i j = Ok (Some x').

(** [s'] extends [s]: the grid has at least the rows and columns it had,
    and every slot that held a tile or a position still holds one. *)
Definition extends (s s' : ShiftRegistrar) : Prop :=
  (length (tiles s) <= length (tiles s'))%nat
  /\ nx s <= nx s'
  /\ filled_kept (tiles s) (tiles s')
  /\ filled_kept (shifts s) (shifts s').

(** [related R m]: the registrar after [m] is related by [R] to the one
    before, whether [m] returns or raises. *)
Definition related {A} (R : ShiftRegistrar -> ShiftRegistrar -> Prop) (m : M A) : Prop :=
  forall s r s', m s = (r, s') -> R s s'.

(** The distance [_find_closest_tile] takes between [pos] and the position
    [q] of a tile. *)
Definition distance {K : Kernels} (pos q : float * float) : float :=
  hypot (fst pos - fst q)%float (snd pos - snd q)%float.

(** The state of the loop of [_find_closest_tile] after the slots
    [visited]: no tile of a visited slot is closer than [minDist], and
    [minDist] is the distance of the tile found, if any. *)
Definition closest_inv {K : Kernels} (g : grid Tile) (pos : float * float)
  (visited : list (Z * Z))
  (acc : result (float * option ((Z * Z) * (float * float)))) : Prop :=
  exists minDist found,
    acc = Ok (minDist, found)
    /\ (forall a b t, In (a, b) visited -> grid_get g a b = Ok (Some t) ->
          (distance pos (md_pos t) <? minDist)%float = false)
    /\ match found with
       | None => minDist = infinity
       | Some (ij, q) =>
           In ij visited /\ minDist = distance pos q
           /\ (minDist <? infinity)%float = true
           /\ exists t, grid_get g (fst ij) (snd ij) = Ok (Some t) /\ md_pos t = q
       end.

(** Every slot of [acqOrder] whose indices are not negative holds a
    position. *)
Definition positions_stored (s : ShiftRegistrar) : Prop :=
  forall row col, In (row, col) (acqOrder s) -> 0 <= row -> 0 <= col ->
    exists p, grid_get (shifts s) row col = Ok (Some p).



(** ** Concrete tiles and sessions

    The sessions on which the properties below are evaluated.  The kernels
    are instantiated with the textbook [hypot] and with a [MeasureShift]
    that finds no shift; every length taken below is exact under either
    rounding. *)

Definition hypot_sqrt (x y : float) : float := PrimFloat.sqrt (x * x + y * y)%float.

Definition no_shift : Kernels :=
  {| hypot := hypot_sqrt; MeasureShift := fun _ _ => (0, 0) |}.

(** A kernel whose [MeasureShift] always answers one pixel to the left. *)
Definition one_left : Kernels :=
  {| hypot := hypot_sqrt; MeasureShift := fun _ _ => (-1, 0) |}.

Definition image (rows cols : nat) (px : nat -> nat -> Z) : list (list float) :=
  map (fun r => map (fun c => float_of_Z (px r c)) (seq 0 cols)) (seq 0 rows).

Definition tile_at (img : list (list float)) (x y : float) : Tile :=
  mkTile img (x, y) (1%float, 1%float).

(** 5 x 5 tiles whose pixel values grow with the row. *)
Definition ramp : list (list float) := image 5 5 (fun r _ => Z.of_nat r).

(** 4 x 5 tiles of horizontal stripes, and the same with the stripes
    exchanged. *)
Definition stripes : list (list float) :=
  image 4 5 (fun r _ => Z.of_nat (Nat.modulo r 2)).
Definition stripes_inv : list (list float) :=
  image 4 5 (fun r _ => 1 - Z.of_nat (Nat.modulo r 2)).

Definition origin_tile : Tile := tile_at ramp 0 0.
Definition right_tile : Tile := tile_at ramp 4 0.
Definition below_tile : Tile := tile_at ramp 0 (-4).
Definition above_tile : Tile := tile_at ramp 0 4.
Definition left_tile : Tile := tile_at ramp (-4) 0.
Definition near_right_tile : Tile := tile_at ramp 4.5 0.
Definition dep_tile : Tile := tile_at ramp 1 1.

Definition stripes_tile : Tile := tile_at stripes 0 0.
Definition stripes_inv_tile : Tile := tile_at stripes_inv 4 0.

(** Two tiles side by side, 20 % overlap. *)
Definition row_session : ShiftRegistrar :=
  run (K := no_shift) [(origin_tile, None); (right_tile, None)] ShiftRegistrar_init.

(** Two tiles one below the other, 20 % overlap. *)
Definition column_session : ShiftRegistrar :=
  run (K := no_shift) [(origin_tile, None); (below_tile, None)] ShiftRegistrar_init.

(** Two tiles side by side, 10 % overlap. *)
Definition narrow_session : ShiftRegistrar :=
  run (K := no_shift) [(origin_tile, None); (near_right_tile, None)] ShiftRegistrar_init.

(** Two striped tiles side by side whose overlapping columns are each
    other's inverse. *)
Definition stripes_session : ShiftRegistrar :=
  run (K := no_shift) [(stripes_tile, None); (stripes_inv_tile, None)] ShiftRegistrar_init.

(** A tile without dependent tiles, then a tile with one. *)
Definition mixed_calls : list (Tile * option (list Tile)) :=
  [(origin_tile, None); (right_tile, Some [dep_tile])].

(** 5 x 5 tiles of period 4 on both axes: moved by 4 pixels the pattern
    covers itself. *)
Definition periodic : list (list float) :=
  image 5 5 (fun r c => Z.of_nat (Nat.modulo r 4 + 2 * Nat.modulo c 4)).

(** Three tiles in an L, and the state in which [addTile] hands the tile
    of the corner (1, 1) to [_compute_registration]. *)
Definition grid_session : ShiftRegistrar :=
  run (K := no_shift)
    [(tile_at periodic 0 0, None); (tile_at periodic 4 0, None);
     (tile_at periodic 0 (-4), None)]
    ShiftRegistrar_init.

Definition corner_tile : Tile := tile_at periodic 4 (-4.5).

Definition corner_session : ShiftRegistrar :=
  snd (find_slot (K := no_shift) corner_tile grid_session).

(** Five tiles along the top row and down the last column, and the tile
    left of the last one. *)
Definition staircase_session : ShiftRegistrar :=
  run (K := no_shift)
    [(tile_at periodic 0 0, None); (tile_at periodic 4 0, None);
     (tile_at periodic 8 0, None); (tile_at periodic 8 (-4), None);
     (tile_at periodic 8 (-8), None)]
    ShiftRegistrar_init.

Definition skipped_tile : Tile := tile_at periodic 4 (-8).

(** A tile and the tile below it, the tile right of that one, and then the
    tile above the last: the second column is filled from the bottom. *)
Definition bottom_up_session : ShiftRegistrar :=
  run (K := no_shift)
    [(tile_at periodic 0 0, None); (tile_at periodic 0 (-4), None);
     (tile_at periodic 4 (-4), None)]
    ShiftRegistrar_init.

Definition top_right_tile : Tile := tile_at periodic 4 (-1).

(** Two calls that both pass a list of dependent tiles. *)
Definition listed_calls : list (Tile * option (list Tile)) :=
  [(origin_tile, Some []); (right_tile, Some [dep_tile])].

(** * Properties *)

(** ** The sum of numpy *)

(** The fuel of [pairwise_sum] is enough: with any fuel that is at least
    the length of the array the recursion gives the same sum, so the
    branch without fuel is never taken. *)
Lemma pairwise_sum_rec_fuel (fuel : nat) (a : list float) :
  (length a <= fuel)%nat -> pairwise_sum_rec fuel a = pairwise_sum a.
Proof.
  unfold pairwise_sum.
  enough (H : forall f1 f2 (l : list float),
             (length l <= f1)%nat -> (length l <= f2)%nat ->
             pairwise_sum_rec f1 l = pairwise_sum_rec f2 l).
  { intros Hf. apply H; [assumption | lia]. }
  induction f1 as [|f1 IH]; intros f2 l H1 H2.
  - destruct l; [|cbn in H1; lia]. destruct f2; reflexivity.
  - destruct f2 as [|f2].
    + destruct l; [reflexivity | cbn in H2; lia].
    + cbn [pairwise_sum_rec].
      destruct (length l <? 8)%nat eqn:E8; [reflexivity|].
      destruct (length l <=? PW_BLOCKSIZE)%nat eqn:E128; [reflexivity|].
      apply Nat.ltb_ge in E8. apply Nat.leb_gt in E128. unfold PW_BLOCKSIZE in E128.
      set (n2 := (length l / 2 - (length l / 2) mod 8)%nat).
      assert (Hn2 : (0 < n2 < length l)%nat).
      { subst n2.
        pose proof (Nat.mod_upper_bound (length l / 2) 8 ltac:(lia)).
        pose proof (Nat.Div0.div_le_upper_bound (length l) 2 (length l) ltac:(lia)) as Hd.
        assert (64 <= length l / 2)%nat by (apply Nat.div_le_lower_bound; lia).
        assert (length l / 2 < length l)%nat by (apply Nat.div_lt; lia).
        lia. }
      f_equal.
      * apply IH; rewrite length_firstn; lia.
      * apply IH; rewrite length_skipn; lia.
Qed.

(** The groups of the iterator are the array, cut every [NPY_BUFSIZE]
    values. *)
Lemma buffers_concat (fuel : nat) (a : list float) :
  (length a <= fuel)%nat -> concat (buffers fuel a) = a.
Proof.
  assert (Hpos : (0 < NPY_BUFSIZE)%nat) by (unfold NPY_BUFSIZE; lia).
  revert a. induction fuel as [|fuel IH]; intros a Ha.
  - destruct a; [reflexivity | cbn in Ha; lia].
  - destruct a as [|x a]; [reflexivity|].
    change (buffers (S fuel) (x :: a))
      with (firstn NPY_BUFSIZE (x :: a) :: buffers fuel (skipn NPY_BUFSIZE (x :: a))).
    cbn [concat]. rewrite IH; [apply firstn_skipn|].
    rewrite length_skipn. cbn [length] in *. lia.
Qed.

(** Up to 7 values are added from left to right: on them the order of
    numpy is the order of the loop one would write. *)
Lemma np_sum_short (a : list float) :
  (0 < length a < 8)%nat ->
  np_sum a = (0 + fold_left PrimFloat.add a 0)%float.
Proof.
  intros Ha. unfold np_sum.
  destruct a as [|x a]; [cbn in Ha; lia|].
  destruct (length (x :: a)) as [|n] eqn:En; [discriminate|].
  change (buffers (S n) (x :: a))
    with (firstn NPY_BUFSIZE (x :: a) :: buffers n (skipn NPY_BUFSIZE (x :: a))).
  assert (Hf : firstn NPY_BUFSIZE (x :: a) = x :: a).
  { apply firstn_all2. unfold NPY_BUFSIZE. lia. }
  assert (Hs : skipn NPY_BUFSIZE (x :: a) = []).
  { apply skipn_all2. unfold NPY_BUFSIZE. lia. }
  rewrite Hf, Hs. replace (buffers n []) with (@nil (list float)) by (destruct n; reflexivity).
  cbn [fold_left]. f_equal. unfold pairwise_sum. rewrite En.
  cbn [pairwise_sum_rec]. rewrite En.
  replace (S n <? 8)%nat with true by (symmetry; apply Nat.ltb_lt; lia). reflexivity.
Qed.

(** From 8 values on the order differs: ten times 0.1 add up to 1 for
    numpy, and to less when added from left to right. *)
Lemma np_sum_pairwise_example :
  np_sum (repeat 0x1.999999999999ap-4%float 10) = 1%float
  /\ fold_left PrimFloat.add (repeat 0x1.999999999999ap-4%float 10) 0%float
     = 0x1.fffffffffffffp-1%float.
Proof. vm_compute. split; reflexivity. Qed.

(** ** IdentityRegistrar *)

Lemma identity_run_tile_pos (calls : list (Tile * option (list Tile))) (s : IdentityRegistrar.t) :
  IdentityRegistrar.tile_pos (IdentityRegistrar.run calls s)
  = IdentityRegistrar.tile_pos s ++ map (fun c => md_pos (fst c)) calls.
Proof.
  revert s. induction calls as [|c calls IH]; intros s; cbn.
  - now rewrite app_nil_r.
  - unfold IdentityRegistrar.run in IH. rewrite IH.
    unfold IdentityRegistrar.addTile.
    destruct (IdentityRegistrar.truthy (snd c)); cbn; now rewrite <- app_assoc.
Qed.

(** C9: for the identity registrar, the first list of [getPositions] is the
    list of the [MD_POS] of the tiles added, unchanged and in the order of
    the calls. *)
Theorem identity_getPositions_round_trip (calls : list (Tile * option (list Tile))) :
  fst (IdentityRegistrar.getPositions (IdentityRegistrar.run calls IdentityRegistrar.init))
  = map (fun c => md_pos (fst c)) calls.
Proof.
  unfold IdentityRegistrar.getPositions; cbn [fst].
  now rewrite identity_run_tile_pos.
Qed.

(** The second list of the identity registrar holds one entry per call
    that passed a non-empty list, and nothing for the other calls. *)
Lemma identity_run_dep_tiles_pos (calls : list (Tile * option (list Tile))) (s : IdentityRegistrar.t) :
  IdentityRegistrar.dep_tiles_pos (IdentityRegistrar.run calls s)
  = IdentityRegistrar.dep_tiles_pos s
    ++ map (fun c => map md_pos (match snd c with Some l => l | None => [] end))
           (filter (fun c => IdentityRegistrar.truthy (snd c)) calls).
Proof.
  revert s. induction calls as [|c calls IH]; intros s; cbn.
  - now rewrite app_nil_r.
  - unfold IdentityRegistrar.run in IH. rewrite IH.
    unfold IdentityRegistrar.addTile.
    destruct (IdentityRegistrar.truthy (snd c)); cbn; [now rewrite <- app_assoc | reflexivity].
Qed.

(** ** The overlapping regions *)

Section Properties.

Context {K : Kernels}.

Ltac simpl_min_max :=
  repeat match goal with
    | |- context [Z.min ?a ?b] =>
        first [rewrite (Z.min_l a b) by lia | rewrite (Z.min_r a b) by lia]
    | |- context [Z.max ?a ?b] =>
        first [rewrite (Z.max_l a b) by lia | rewrite (Z.max_r a b) by lia]
    end.

(** [_estimateROI] raises exactly when a component of the shift is at
    least the extent of the tile on its axis: the sign is not dropped. *)
Lemma estimateROI_raises_iff (self : ShiftRegistrar) (sz shift : Z * Z) :
  size self = Some sz ->
  (_estimateROI self shift = Raise (ValueError NoOverlapForShift)
   <-> snd sz <= fst shift \/ fst sz <= snd shift).
Proof.
  intros Hsz. unfold _estimateROI. rewrite Hsz; cbn.
  destruct (snd sz <=? fst shift) eqn:E1; destruct (fst sz <=? snd shift) eqn:E2; cbn;
    split; intros H; try reflexivity; try discriminate; try lia.
Qed.

(** For a shift shorter than the tile on both axes, the two regions have
    the extent of the overlap and lie within the tile, the region of the
    reference tile being the region of the shifted tile moved by the
    shift. *)
Lemma estimateROI_overlap (self : ShiftRegistrar) (h w sx sy : Z) :
  size self = Some (h, w) ->
  Z.abs sx < w -> Z.abs sy < h ->
  exists l1 t1 r1 b1 l2 t2 r2 b2,
    _estimateROI self (sx, sy) = Ok ((l1, t1, r1, b1), (l2, t2, r2, b2))
    /\ r1 - l1 = w - Z.abs sx /\ r2 - l2 = w - Z.abs sx
    /\ b1 - t1 = h - Z.abs sy /\ b2 - t2 = h - Z.abs sy
    /\ l1 - l2 = sx /\ t1 - t2 = sy
    /\ 0 <= l1 /\ r1 <= w /\ 0 <= l2 /\ r2 <= w
    /\ 0 <= t1 /\ b1 <= h /\ 0 <= t2 /\ b2 <= h.
Proof.
  intros Hsz Hx Hy. unfold _estimateROI. rewrite Hsz; cbn.
  destruct (w <=? sx) eqn:E1; [lia|].
  destruct (h <=? sy) eqn:E2; [lia|]. cbn.
  do 8 eexists. split; [reflexivity|].
  destruct (Z.le_gt_cases 0 sx); destruct (Z.le_gt_cases 0 sy); simpl_min_max; lia.
Qed.

(** For a negative shift at least as long as the tile, no exception is
    raised and both regions are empty. *)
Lemma estimateROI_far_left (self : ShiftRegistrar) (h w sx sy : Z) :
  size self = Some (h, w) ->
  0 < w -> sx <= - w -> sy < h ->
  exists t1 b1 t2 b2,
    _estimateROI self (sx, sy) = Ok ((0, t1, 0, b1), (w, t2, w, b2)).
Proof.
  intros Hsz Hw Hx Hy. unfold _estimateROI. rewrite Hsz; cbn.
  destruct (w <=? sx) eqn:E1; [lia|].
  destruct (h <=? sy) eqn:E2; [lia|]. cbn.
  replace (Z.max 0 (Z.min w sx)) with 0 by lia.
  replace (Z.max 0 (Z.min w (sx + w))) with 0 by lia.
  replace (Z.max 0 (Z.min w (- sx))) with w by lia.
  replace (Z.max 0 (Z.min w (w - sx))) with w by lia.
  now do 4 eexists.
Qed.

(** ** The match of two tiles *)

(** The three ways out of [_estimateMatch]: it answers 0 before any pixel
    is read when the length of the shift is outside the plausible interval.
    Inside the interval it first asks [_estimateROI] for the regions, whose
    [ValueError] it lets through; with the regions at hand it answers 0
    when one of the two standard deviations is 0 and the covariance over
    their product otherwise. *)
Lemma estimateMatch_cases (self : ShiftRegistrar) (imageA imageB : Tile)
  (shift : Z * Z) (ts : Z) (os : float) (sz : Z * Z) :
  tsize self = Some ts -> osize self = Some os -> size self = Some sz ->
  (plausible ts os shift = false ->
     _estimateMatch self imageA imageB shift = Ok 0%float)
  /\ (plausible ts os shift = true ->
      snd sz <= fst shift \/ fst sz <= snd shift ->
      _estimateMatch self imageA imageB shift = Raise (ValueError NoOverlapForShift))
  /\ (plausible ts os shift = true ->
      fst shift < snd sz -> snd shift < fst sz ->
      exists l1 t1 r1 b1 l2 t2 r2 b2,
        _estimateROI self shift = Ok ((l1, t1, r1, b1), (l2, t2, r2, b2))
        /\ let a := crop (data imageA) t1 b1 l1 r1 in
           let b := crop (data imageB) t2 b2 l2 r2 in
           _estimateMatch self imageA imageB shift
           = Ok (if (region_stDev a =? 0)%float || (region_stDev b =? 0)%float
                 then 0%float
                 else (region_covar a b / (region_stDev a * region_stDev b))%float)).
Proof.
  intros Hts Hos Hsz. unfold _estimateMatch. rewrite Hts, Hos; cbn.
  split; [|split].
  - intros ->. reflexivity.
  - intros -> Hout; cbn.
    apply (estimateROI_raises_iff self sz shift Hsz) in Hout. now rewrite Hout.
  - intros -> Hx Hy; cbn.
    unfold _estimateROI. rewrite Hsz; cbn.
    destruct (snd sz <=? fst shift) eqn:E1; [lia|].
    destruct (fst sz <=? snd shift) eqn:E2; [lia|]. cbn.
    do 8 eexists. split; [reflexivity|]. cbn zeta.
    match goal with |- (if ?c then _ else _) = _ => destruct c end; reflexivity.
Qed.

End Properties.

Lemma estimateROI_overlap_witness :
  exists l1 t1 r1 b1 l2 t2 r2 b2,
    _estimateROI row_session (4, -1) = Ok ((l1, t1, r1, b1), (l2, t2, r2, b2))
    /\ r1 - l1 = 5 - Z.abs 4 /\ r2 - l2 = 5 - Z.abs 4
    /\ b1 - t1 = 5 - Z.abs (-1) /\ b2 - t2 = 5 - Z.abs (-1)
    /\ l1 - l2 = 4 /\ t1 - t2 = -1
    /\ 0 <= l1 /\ r1 <= 5 /\ 0 <= l2 /\ r2 <= 5
    /\ 0 <= t1 /\ b1 <= 5 /\ 0 <= t2 /\ b2 <= 5.
Proof.
  apply (estimateROI_overlap row_session 5 5 4 (-1)); [vm_compute; reflexivity | lia | lia].
Defined.

Lemma estimateMatch_cases_witness :
  (plausible (K := no_shift) 4 1 (4, 0) = false ->
     _estimateMatch (K := no_shift) stripes_session stripes_tile stripes_inv_tile (4, 0)
     = Ok 0%float)
  /\ (plausible (K := no_shift) 4 1 (4, 0) = true ->
      snd (4, 5) <= fst (4, 0) \/ fst (4, 5) <= snd (4, 0) ->
      _estimateMatch (K := no_shift) stripes_session stripes_tile stripes_inv_tile (4, 0)
      = Raise (ValueError NoOverlapForShift))
  /\ (plausible (K := no_shift) 4 1 (4, 0) = true ->
      fst (4, 0) < snd (4, 5) -> snd (4, 0) < fst (4, 5) ->
      exists l1 t1 r1 b1 l2 t2 r2 b2,
        _estimateROI stripes_session (4, 0) = Ok ((l1, t1, r1, b1), (l2, t2, r2, b2))
        /\ let a := crop (data stripes_tile) t1 b1 l1 r1 in
           let b := crop (data stripes_inv_tile) t2 b2 l2 r2 in
           _estimateMatch (K := no_shift) stripes_session stripes_tile stripes_inv_tile (4, 0)
           = Ok (if (region_stDev a =? 0)%float || (region_stDev b =? 0)%float
                 then 0%float
                 else (region_covar a b / (region_stDev a * region_stDev b))%float)).
Proof.
  apply (@estimateMatch_cases no_shift stripes_session stripes_tile stripes_inv_tile
           (4, 0) 4 1%float (4, 5)); vm_compute; reflexivity.
Defined.

(** C2: with 10 % overlap between 5 x 5 tiles ([tsize] 4, [osize] 0.5) the
    shift (5, 0) has a length inside the plausible interval, and
    [_estimateMatch] answers neither 0 nor a quotient: the [ValueError] of
    [_estimateROI] escapes it.  Nothing catches it on the way up: with a
    [MeasureShift] that answers one pixel to the left, adding the second
    tile of that session asks for the match of that shift, and [addTile]
    raises, leaving the tile in slot (0, 1) without a position. *)
Theorem estimateMatch_raises_inside_interval :
  tsize narrow_session = Some 4 /\ osize narrow_session = Some 0.5%float
  /\ PrimFloat.leb (min_shift 4 0.5%float) (shift_length (K := no_shift) (5, 0)) = true
  /\ PrimFloat.leb (shift_length (K := no_shift) (5, 0)) (max_shift 4 0.5%float) = true
  /\ _estimateMatch (K := no_shift) narrow_session origin_tile near_right_tile (5, 0)
     = Raise (ValueError NoOverlapForShift)
  /\ let out := addTile (K := one_left) near_right_tile None
                  (snd (addTile (K := one_left) origin_tile None ShiftRegistrar_init)) in
     fst out = Raise (ValueError NoOverlapForShift)
     /\ grid_get (tiles (snd out)) 0 1 = Ok (Some near_right_tile)
     /\ grid_get (shifts (snd out)) 0 1 = Ok None
     /\ acqOrder (snd out) = [(0, 0)].
Proof. vm_compute. repeat split. Qed.

(** C4: on two striped tiles whose overlapping columns are each other's
    inverse, the match of the ideal shift is -1. *)
Theorem estimateMatch_negative :
  plausible (K := no_shift) 4 1 (4, 0) = true
  /\ _estimateMatch (K := no_shift) stripes_session stripes_tile stripes_inv_tile (4, 0)
     = Ok (-1)%float
  /\ (-1 <? 0)%float = true.
Proof. vm_compute. repeat split. Qed.

(** C3: for 5 x 5 tiles and the shift (-5, 0), whose length on the X axis
    is the width of the tile, [_estimateROI] raises nothing and answers two
    empty regions; the shift (5, 0) raises. *)
Theorem estimateROI_negative_shift_accepted :
  size row_session = Some (5, 5)
  /\ _estimateROI row_session (-5, 0) = Ok ((0, 0, 0, 5), (5, 0, 5, 5))
  /\ _estimateROI row_session (5, 0) = Raise (ValueError NoOverlapForShift).
Proof. vm_compute. repeat split. Qed.

(** ** Insertion above the first row and left of the first column *)

(** C10: in a grid of two rows, a tile placed 4 pixels above the tile of
    slot (0, 0) has that tile as its closest one and gets the slot
    (-1, 0).  [addTile] returns normally and the grid keeps its two rows:
    the index -1 selects the last row, whose tile and shift are replaced.
    The same happens with the column -1 for a tile placed left of slot
    (0, 0) in a grid of two columns. *)
Theorem addTile_outside_grid_accepted :
  let up := addTile (K := no_shift) above_tile None column_session in
  let left := addTile (K := no_shift) left_tile None row_session in
  (_find_closest_tile (K := no_shift) column_session (md_pos above_tile)
   = Ok ((0, 0), md_pos origin_tile)
   /\ fst up = Ok tt
   /\ posY (snd up) = Some (-1) /\ posX (snd up) = Some 0
   /\ length (tiles (snd up)) = 2%nat /\ length (tiles column_session) = 2%nat
   /\ grid_get (tiles column_session) 1 0 = Ok (Some below_tile)
   /\ grid_get (tiles (snd up)) 1 0 = Ok (Some above_tile)
   /\ grid_get (shifts column_session) 1 0 = Ok (Some (0, 4))
   /\ grid_get (shifts (snd up)) 1 0 = Ok (Some (0, -4))
   /\ acqOrder (snd up) = [(0, 0); (1, 0); (-1, 0)])
  /\ (_find_closest_tile (K := no_shift) row_session (md_pos left_tile)
      = Ok ((0, 0), md_pos origin_tile)
      /\ fst left = Ok tt
      /\ posY (snd left) = Some 0 /\ posX (snd left) = Some (-1)
      /\ map (@length _) (tiles (snd left)) = [2%nat]
      /\ map (@length _) (tiles row_session) = [2%nat]
      /\ grid_get (tiles row_session) 0 1 = Ok (Some right_tile)
      /\ grid_get (tiles (snd left)) 0 1 = Ok (Some left_tile)
      /\ grid_get (shifts row_session) 0 1 = Ok (Some (4, 0))
      /\ grid_get (shifts (snd left)) 0 1 = Ok (Some (-4, 0))
      /\ acqOrder (snd left) = [(0, 0); (0, 1); (0, -1)]).
Proof. vm_compute. repeat split. Qed.

(** ** What a method leaves untouched *)

Lemma keeps_ret {X A} (f : ShiftRegistrar -> X) (a : A) : keeps f (ret a).
Proof. intros s r s' H. inversion H; reflexivity. Qed.

Lemma keeps_raise {X A} (f : ShiftRegistrar -> X) (e : exn) : keeps f (@raise A e).
Proof. intros s r s' H. inversion H; reflexivity. Qed.

Lemma keeps_get {X} (f : ShiftRegistrar -> X) : keeps f get.
Proof. intros s r s' H. inversion H; reflexivity. Qed.

Lemma keeps_liftR {X A} (f : ShiftRegistrar -> X) (r : result A) : keeps f (liftR r).
Proof. intros s r' s' H. inversion H; reflexivity. Qed.

Lemma keeps_modify {X} (f : ShiftRegistrar -> X) (g : ShiftRegistrar -> ShiftRegistrar) :
  (forall s, f (g s) = f s) -> keeps f (modify g).
Proof. intros Hg s r s' H. inversion H; apply Hg. Qed.

Lemma keeps_bind {X A B} (f : ShiftRegistrar -> X) (m : M A) (k : A -> M B) :
  keeps f m -> (forall a, keeps f (k a)) -> keeps f (bind m k).
Proof.
  intros Hm Hk s r s' H. unfold bind in H.
  destruct (m s) as [[a|e] s1] eqn:E.
  - rewrite (Hk a s1 r s' H). exact (Hm _ _ _ E).
  - inversion H; subst. exact (Hm _ _ _ E).
Qed.

Lemma keeps_for_each {X A} (f : ShiftRegistrar -> X) (l : list A) (body : A -> M unit) :
  (forall a, keeps f (body a)) -> keeps f (for_each l body).
Proof.
  intros Hb. induction l as [|a l IH]; cbn.
  - apply keeps_ret.
  - apply keeps_bind; [apply Hb | intros _; exact IH].
Qed.

(** One step of a method: the plumbing of the monad is computed away. *)
Ltac mstep := unfold bind, get, liftR, modify, ret, raise; cbn beta iota.

Ltac keeps_step :=
  first
    [ apply keeps_ret
    | apply keeps_raise
    | apply keeps_get
    | apply keeps_liftR
    | apply keeps_modify; intros; solve [reflexivity | auto]
    | apply keeps_bind; [| intros ?; cbv beta]
    | match goal with
      | |- keeps _ (match ?x with _ => _ end) => destruct x
      end ].

Ltac keeps_auto := repeat keeps_step.

Section Frames.

Context {K : Kernels}.
Context {X : Type} (f : ShiftRegistrar -> X).

(** The two estimators only assign [last_hor], [last_ver], [coords_hor]
    and [coords_ver]. *)
Hypothesis f_last_hor : forall v s, f (set_last_hor v s) = f s.
Hypothesis f_last_ver : forall v s, f (set_last_ver v s) = f s.
Hypothesis f_coords_hor : forall v s, f (set_coords_hor v s) = f s.
Hypothesis f_coords_ver : forall v s, f (set_coords_ver v s) = f s.

Lemma keeps_pos_to_left_right (row col : Z) (xdir : direction) :
  keeps f (_pos_to_left_right row col xdir).
Proof. unfold _pos_to_left_right. keeps_auto. Qed.

Lemma keeps_pos_to_top (row col : Z) : keeps f (_pos_to_top row col).
Proof. unfold _pos_to_top. keeps_auto. Qed.

Lemma keeps_horizontal_estimate (row col : Z) : keeps f (horizontal_estimate row col).
Proof.
  unfold horizontal_estimate. keeps_auto; apply keeps_pos_to_left_right.
Qed.

Lemma keeps_vertical_estimate (row col : Z) : keeps f (vertical_estimate row col).
Proof.
  unfold vertical_estimate. keeps_auto; apply keeps_pos_to_top.
Qed.

End Frames.

(** ** Lists and grids *)

Lemma py_norm_lt (len i : Z) (n : nat) :
  py_norm len i = Some n -> Z.of_nat n < len.
Proof.
  unfold py_norm.
  destruct ((0 <=? i) && (i <? len)) eqn:E1.
  - intros [= <-]. apply andb_prop in E1 as [? ?]. lia.
  - destruct ((- len <=? i) && (i <? 0)) eqn:E2; [|discriminate].
    intros [= <-]. apply andb_prop in E2 as [? ?]. lia.
Qed.

Lemma length_list_update {A} (n : nat) (v : A) (l : list A) :
  length (list_update n v l) = length l.
Proof.
  revert n; induction l as [|a l IH]; intros [|n]; cbn; auto.
Qed.

Lemma nth_error_list_update {A} (n : nat) (v : A) (l : list A) :
  (n < length l)%nat -> nth_error (list_update n v l) n = Some v.
Proof.
  revert n; induction l as [|a l IH]; intros [|n] H; cbn in *; try lia; auto.
  apply IH; lia.
Qed.

Lemma nth_error_list_update_other {A} (n m : nat) (v : A) (l : list A) :
  n <> m -> nth_error (list_update n v l) m = nth_error l m.
Proof.
  revert n m; induction l as [|a l IH]; intros [|n] [|m] H; cbn; auto; easy.
Qed.

Lemma py_getitem_setitem {A} (l l' : list A) (i : Z) (v : A) :
  py_setitem l i v = Ok l' -> py_getitem l' i = Ok v.
Proof.
  unfold py_setitem, py_getitem.
  destruct (py_norm (Z.of_nat (length l)) i) as [n|] eqn:E; [|discriminate].
  intros [= <-]. rewrite length_list_update, E.
  rewrite nth_error_list_update; [reflexivity|].
  apply py_norm_lt in E. lia.
Qed.

(** What [g[r][c] = v] stores is what [g[r][c]] reads next, for negative
    indices too. *)
Lemma grid_get_set {A} (g g' : grid A) (r c : Z) (v : option A) :
  grid_set g r c v = Ok g' -> grid_get g' r c = Ok v.
Proof.
  unfold grid_set, grid_get, bindR.
  destruct (py_getitem g r) as [row|] eqn:E1; [|discriminate].
  destruct (py_setitem row c v) as [row'|] eqn:E2; [|discriminate].
  intros H. rewrite (py_getitem_setitem _ _ _ _ H).
  exact (py_getitem_setitem _ _ _ _ E2).
Qed.

(** ** Floats *)

Lemma float_zero_cases (m : float) :
  (m =? 0)%float = true -> exists s, Prim2SF m = S754_zero s.
Proof.
  rewrite eqb_spec.
  destruct (Prim2SF m) as [s|s| |s mm e] eqn:E; cbn.
  - intros _. now exists s.
  - destruct s; discriminate.
  - discriminate.
  - destruct s; discriminate.
Qed.

Lemma zero_not_above (g m : float) :
  (0 <? g)%float = true -> (m =? 0)%float = true -> (g <? m)%float = false.
Proof.
  intros Hg Hm. destruct (float_zero_cases m Hm) as [s Hs].
  rewrite ltb_spec in *. rewrite Hs.
  change (Prim2SF 0) with (S754_zero false) in Hg.
  destruct (Prim2SF g) as [s'|s'| |s' mm e]; cbn in *; try discriminate; try reflexivity.
  - destruct s'; [discriminate | reflexivity].
  - destruct s', s; try discriminate; reflexivity.
Qed.

Lemma zero_not_below_zero (m m2 : float) :
  (m =? 0)%float = true -> (m2 =? 0)%float = true -> (m <? m2)%float = false.
Proof.
  intros Hm Hm2. destruct (float_zero_cases m Hm) as [s Hs].
  destruct (float_zero_cases m2 Hm2) as [s2 Hs2].
  rewrite ltb_spec, Hs, Hs2. reflexivity.
Qed.

(** ** The reconciliation *)

(** The chain of tests of the source decides as the design document says:
    the test for two matches of 0 comes last in the source, and can come
    first because a match of 0 is neither above [GOOD_MATCH] nor below
    another match of 0. *)
Lemma reconcile_meets_spec (pos : option (Z * Z)) (match_ : float)
  (pos2 : option (Z * Z)) (match2 : float) (ox oy : Z) :
  reconcile pos match_ pos2 match2 ox oy = reconcile_spec pos match_ pos2 match2 (ox, oy).
Proof.
  unfold reconcile, reconcile_spec.
  destruct pos as [p|], pos2 as [p2|]; try reflexivity.
  destruct (match_ =? 0)%float eqn:E1; destruct (match2 =? 0)%float eqn:E2; cbn [andb].
  - rewrite (zero_not_above GOOD_MATCH match_ eq_refl E1).
    rewrite (zero_not_below_zero _ _ E1 E2). reflexivity.
  - destruct ((GOOD_MATCH <? match_)%float && (GOOD_MATCH <? match2)%float); [reflexivity|].
    destruct (match_ <? match2)%float; reflexivity.
  - destruct ((GOOD_MATCH <? match_)%float && (GOOD_MATCH <? match2)%float); [reflexivity|].
    destruct (match_ <? match2)%float; reflexivity.
  - destruct ((GOOD_MATCH <? match_)%float && (GOOD_MATCH <? match2)%float); [reflexivity|].
    destruct (match_ <? match2)%float; reflexivity.
Qed.

Section Registration.

Context {K : Kernels}.

(** C1: when [_compute_registration] returns, the position stored for the
    new tile is the reconciliation, in the words of the design document, of
    the estimate taken from the left or right neighbour and the one taken
    from the top neighbour, the ideal grid position being
    [(int(col * spacingX), int(row * spacingY))]. *)
Theorem compute_registration_reconciles (tile : Tile) (row col : Z) (s s' : ShiftRegistrar) :
  _compute_registration tile row col s = (Ok tt, s') ->
  exists g s1 s2 pos match_ pos2 match2 ideal p,
    grid_set (tiles s) row col (Some tile) = Ok g
    /\ expected_position (set_tiles g s) row col = Ok ideal
    /\ horizontal_estimate row col (set_tiles g s) = (Ok (pos, match_), s1)
    /\ vertical_estimate row col s1 = (Ok (pos2, match2), s2)
    /\ reconcile_spec pos match_ pos2 match2 ideal = Ok p
    /\ grid_get (shifts s') row col = Ok (Some p).
Proof.
  unfold _compute_registration. mstep.
  destruct (previous_missing s row col) as [[|]|] eqn:Hm; mstep; try discriminate.
  destruct (grid_set (tiles s) row col (Some tile)) as [g|] eqn:Hg; mstep; try discriminate.
  destruct (expected_position (set_tiles g s) row col) as [[ox oy]|] eqn:He;
    mstep; try discriminate.
  destruct (horizontal_estimate row col (set_tiles g s)) as [[[pos m]|] s1] eqn:Hh;
    mstep; try discriminate.
  destruct (vertical_estimate row col s1) as [[[pos2 m2]|] s2] eqn:Hv;
    mstep; try discriminate.
  destruct (reconcile pos m pos2 m2 ox oy) as [p|] eqn:Hr; mstep; try discriminate.
  destruct (grid_set (shifts s2) row col (Some p)) as [g2|] eqn:Hg2; mstep; try discriminate.
  intros H. injection H as <-.
  exists g, s1, s2, pos, m, pos2, m2, (ox, oy), p.
  repeat split; try assumption.
  - now rewrite <- reconcile_meets_spec.
  - cbn. exact (grid_get_set _ _ _ _ _ Hg2).
Qed.

End Registration.

Lemma compute_registration_reconciles_witness :
  exists g s1 s2 pos match_ pos2 match2 ideal p,
    grid_set (tiles corner_session) 1 1 (Some corner_tile) = Ok g
    /\ expected_position (set_tiles g corner_session) 1 1 = Ok ideal
    /\ horizontal_estimate (K := no_shift) 1 1 (set_tiles g corner_session)
       = (Ok (pos, match_), s1)
    /\ vertical_estimate (K := no_shift) 1 1 s1 = (Ok (pos2, match2), s2)
    /\ reconcile_spec pos match_ pos2 match2 ideal = Ok p
    /\ grid_get
         (shifts (snd (_compute_registration (K := no_shift) corner_tile 1 1 corner_session)))
         1 1 = Ok (Some p).
Proof.
  apply (@compute_registration_reconciles no_shift corner_tile 1 1 corner_session).
  vm_compute. reflexivity.
Defined.

(** C1, as stated, fails in its aside: the tile added above the tile of
    slot (1, 1) gets the slot (0, 1); [_compute_registration] has neither
    estimate for it and stores the ideal grid position, (3, 0). *)
Lemma neither_estimate_outside_origin :
  let slot := addTile_slot (K := no_shift) top_right_tile None bottom_up_session in
  let out := addTile (K := no_shift) top_right_tile None bottom_up_session in
  fst slot = Ok (0, 1)
  /\ fst out = Ok tt
  /\ (exists g,
        grid_set (tiles (snd slot)) 0 1 (Some top_right_tile) = Ok g
        /\ fst (horizontal_estimate (K := no_shift) 0 1 (set_tiles g (snd slot)))
           = Ok (None, 0%float)
        /\ fst (vertical_estimate (K := no_shift) 0 1 (set_tiles g (snd slot)))
           = Ok (None, 0%float)
        /\ expected_position (set_tiles g (snd slot)) 0 1 = Ok (3, 0))
  /\ grid_get (shifts (snd out)) 0 1 = Ok (Some (3, 0)).
Proof.
  vm_compute. repeat split. eexists. repeat split.
Qed.

(** ** Running a method step by step *)

Lemma bind_get {B} (k : ShiftRegistrar -> M B) (s : ShiftRegistrar) :
  bind get k s = k s s.
Proof. reflexivity. Qed.

Lemma bind_liftR {A B} (r : result A) (k : A -> M B) (s : ShiftRegistrar) :
  bind (liftR r) k s = match r with Ok a => k a s | Raise e => (Raise e, s) end.
Proof. unfold bind, liftR. destruct r; reflexivity. Qed.

Lemma bind_modify {B} (g : ShiftRegistrar -> ShiftRegistrar) (k : unit -> M B)
  (s : ShiftRegistrar) :
  bind (modify g) k s = k tt (g s).
Proof. reflexivity. Qed.

Lemma bind_ret {A B} (a : A) (k : A -> M B) (s : ShiftRegistrar) :
  bind (ret a) k s = k a s.
Proof. reflexivity. Qed.

Lemma bind_cases {A B} (m : M A) (k : A -> M B) (s s' : ShiftRegistrar) (r : result B) :
  bind m k s = (r, s') ->
  (exists a s1, m s = (Ok a, s1) /\ k a s1 = (r, s'))
  \/ (exists e, m s = (Raise e, s') /\ r = Raise e).
Proof.
  unfold bind. destruct (m s) as [[a|e] s1].
  - intros H. left. now exists a, s1.
  - intros H. injection H as <- <-. right. now exists e.
Qed.

(** ** Invariants *)

Lemma maintains_ret {A} I (a : A) : maintains I (ret a).
Proof. intros s r s' Hi H. now inversion H; subst. Qed.
Lemma maintains_raise {A} I (e : exn) : maintains I (@raise A e).
Proof. intros s r s' Hi H. now inversion H; subst. Qed.
Lemma maintains_get I : maintains I get.
Proof. intros s r s' Hi H. now inversion H; subst. Qed.
Lemma maintains_liftR {A} I (r : result A) : maintains I (liftR r).
Proof. intros s r' s' Hi H. now inversion H; subst. Qed.
Lemma maintains_modify I (g : ShiftRegistrar -> ShiftRegistrar) :
  (forall s, I s -> I (g s)) -> maintains I (modify g).
Proof. intros Hg s r s' Hi H. inversion H; subst. now apply Hg. Qed.
Lemma maintains_bind {A B} I (m : M A) (k : A -> M B) :
  maintains I m -> (forall a, maintains I (k a)) -> maintains I (bind m k).
Proof.
  intros Hm Hk s r s' Hi H.
  apply bind_cases in H as [(a & s1 & H1 & H2) | (e & H1 & _)].
  - exact (Hk a s1 r s' (Hm _ _ _ Hi H1) H2).
  - exact (Hm _ _ _ Hi H1).
Qed.
Lemma maintains_for_each {A} I (l : list A) (body : A -> M unit) :
  (forall a, maintains I (body a)) -> maintains I (for_each l body).
Proof.
  intros Hb. induction l as [|a l IH]; cbn.
  - apply maintains_ret.
  - apply maintains_bind; [apply Hb | intros _; exact IH].
Qed.

Lemma established_ext shp s s' :
  size s' = size s -> tiles s' = tiles s -> established shp s -> established shp s'.
Proof. unfold established. intros -> ->. auto. Qed.

Lemma shape_eqb_eq (a b : Z * Z) : shape_eqb a b = true <-> a = b.
Proof.
  unfold shape_eqb. destruct a as [a1 a2], b as [b1 b2]; cbn [fst snd].
  rewrite andb_true_iff, !Z.eqb_eq.
  split; [intros [-> ->]; reflexivity | intros H; injection H as -> ->; split; reflexivity].
Qed.

Lemma py_getitem_0 {A} (l : list A) : py_getitem l 0 = match l with [] => Raise IndexError | a :: _ => Ok a end.
Proof.
  unfold py_getitem, py_norm. destruct l as [|a l]; cbn; [reflexivity|].
  destruct (Pos.of_succ_nat (length l)); reflexivity.
Qed.

Lemma py_setitem_getitem_0 {A} (l l' : list A) (i : Z) (v : A) :
  py_setitem l i v = Ok l' ->
  py_getitem l' 0 = py_getitem l 0
  \/ (py_getitem l' 0 = Ok v /\ py_getitem l i = py_getitem l 0).
Proof.
  unfold py_setitem.
  destruct (py_norm (Z.of_nat (length l)) i) as [n|] eqn:E; [|discriminate].
  intros [= <-]. rewrite !py_getitem_0.
  destruct n as [|n], l as [|a l]; cbn; try (now left).
  right. split; [reflexivity|]. unfold py_getitem. rewrite E. reflexivity.
Qed.

Lemma grid_set_get_00 {A} (g g' : grid A) (r c : Z) (v : option A) :
  grid_set g r c v = Ok g' ->
  grid_get g' 0 0 = grid_get g 0 0 \/ grid_get g' 0 0 = Ok v.
Proof.
  unfold grid_set, grid_get, bindR.
  destruct (py_getitem g r) as [row|] eqn:E1; [|discriminate].
  destruct (py_setitem row c v) as [row'|] eqn:E2; [|discriminate].
  intros H.
  destruct (py_setitem_getitem_0 _ _ _ _ H) as [-> | [-> Hr]]; [now left|].
  rewrite <- Hr, E1.
  destruct (py_setitem_getitem_0 _ _ _ _ E2) as [-> | [-> _]]; [now left | now right].
Qed.

Lemma grid_get_00_app {A} (g : grid A) (row : list (option A)) (v : option A) :
  grid_get g 0 0 = Ok v -> grid_get (g ++ [row]) 0 0 = Ok v.
Proof.
  unfold grid_get, bindR. rewrite !py_getitem_0.
  destruct g as [|r g]; [discriminate|]. cbn. auto.
Qed.

Lemma append_none_get_00 {A} (n : nat) (g g' : grid A) (v : option A) :
  append_none n g = Ok g' -> grid_get g 0 0 = Ok v -> grid_get g' 0 0 = Ok v.
Proof.
  destruct n as [|n]; cbn.
  - now intros [= <-].
  - destruct g as [|r g]; [discriminate|].
    unfold bindR. destruct (append_none n g) as [g''|]; [|discriminate].
    intros [= <-]. unfold grid_get, bindR. rewrite !py_getitem_0.
    destruct r as [|c r]; [discriminate|]. cbn. auto.
Qed.

(** ** More of what methods leave untouched *)

Create HintDb keeps.
#[export] Hint Extern 1 (forall _ _, _ = _) => intros; reflexivity : keeps.
#[export] Hint Extern 1 (forall _, _ = _) => intros; reflexivity : keeps.
#[export] Hint Resolve keeps_ret keeps_raise keeps_get keeps_liftR : keeps.

Ltac frame_rw :=
  intros;
  repeat match goal with
    | H : forall v s, ?f (_ v s) = ?f s |- _ => rewrite H
    end;
  reflexivity.

Ltac keeps_more :=
  repeat first
    [ solve [auto with keeps]
    | keeps_step
    | apply keeps_modify; solve [frame_rw]
    | apply keeps_for_each; intros ? ].

Section MoreFrames.

Context {K : Kernels}.
Context {X : Type} (f : ShiftRegistrar -> X).

Hypothesis f_nx : forall v s, f (set_nx v s) = f s.
Hypothesis f_tiles : forall v s, f (set_tiles v s) = f s.
Hypothesis f_shifts : forall v s, f (set_shifts v s) = f s.
Hypothesis f_coords_hor : forall v s, f (set_coords_hor v s) = f s.
Hypothesis f_coords_ver : forall v s, f (set_coords_ver v s) = f s.
Hypothesis f_ovrlp : forall v s, f (set_ovrlp v s) = f s.
Hypothesis f_osize : forall v s, f (set_osize v s) = f s.
Hypothesis f_tsize : forall v s, f (set_tsize v s) = f s.
Hypothesis f_posX : forall v s, f (set_posX v s) = f s.
Hypothesis f_posY : forall v s, f (set_posY v s) = f s.
Hypothesis f_pos_prev_x : forall v s, f (set_pos_prev_x v s) = f s.
Hypothesis f_size : forall v s, f (set_size v s) = f s.
Hypothesis f_px_size : forall v s, f (set_px_size v s) = f s.
Hypothesis f_deps : forall v s, f (set_shift_tile_dep_tiles v s) = f s.

Lemma keeps_set_overlap (tile : Tile) (p : float * float) (v : bool) :
  keeps f (set_overlap tile p v).
Proof. unfold set_overlap. keeps_more. Qed.

Lemma keeps_updateGrid_x : keeps f _updateGrid_x.
Proof. unfold _updateGrid_x. keeps_more. Qed.

Lemma keeps_updateGrid_y : keeps f _updateGrid_y.
Proof. unfold _updateGrid_y. keeps_more. Qed.

Lemma keeps_store_dependents (tile : Tile) (l : list Tile) :
  keeps f (store_dependents tile l).
Proof. unfold store_dependents, append_to_last. keeps_more. Qed.

Lemma keeps_find_slot (tile : Tile) : keeps f (find_slot tile).
Proof.
  unfold find_slot. keeps_more;
    first [apply keeps_updateGrid_y | apply keeps_updateGrid_x | apply keeps_set_overlap].
Qed.

End MoreFrames.

(** ** The shape of the session *)

#[export] Hint Resolve keeps_pos_to_left_right keeps_pos_to_top keeps_horizontal_estimate
  keeps_vertical_estimate keeps_set_overlap keeps_updateGrid_x keeps_updateGrid_y
  keeps_store_dependents keeps_find_slot : keeps.

(** From the equation of a run, what the method keeps. *)
Ltac by_keeps f H :=
  match goal with
  | |- ?m ?s = (?r, ?s') -> _ =>
      let Hk := fresh "Hk" in
      intros H; assert (Hk : keeps f m) by keeps_more; apply Hk in H; clear Hk
  end.

Lemma keeps_maintains {A X} (f : ShiftRegistrar -> X) (P : X -> Prop) (m : M A) :
  keeps f m -> maintains (fun s => P (f s)) m.
Proof. intros Hk s r s' Hp H. now rewrite (Hk _ _ _ H). Qed.

Lemma py_getitem_last {A} (ds : list A) (x : A) : py_getitem (ds ++ [x]) (-1) = Ok x.
Proof.
  unfold py_getitem, py_norm. rewrite length_app; cbn [length].
  replace (0 <=? -1) with false by reflexivity. cbn [andb].
  replace ((- Z.of_nat (length ds + 1) <=? -1) && (-1 <? 0)) with true
    by (symmetry; apply andb_true_iff; split; [apply Z.leb_le; lia | reflexivity]).
  replace (Z.to_nat (Z.of_nat (length ds + 1) + -1)) with (length ds) by lia.
  rewrite nth_error_app2 by lia. now rewrite Nat.sub_diag.
Qed.

Lemma list_update_last {A} (ds : list A) (x v : A) :
  list_update (length ds) v (ds ++ [x]) = ds ++ [v].
Proof. induction ds as [|d ds IH]; cbn; [reflexivity | now rewrite IH]. Qed.

Lemma py_setitem_last {A} (ds : list A) (x v : A) :
  py_setitem (ds ++ [x]) (-1) v = Ok (ds ++ [v]).
Proof.
  unfold py_setitem, py_norm. rewrite length_app; cbn [length].
  replace (0 <=? -1) with false by reflexivity. cbn [andb].
  replace ((- Z.of_nat (length ds + 1) <=? -1) && (-1 <? 0)) with true
    by (symmetry; apply andb_true_iff; split; [apply Z.leb_le; lia | reflexivity]).
  replace (Z.to_nat (Z.of_nat (length ds + 1) + -1)) with (length ds) by lia.
  now rewrite list_update_last.
Qed.

Section Shape.

Context {K : Kernels}.

Lemma bind_run {A B} (m : M A) (k : A -> M B) (s s1 : ShiftRegistrar) (a : A) :
  m s = (Ok a, s1) -> bind m k s = k a s1.
Proof. unfold bind. now intros ->. Qed.

Lemma bind_run_raise {A B} (m : M A) (k : A -> M B) (s s1 : ShiftRegistrar) (e : exn) :
  m s = (Raise e, s1) -> bind m k s = (Raise e, s1).
Proof. unfold bind. now intros ->. Qed.

Lemma append_to_last_run (sdt : float * float) (s : ShiftRegistrar)
  (ds : list (list (float * float))) (x : list (float * float)) :
  shift_tile_dep_tiles s = ds ++ [x] ->
  append_to_last sdt s = (Ok tt, set_shift_tile_dep_tiles (ds ++ [x ++ [sdt]]) s).
Proof.
  intros Hs. unfold append_to_last.
  rewrite bind_get, Hs, bind_liftR, py_getitem_last, bind_liftR, py_setitem_last.
  reflexivity.
Qed.

(** [store_dependents] returns, having appended the offsets of the
    dependent tiles to the last list. *)
Lemma store_dependents_last (tile : Tile) (l : list Tile) (s : ShiftRegistrar)
  (ds : list (list (float * float))) (x : list (float * float)) :
  shift_tile_dep_tiles s = ds ++ [x] ->
  store_dependents tile l s
  = (Ok tt,
     set_shift_tile_dep_tiles
       (ds ++ [x ++ map (fun dt => np_subtract2 (md_pos dt) (md_pos tile)) l]) s).
Proof.
  unfold store_dependents. revert s x.
  induction l as [|dt l IH]; intros s x Hs; cbn [for_each map].
  - rewrite app_nil_r, <- Hs. destruct s; reflexivity.
  - rewrite (bind_run _ _ _ _ _ (append_to_last_run _ s ds x Hs)).
    rewrite (IH _ (x ++ [np_subtract2 (md_pos dt) (md_pos tile)])) by reflexivity.
    rewrite <- app_assoc. reflexivity.
Qed.

Lemma maintains_updateGrid_x (shp : Z * Z) : maintains (established shp) _updateGrid_x.
Proof.
  intros s r s' (Hsz & t & Hg & Hsh). unfold _updateGrid_x.
  rewrite bind_modify, bind_get, bind_liftR. cbn [tiles set_nx].
  destruct (append_none (length (tiles s)) (tiles s)) as [t'|] eqn:Et.
  - rewrite bind_liftR. cbn [coords_ver set_nx].
    destruct (append_none _ (coords_ver s)); [|intros [= _ <-]; split; [assumption | now exists t]].
    rewrite bind_liftR. cbn [coords_hor set_nx].
    destruct (append_none _ (coords_hor s)); [|intros [= _ <-]; split; [assumption | now exists t]].
    rewrite bind_liftR. cbn [shifts set_nx].
    destruct (append_none _ (shifts s)); [|intros [= _ <-]; split; [assumption | now exists t]].
    intros [= _ <-]. split; [assumption|]. exists t. split; [|assumption].
    cbn. exact (append_none_get_00 _ _ _ _ Et Hg).
  - intros [= _ <-]. split; [assumption | now exists t].
Qed.

Lemma maintains_updateGrid_y (shp : Z * Z) : maintains (established shp) _updateGrid_y.
Proof.
  intros s r s' (Hsz & t & Hg & Hsh). unfold _updateGrid_y, modify.
  intros [= _ <-]. split; [assumption|]. exists t. split; [|assumption].
  cbn. now apply grid_get_00_app.
Qed.

Lemma maintains_established_frame {A} (shp : Z * Z) (m : M A) :
  keeps size m -> keeps tiles m -> maintains (established shp) m.
Proof.
  intros H1 H2 s r s' Hi H.
  exact (established_ext shp s s' (H1 _ _ _ H) (H2 _ _ _ H) Hi).
Qed.

Ltac maintains_step :=
  first
    [ apply maintains_ret
    | apply maintains_raise
    | apply maintains_get
    | apply maintains_liftR
    | apply maintains_updateGrid_x
    | apply maintains_updateGrid_y
    | apply maintains_established_frame; solve [keeps_more]
    | apply maintains_bind; [| intros ?; cbv beta]
    | match goal with
      | |- maintains _ (match ?x with _ => _ end) => destruct x
      end ].

(** [find_slot] on a session whose shape is established. *)
Lemma find_slot_established (shp : Z * Z) (tile : Tile) (s s' : ShiftRegistrar)
  (r : result unit) :
  established shp s ->
  find_slot tile s = (r, s') ->
  established shp s'
  /\ (r = Ok tt -> shape tile = shp)
  /\ (shape tile <> shp -> r = Raise (ValueError TileShapeDiffers) /\ s' = s).
Proof.
  intros Hi. pose proof Hi as (Hsz & t & Hg & Hsh).
  unfold find_slot. rewrite bind_get, bind_liftR, Hg. cbv beta iota.
  destruct (shape_eqb (shape tile) (shape t)) eqn:E; cbn [negb].
  - apply shape_eqb_eq in E. rewrite Hsh in E.
    cbv zeta.
    match goal with
    | |- ?m ?s0 = _ -> _ =>
        assert (Hm : maintains (established shp) m) by (repeat maintains_step)
    end.
    intros H. split; [exact (Hm _ _ _ Hi H)|]. split; [auto | intros Hne; contradiction].
  - unfold raise. intros [= <- <-]. split; [assumption|]. split; [discriminate | auto].
Qed.

(** What [_compute_registration] does to [tiles]: nothing when it raises
    before the tile is stored, and the assignment [tiles[row][col] = tile]
    otherwise. *)
Lemma compute_registration_tiles (tile : Tile) (row col : Z) (s s' : ShiftRegistrar)
  (r : result unit) :
  _compute_registration tile row col s = (r, s') ->
  match previous_missing s row col, grid_set (tiles s) row col (Some tile) with
  | Ok false, Ok g => tiles s' = g
  | _, _ => s' = s
  end.
Proof.
  unfold _compute_registration. rewrite bind_get, bind_liftR.
  destruct (previous_missing s row col) as [[|]|e]; cbv beta iota.
  - unfold raise. now intros [= _ <-].
  - rewrite bind_liftR.
    destruct (grid_set (tiles s) row col (Some tile)) as [g|e]; cbv beta iota.
    + rewrite bind_modify. by_keeps tiles H. exact H.
    + now intros [= _ <-].
  - now intros [= _ <-].
Qed.

Lemma keeps_compute_registration {X} (f : ShiftRegistrar -> X) (tile : Tile) (row col : Z) :
  (forall v s, f (set_tiles v s) = f s) ->
  (forall v s, f (set_shifts v s) = f s) ->
  (forall v s, f (set_acqOrder v s) = f s) ->
  (forall v s, f (set_last_hor v s) = f s) ->
  (forall v s, f (set_last_ver v s) = f s) ->
  (forall v s, f (set_coords_hor v s) = f s) ->
  (forall v s, f (set_coords_ver v s) = f s) ->
  keeps f (_compute_registration tile row col).
Proof. intros. unfold _compute_registration. keeps_more. Qed.

Lemma compute_registration_established (shp : Z * Z) (tile : Tile) (row col : Z) :
  shape tile = shp ->
  maintains (established shp) (_compute_registration tile row col).
Proof.
  intros Hshape s r s' Hi H. pose proof Hi as (Hsz & t & Hg & Hsh).
  assert (Hsize : size s' = size s).
  { revert H. apply keeps_compute_registration; intros; reflexivity. }
  apply compute_registration_tiles in H.
  destruct (previous_missing s row col) as [[|]|e]; try (subst s'; exact Hi).
  destruct (grid_set (tiles s) row col (Some tile)) as [g|e] eqn:Eg; try (subst s'; exact Hi).
  split; [congruence|]. rewrite H.
  destruct (grid_set_get_00 _ _ _ _ _ Eg) as [-> | ->].
  - now exists t.
  - now exists tile.
Qed.

Lemma addTile_slot_established (shp : Z * Z) (tile : Tile) (deps : option (list Tile))
  (s s' : ShiftRegistrar) (r : result (Z * Z)) :
  established shp s ->
  addTile_slot tile deps s = (r, s') ->
  established shp s' /\ (forall rc, r = Ok rc -> shape tile = shp).
Proof.
  intros Hi. unfold addTile_slot. intros H.
  apply bind_cases in H as [(l & s1 & H1 & H) | (e & H1 & ->)].
  2:{ split; [|discriminate]. destruct deps; revert H1.
      - rewrite bind_modify. discriminate.
      - discriminate. }
  assert (Hi1 : established shp s1).
  { destruct deps; revert H1.
    - rewrite bind_modify. intros [= _ <-]. revert Hi. now apply established_ext.
    - now intros [= _ <-]. }
  apply bind_cases in H as [([] & s2 & H2 & H) | (e & H2 & ->)].
  2:{ split; [|discriminate]. exact (proj1 (find_slot_established _ _ _ _ _ Hi1 H2)). }
  destruct (find_slot_established _ _ _ _ _ Hi1 H2) as (Hi2 & Hshape & _).
  specialize (Hshape eq_refl).
  assert (Hm : maintains (established shp)
                 (store_dependents tile l ;;;
                  self <- get ;;
                  row <- liftR (need (posY self)) ;;
                  col <- liftR (need (posX self)) ;;
                  ret (row, col))) by (repeat maintains_step).
  split; [exact (Hm _ _ _ Hi2 H) | auto].
Qed.

(** A call of [addTile] keeps the established shape, whatever it is given
    and whether it returns or raises. *)
Lemma addTile_established (shp : Z * Z) (tile : Tile) (deps : option (list Tile)) :
  maintains (established shp) (addTile tile deps).
Proof.
  intros s r s' Hi. unfold addTile. intros H.
  apply bind_cases in H as [([row col] & s1 & H1 & H) | (e & H1 & ->)].
  - destruct (addTile_slot_established _ _ _ _ _ _ Hi H1) as (Hi1 & Hshape).
    exact (compute_registration_established shp tile row col (Hshape _ eq_refl) _ _ _ Hi1 H).
  - exact (proj1 (addTile_slot_established _ _ _ _ _ _ Hi H1)).
Qed.

Lemma run_established (shp : Z * Z) (calls : list (Tile * option (list Tile)))
  (s : ShiftRegistrar) :
  established shp s -> established shp (run calls s).
Proof.
  revert s. induction calls as [|c calls IH]; intros s Hi; cbn; [assumption|].
  apply IH. destruct (addTile (fst c) (snd c) s) as [r s'] eqn:E.
  exact (addTile_established shp _ _ _ _ _ Hi E).
Qed.

(** The first call returns and establishes the shape of its tile. *)
Lemma first_call_established (first : Tile) (deps : option (list Tile)) :
  established (shape first) (snd (addTile first deps ShiftRegistrar_init)).
Proof.
  set (s0 := match deps with
             | None => ShiftRegistrar_init
             | Some _ => set_shift_tile_dep_tiles [[]] ShiftRegistrar_init
             end).
  set (l := match deps with None => [] | Some l => l end).
  set (s1 := set_pos_prev_x (Some 0) (set_posY (Some 0) (set_posX (Some 0)
               (set_px_size (Some (md_pixel_size first))
                  (set_size (Some (shape first)) s0))))).
  assert (Hs : exists s2, store_dependents first l s1 = (Ok tt, s2)
                          /\ tiles s2 = [[None]] /\ size s2 = Some (shape first)
                          /\ posY s2 = Some 0 /\ posX s2 = Some 0).
  { destruct deps as [l'|]; subst l s1 s0.
    - eexists. split; [apply (store_dependents_last first l' _ [] []); reflexivity|].
      repeat split.
    - eexists. split; [reflexivity|]. repeat split. }
  destruct Hs as (s2 & Hstore & Ht & Hsz & Hy & Hx).
  assert (Hslot : addTile_slot first deps ShiftRegistrar_init = (Ok (0, 0), s2)).
  { unfold addTile_slot.
    assert (Hpre : forall B (k : list Tile -> M B),
               bind (match deps with
                     | None => ret []
                     | Some l0 =>
                         modify (fun s => set_shift_tile_dep_tiles
                                            (shift_tile_dep_tiles s ++ [[]]) s) ;;;
                         ret l0
                     end) k ShiftRegistrar_init = k l s0).
    { intros B k. subst l s0. destruct deps; reflexivity. }
    rewrite Hpre.
    assert (Hfind : find_slot first s0 = (Ok tt, s1)).
    { subst s1 s0. destruct deps; reflexivity. }
    rewrite (bind_run _ _ _ _ _ Hfind), (bind_run _ _ _ _ _ Hstore).
    rewrite bind_get, Hy, Hx. reflexivity. }
  unfold addTile. rewrite (bind_run _ _ _ _ _ Hslot). cbv beta iota.
  destruct (_compute_registration first 0 0 s2) as [r s'] eqn:E. cbn [snd].
  assert (Hsize : size s' = size s2).
  { revert E. apply keeps_compute_registration; intros; reflexivity. }
  apply compute_registration_tiles in E. rewrite Ht in E.
  change (previous_missing s2 0 0) with (@Ok bool false) in E.
  cbn in E.
  split; [congruence|]. exists first. rewrite E. split; reflexivity.
Qed.

(** C6: the first call of a session establishes the shape, which [size]
    holds from then on; every later call with a tile of another shape
    raises the [ValueError] of the shape test and leaves the registrar as
    it was, but for the empty list appended to [shift_tile_dep_tiles] when
    dependent tiles were passed: the four grids, [nx] and [acqOrder] are
    unchanged. *)
Theorem addTile_shape_mismatch (first : Tile) (deps0 : option (list Tile))
  (calls : list (Tile * option (list Tile))) (tile : Tile) (deps : option (list Tile)) :
  shape tile <> shape first ->
  let s := run ((first, deps0) :: calls) ShiftRegistrar_init in
  let out := addTile tile deps s in
  size s = Some (shape first)
  /\ fst out = Raise (ValueError TileShapeDiffers)
  /\ snd out = match deps with
               | None => s
               | Some _ => set_shift_tile_dep_tiles (shift_tile_dep_tiles s ++ [[]]) s
               end
  /\ tiles (snd out) = tiles s /\ shifts (snd out) = shifts s
  /\ coords_hor (snd out) = coords_hor s /\ coords_ver (snd out) = coords_ver s
  /\ nx (snd out) = nx s /\ acqOrder (snd out) = acqOrder s.
Proof.
  intros Hne s out.
  assert (Hi : established (shape first) s).
  { subst s. cbn [run fold_left fst snd]. apply run_established, first_call_established. }
  split; [exact (proj1 Hi)|].
  set (s0 := match deps with
             | None => s
             | Some _ => set_shift_tile_dep_tiles (shift_tile_dep_tiles s ++ [[]]) s
             end).
  assert (Hi0 : established (shape first) s0).
  { subst s0. destruct deps; [revert Hi; now apply established_ext | exact Hi]. }
  assert (Hout : out = (Raise (ValueError TileShapeDiffers), s0)).
  { subst out. unfold addTile, addTile_slot.
    destruct (find_slot tile s0) as [r s1] eqn:Ef.
    destruct (find_slot_established _ _ _ _ _ Hi0 Ef) as (_ & _ & Hr).
    destruct (Hr Hne) as [-> ->].
    apply bind_run_raise.
    assert (Hpre : forall B (k : list Tile -> M B),
               bind (match deps with
                     | None => ret []
                     | Some l0 =>
                         modify (fun s => set_shift_tile_dep_tiles
                                            (shift_tile_dep_tiles s ++ [[]]) s) ;;;
                         ret l0
                     end) k s = k (match deps with None => [] | Some l => l end) s0).
    { intros B k. subst s0. destruct deps; reflexivity. }
    rewrite Hpre. apply bind_run_raise. exact Ef. }
  rewrite Hout. cbn [fst snd]. split; [reflexivity|]. split; [reflexivity|].
  subst s0. destruct deps; repeat split.
Qed.

End Shape.

Lemma addTile_shape_mismatch_witness :
  let s := run (K := no_shift) ((origin_tile, None) :: [(right_tile, None)])
             ShiftRegistrar_init in
  let out := addTile (K := no_shift) stripes_tile (Some [dep_tile]) s in
  size s = Some (shape origin_tile)
  /\ fst out = Raise (ValueError TileShapeDiffers)
  /\ snd out = match Some [dep_tile] with
               | None => s
               | Some _ => set_shift_tile_dep_tiles (shift_tile_dep_tiles s ++ [[]]) s
               end
  /\ tiles (snd out) = tiles s /\ shifts (snd out) = shifts s
  /\ coords_hor (snd out) = coords_hor s /\ coords_ver (snd out) = coords_ver s
  /\ nx (snd out) = nx s /\ acqOrder (snd out) = acqOrder s.
Proof.
  apply (@addTile_shape_mismatch no_shift origin_tile None [(right_tile, None)]
           stripes_tile (Some [dep_tile])).
  vm_compute. discriminate.
Defined.

(** ** Where the ordering error comes from *)

Lemma quiet_bindR {A B} (r : result A) (k : A -> result B) :
  quiet r -> (forall a, quiet (k a)) -> quiet (bindR r k).
Proof.
  unfold quiet. destruct r as [a|e]; cbn; intros Hr Hk; [apply Hk|].
  intros [= ->]. now apply Hr.
Qed.

Ltac quiet_step :=
  first
    [ solve [auto with quiet]
    | apply quiet_bindR; [| intros ?; cbv beta]
    | match goal with
      | |- quiet (Ok _) => discriminate
      | |- quiet (Raise _) => discriminate
      | |- quiet (match ?x with _ => _ end) => destruct x
      end
    | progress cbv zeta ].

Ltac quiet_auto := cbv zeta; repeat quiet_step.

Create HintDb quiet.

Lemma quiet_need {A} (o : option A) : quiet (need o).
Proof. unfold need. quiet_auto. Qed.
Lemma quiet_py_int (f : float) : quiet (py_int f).
Proof. unfold py_int. quiet_auto. Qed.
Lemma quiet_py_div (a b : float) : quiet (py_div a b).
Proof. unfold py_div. quiet_auto. Qed.
Lemma quiet_py_getitem {A} (l : list A) (i : Z) : quiet (py_getitem l i).
Proof. unfold py_getitem. quiet_auto. Qed.
Lemma quiet_py_setitem {A} (l : list A) (i : Z) (v : A) : quiet (py_setitem l i v).
Proof. unfold py_setitem. quiet_auto. Qed.
#[export] Hint Resolve quiet_need quiet_py_int quiet_py_div quiet_py_getitem quiet_py_setitem : quiet.

Lemma quiet_grid_get {A} (g : grid A) (r c : Z) : quiet (grid_get g r c).
Proof. unfold grid_get. quiet_auto. Qed.
Lemma quiet_grid_set {A} (g : grid A) (r c : Z) (v : option A) : quiet (grid_set g r c v).
Proof. unfold grid_set. quiet_auto. apply quiet_py_setitem. Qed.
#[export] Hint Resolve quiet_grid_get quiet_grid_set : quiet.

Lemma quiet_append_none {A} (n : nat) (g : grid A) : quiet (append_none n g).
Proof.
  revert g. induction n as [|n IH]; intros [|r g]; cbn; try discriminate.
  apply quiet_bindR; [apply IH | discriminate].
Qed.

Lemma quiet_comprehension {A} (f : Z -> result (option A)) (l : list Z) :
  (forall i, quiet (f i)) -> quiet (comprehension f l).
Proof.
  intros Hf. induction l as [|i l IH]; cbn; [discriminate|].
  apply quiet_bindR; [apply Hf | intros c].
  apply quiet_bindR; [apply IH | discriminate].
Qed.

Lemma quiet_mean_shift (row col : Z) (g : grid (Z * Z)) : quiet (_mean_shift row col g).
Proof.
  unfold _mean_shift.
  apply quiet_bindR; [apply quiet_comprehension; intros; apply quiet_grid_get | intros a].
  apply quiet_bindR; [apply quiet_comprehension; intros; apply quiet_grid_get | intros b].
  quiet_auto.
Qed.

Lemma quiet_mean_or_last (row col : Z) (g : grid (Z * Z)) (last : Z * Z) :
  quiet (mean_or_last row col g last).
Proof.
  unfold mean_or_last.
  destruct (_mean_shift row col g) as [a|[m| | | | | |]]; discriminate.
Qed.

Lemma quiet_reconcile pos m pos2 m2 ox oy : quiet (reconcile pos m pos2 m2 ox oy).
Proof. unfold reconcile, truncated_mean. quiet_auto. Qed.

Lemma quiet_previous_missing s row col : quiet (previous_missing s row col).
Proof. unfold previous_missing. quiet_auto. Qed.

Lemma quiet_is_filled {A} (g : grid A) r c : quiet (is_filled g r c).
Proof. unfold is_filled. quiet_auto. Qed.

Lemma quiet_expected_position s row col : quiet (expected_position s row col).
Proof. unfold expected_position. quiet_auto. Qed.

Lemma quiet_estimateROI s shift : quiet (_estimateROI s shift).
Proof. unfold _estimateROI. quiet_auto. Qed.
#[export] Hint Resolve quiet_append_none quiet_mean_or_last quiet_reconcile
  quiet_previous_missing quiet_is_filled quiet_expected_position quiet_estimateROI : quiet.

Section Quiet.
Context {K : Kernels}.

Lemma quiet_estimateMatch s a b shift : quiet (_estimateMatch s a b shift).
Proof. unfold _estimateMatch. quiet_auto. Qed.
Lemma quiet_get_shift s a b shift : quiet (_get_shift s a b shift).
Proof. unfold _get_shift. quiet_auto. Qed.
Hint Resolve quiet_estimateMatch quiet_get_shift : quiet.

Lemma quiet_fallback s a b e mean xy m : quiet (fallback s a b e mean xy m).
Proof. unfold fallback. quiet_auto. Qed.

Lemma quiet_closest_fold g pos idx acc :
  quiet acc -> quiet (fold_left (closest_step g pos) idx acc).
Proof.
  revert acc. induction idx as [|ij idx IH]; intros acc Ha; cbn; [assumption|].
  apply IH. unfold closest_step. quiet_auto.
Qed.

Lemma quiet_find_closest_tile s pos : quiet (_find_closest_tile s pos).
Proof.
  unfold _find_closest_tile.
  apply quiet_bindR; [apply quiet_closest_fold; discriminate | intros a].
  quiet_auto.
Qed.

End Quiet.

Lemma quietM_ret {A} (a : A) : quietM (ret a).
Proof. intros s s'. discriminate. Qed.
Lemma quietM_get : quietM get.
Proof. intros s s'. discriminate. Qed.
Lemma quietM_modify (g : ShiftRegistrar -> ShiftRegistrar) : quietM (modify g).
Proof. intros s s'. discriminate. Qed.
Lemma quietM_liftR {A} (r : result A) : quiet r -> quietM (liftR r).
Proof. intros Hr s s' [= H _]. exact (Hr H). Qed.
Lemma quietM_raise {A} (e : exn) :
  e <> ValueError PreviousNotStitched -> quietM (@raise A e).
Proof. intros He s s' [= H _]. exact (He H). Qed.
Lemma quietM_bind {A B} (m : M A) (k : A -> M B) :
  quietM m -> (forall a, quietM (k a)) -> quietM (bind m k).
Proof.
  intros Hm Hk s s' H.
  apply bind_cases in H as [(a & s1 & _ & H) | (e & H & [= <-])].
  - exact (Hk a _ _ H).
  - exact (Hm _ _ H).
Qed.
Lemma quietM_for_each {A} (l : list A) (body : A -> M unit) :
  (forall a, quietM (body a)) -> quietM (for_each l body).
Proof.
  intros Hb. induction l as [|a l IH]; cbn.
  - apply quietM_ret.
  - apply quietM_bind; [apply Hb | intros _; exact IH].
Qed.

Create HintDb quietM.

Ltac quietM_step :=
  first
    [ solve [auto with quietM]
    | apply quietM_ret
    | apply quietM_get
    | apply quietM_modify
    | apply quietM_raise; discriminate
    | apply quietM_liftR; solve [quiet_auto]
    | apply quietM_bind; [| intros ?; cbv beta]
    | apply quietM_for_each; intros ?
    | match goal with
      | |- quietM (match ?x with _ => _ end) => destruct x
      end
    | progress cbv zeta ].

Ltac quietM_auto := repeat quietM_step.

Section QuietMethods.
Context {K : Kernels}.

Hint Resolve quiet_estimateMatch quiet_get_shift quiet_fallback quiet_find_closest_tile : quiet.

Lemma quietM_updateGrid_x : quietM _updateGrid_x.
Proof. unfold _updateGrid_x. quietM_auto. Qed.
Lemma quietM_updateGrid_y : quietM _updateGrid_y.
Proof. unfold _updateGrid_y. quietM_auto. Qed.
Lemma quietM_set_overlap tile p v : quietM (set_overlap tile p v).
Proof. unfold set_overlap. quietM_auto. Qed.
Hint Resolve quietM_updateGrid_x quietM_updateGrid_y quietM_set_overlap : quietM.

Lemma quietM_find_slot tile : quietM (find_slot tile).
Proof. unfold find_slot. quietM_auto. Qed.
Lemma quietM_store_dependents tile l : quietM (store_dependents tile l).
Proof. unfold store_dependents, append_to_last. quietM_auto. Qed.
Hint Resolve quietM_find_slot quietM_store_dependents : quietM.

Lemma quietM_addTile_slot tile deps : quietM (addTile_slot tile deps).
Proof. unfold addTile_slot. quietM_auto. Qed.

Lemma quietM_pos_to_left_right row col xdir : quietM (_pos_to_left_right row col xdir).
Proof. unfold _pos_to_left_right. quietM_auto. Qed.
Lemma quietM_pos_to_top row col : quietM (_pos_to_top row col).
Proof. unfold _pos_to_top. quietM_auto. Qed.
Hint Resolve quietM_pos_to_left_right quietM_pos_to_top : quietM.

Lemma quietM_horizontal_estimate row col : quietM (horizontal_estimate row col).
Proof. unfold horizontal_estimate. quietM_auto. Qed.
Lemma quietM_vertical_estimate row col : quietM (vertical_estimate row col).
Proof. unfold vertical_estimate. quietM_auto. Qed.
Hint Resolve quietM_horizontal_estimate quietM_vertical_estimate : quietM.

(** The test that opens [_compute_registration] is true exactly for a slot
    with a row above and a column to the left whose two neighbours are
    both empty. *)
Lemma previous_missing_true (s : ShiftRegistrar) (row col : Z) :
  previous_missing s row col = Ok true
  <-> 1 <= row /\ 1 <= col
      /\ grid_get (tiles s) (row - 1) col = Ok None
      /\ grid_get (tiles s) row (col - 1) = Ok None.
Proof.
  unfold previous_missing.
  destruct (1 <=? row) eqn:Er; cbn [bindR].
  - destruct (grid_get (tiles s) (row - 1) col) as [[t|]|e]; cbn [bindR].
    + split; [discriminate | intros (_ & _ & H & _); discriminate].
    + destruct (1 <=? col) eqn:Ec.
      * destruct (grid_get (tiles s) row (col - 1)) as [[t|]|e]; cbn [bindR].
        -- split; [discriminate | intros (_ & _ & _ & H); discriminate].
        -- split; [intros _ | reflexivity]. repeat split; lia.
        -- split; [discriminate | intros (_ & _ & _ & H); discriminate].
      * split; [discriminate | intros (_ & H & _); lia].
    + split; [discriminate | intros (_ & _ & H & _); discriminate].
  - split; [discriminate | intros (H & _); lia].
Qed.

(** [_compute_registration] raises the ordering error exactly when that
    test is true, and then the registrar is as it was. *)
Lemma compute_registration_ordering (tile : Tile) (row col : Z) (s s' : ShiftRegistrar) :
  _compute_registration tile row col s = (Raise (ValueError PreviousNotStitched), s')
  <-> previous_missing s row col = Ok true /\ s' = s.
Proof.
  unfold _compute_registration. rewrite bind_get, bind_liftR.
  pose proof (quiet_previous_missing s row col) as Hq.
  destruct (previous_missing s row col) as [[|]|e]; cbv beta iota.
  - unfold raise. split; [intros [= <-]; auto | intros [_ ->]; reflexivity].
  - split; [|intros [H _]; discriminate].
    intros H. exfalso. revert H.
    match goal with |- ?m ?s0 = _ -> _ => assert (Hm : quietM m) by quietM_auto end.
    apply Hm.
  - split; [|intros [H _]; discriminate].
    intros [= -> _]. now elim Hq.
Qed.

End QuietMethods.

(** ** The closest tile and the growth of the grid *)

Lemma py_getitem_nonneg {A} (l : list A) (i : Z) (a : A) :
  0 <= i -> (py_getitem l i = Ok a <-> nth_error l (Z.to_nat i) = Some a).
Proof.
  intros Hi. unfold py_getitem, py_norm.
  replace (0 <=? i) with true by (symmetry; apply Z.leb_le; exact Hi). cbn [andb].
  destruct (i <? Z.of_nat (length l)) eqn:E.
  - destruct (nth_error l (Z.to_nat i)); split; congruence.
  - replace (i <? 0) with false by (symmetry; apply Z.ltb_ge; exact Hi).
    rewrite andb_false_r. apply Z.ltb_ge in E.
    split; [discriminate|]. intros H.
    assert (Z.to_nat i < length l)%nat by (apply nth_error_Some; congruence). lia.
Qed.

Lemma grid_get_nonneg {A} (g : grid A) (i j : Z) (v : option A) :
  0 <= i -> 0 <= j ->
  (grid_get g i j = Ok v
   <-> exists row, nth_error g (Z.to_nat i) = Some row
                   /\ nth_error row (Z.to_nat j) = Some v).
Proof.
  intros Hi Hj. unfold grid_get, bindR. split.
  - destruct (py_getitem g i) as [row|] eqn:E; [|discriminate].
    intros H. exists row. split; [now apply py_getitem_nonneg in E | now apply py_getitem_nonneg in H].
  - intros (row & H1 & H2).
    apply (py_getitem_nonneg g i row Hi) in H1. rewrite H1.
    now apply py_getitem_nonneg.
Qed.

Lemma grid_get_app {A} (g : grid A) (r : list (option A)) (i j : Z) (v : option A) :
  0 <= i -> 0 <= j -> grid_get g i j = Ok v -> grid_get (g ++ [r]) i j = Ok v.
Proof.
  intros Hi Hj H. apply grid_get_nonneg in H as (row & H1 & H2); try assumption.
  apply grid_get_nonneg; try assumption. exists row. split; [|assumption].
  rewrite nth_error_app1; [assumption|]. apply nth_error_Some. congruence.
Qed.

Lemma append_none_nth {A} (n : nat) (g g' : grid A) (k : nat) (row : list (option A)) :
  append_none n g = Ok g' -> nth_error g k = Some row ->
  nth_error g' k = Some row \/ nth_error g' k = Some (row ++ [None]).
Proof.
  revert g g' k. induction n as [|n IH]; intros g g' k; cbn.
  - intros [= <-]. auto.
  - destruct g as [|r g]; [discriminate|]. unfold bindR.
    destruct (append_none n g) as [g''|] eqn:E; [|discriminate].
    intros [= <-]. destruct k as [|k]; cbn.
    + intros [= <-]. auto.
    + intros H. exact (IH _ _ _ E H).
Qed.

Lemma grid_get_append_none {A} (n : nat) (g g' : grid A) (i j : Z) (v : option A) :
  append_none n g = Ok g' -> 0 <= i -> 0 <= j ->
  grid_get g i j = Ok v -> grid_get g' i j = Ok v.
Proof.
  intros Ha Hi Hj H. apply grid_get_nonneg in H as (row & H1 & H2); try assumption.
  apply grid_get_nonneg; try assumption.
  destruct (append_none_nth _ _ _ _ _ Ha H1) as [H | H].
  - now exists row.
  - exists (row ++ [None]). split; [assumption|].
    rewrite nth_error_app1; [assumption|]. apply nth_error_Some. congruence.
Qed.

Lemma fold_left_invariant {A B} (P : A -> Prop) (f : A -> B -> A) (l : list B) (a : A) :
  (forall acc x, In x l -> P acc -> P (f acc x)) -> P a -> P (fold_left f l a).
Proof.
  revert a. induction l as [|x l IH]; intros a Hf Ha; cbn; [assumption|].
  apply IH.
  - intros acc y Hy. apply Hf. now right.
  - apply Hf; [now left | assumption].
Qed.

Lemma in_py_range (lo hi k : Z) : In k (py_range lo hi) -> lo <= k.
Proof.
  unfold py_range. rewrite in_map_iff. intros (n & <- & _). lia.
Qed.

Section Closest.
Context {K : Kernels}.

(** The slot [_find_closest_tile] answers is a filled slot, named by
    indices that are not negative. *)
Lemma find_closest_tile_filled (s : ShiftRegistrar) (pos : float * float)
  (i j : Z) (p : float * float) :
  _find_closest_tile s pos = Ok ((i, j), p) ->
  0 <= i /\ 0 <= j /\ exists t, grid_get (tiles s) i j = Ok (Some t).
Proof.
  unfold _find_closest_tile.
  set (idx := list_prod _ _).
  set (P := fun acc : result (float * option ((Z * Z) * (float * float))) =>
              forall d ij q, acc = Ok (d, Some (ij, q)) ->
                0 <= fst ij /\ 0 <= snd ij
                /\ exists t, grid_get (tiles s) (fst ij) (snd ij) = Ok (Some t)).
  assert (HP : P (fold_left (closest_step (tiles s) pos) idx (Ok (infinity, None)))).
  { apply fold_left_invariant; [|intros d ij q; discriminate].
    intros acc [a b] Hin Hacc d ij q. unfold P in Hacc. unfold closest_step.
    destruct acc as [[minDist found]|e]; cbn [bindR fst snd]; [|discriminate].
    destruct (grid_get (tiles s) a b) as [[t|]|e] eqn:Eg; cbn [bindR fst snd];
      [| apply Hacc | discriminate].
    destruct (_ <? minDist)%float; [|apply Hacc].
    intros [= _ <- _]. cbn [fst snd].
    subst idx. apply in_prod_iff in Hin as [Ha Hb].
    apply in_py_range in Ha, Hb. repeat split; try assumption. now exists t. }
  destruct (fold_left _ idx _) as [[d [[ij q]|]]|e] eqn:E; cbn [bindR]; try discriminate.
  intros [= -> ->]. exact (HP d (i, j) p eq_refl).
Qed.

End Closest.

Section Growth.
Context {K : Kernels}.

(** When the slot found for a tile fails the ordering test, the tile was
    placed above or left of its closest tile, and the grid did not grow. *)
Lemma find_slot_no_growth (tile : Tile) (s s1 : ShiftRegistrar) (row col : Z) :
  find_slot tile s = (Ok tt, s1) ->
  posY s1 = Some row -> posX s1 = Some col ->
  previous_missing s1 row col = Ok true ->
  same_grids s s1.
Proof.
  unfold find_slot. rewrite bind_get, bind_liftR.
  destruct (grid_get (tiles s) 0 0) as [[first|]|e] eqn:E0; cbv beta iota.
  - destruct (negb (shape_eqb (shape tile) (shape first))); [discriminate|].
    cbv zeta. rewrite bind_liftR.
    destruct (_find_closest_tile s (md_pos tile)) as [[[i j] p]|e] eqn:Ec; [|discriminate].
    cbv beta iota. cbn [fst snd].
    destruct (find_closest_tile_filled _ _ _ _ _ Ec) as (Hi & Hj & t & Hg).
    intros H Hy Hx Hm.
    apply bind_cases in H as [([] & sA & HA & H) | (e & _ & [=])].
    assert (Ht : tiles s1 = tiles sA) by (revert H; by_keeps tiles H'; exact H').
    assert (Hs : shifts s1 = shifts sA) by (revert H; by_keeps shifts H'; exact H').
    assert (Hh : coords_hor s1 = coords_hor sA) by (revert H; by_keeps coords_hor H'; exact H').
    assert (Hv : coords_ver s1 = coords_ver sA) by (revert H; by_keeps coords_ver H'; exact H').
    assert (Hn : nx s1 = nx sA) by (revert H; by_keeps nx H'; exact H').
    assert (HY : posY s1 = posY sA) by (revert H; by_keeps posY H'; exact H').
    assert (HX : posX s1 = posX sA) by (revert H; by_keeps posX H'; exact H').
    clear H. apply previous_missing_true in Hm as (Hr & Hc & Habove & Hleft).
    rewrite Ht in Habove, Hleft. rewrite HY in Hy. rewrite HX in Hx.
    unfold same_grids. rewrite Ht, Hs, Hh, Hv, Hn. clear Ht Hs Hh Hv Hn HY HX.
    destruct (PrimFloat.abs _ <? PrimFloat.abs _)%float.
    + destruct (_ <? 0)%float.
      * exfalso. rewrite bind_modify, bind_get in HA.
        cbn [shifts set_posX set_posY] in HA.
        destruct (Z.of_nat (length (shifts s)) <=? i + 1);
          injection HA as <-; cbn in Hy, Hx, Habove;
          injection Hy as <-; injection Hx as <-;
          replace (i + 1 - 1) with i in Habove by lia.
        -- rewrite (grid_get_app _ _ _ _ _ Hi Hj Hg) in Habove. discriminate.
        -- rewrite Hg in Habove. discriminate.
      * injection HA as <-. repeat split.
    + destruct (0 <? _)%float.
      * exfalso. rewrite bind_modify, bind_get, bind_liftR in HA.
        cbn [shifts set_posX set_posY] in HA.
        destruct (py_getitem (shifts s) 0) as [row0|]; [|discriminate].
        destruct (Z.of_nat (length row0) <=? j + 1).
        -- unfold _updateGrid_x in HA.
           rewrite bind_modify, bind_get, bind_liftR in HA.
           cbn [tiles coords_ver coords_hor shifts set_nx set_posX set_posY] in HA.
           destruct (append_none (length (tiles s)) (tiles s)) as [t'|] eqn:Et; [|discriminate].
           rewrite bind_liftR in HA.
           destruct (append_none _ (coords_ver s)); [|discriminate].
           rewrite bind_liftR in HA.
           destruct (append_none _ (coords_hor s)); [|discriminate].
           rewrite bind_liftR in HA.
           destruct (append_none _ (shifts s)); [|discriminate].
           injection HA as <-. cbn in Hy, Hx, Hleft.
           injection Hy as <-; injection Hx as <-.
           replace (j + 1 - 1) with j in Hleft by lia.
           rewrite (grid_get_append_none _ _ _ _ _ _ Et Hi Hj Hg) in Hleft. discriminate.
        -- injection HA as <-. cbn in Hy, Hx, Hleft.
           injection Hy as <-; injection Hx as <-.
           replace (j + 1 - 1) with j in Hleft by lia.
           rewrite Hg in Hleft. discriminate.
      * injection HA as <-. repeat split.
  - intros [= <-]. cbn. intros [= <-] _ Hm.
    apply previous_missing_true in Hm. lia.
  - discriminate.
Qed.

Lemma previous_missing_ext (s s' : ShiftRegistrar) (row col : Z) :
  tiles s' = tiles s -> previous_missing s' row col = previous_missing s row col.
Proof. unfold previous_missing. now intros ->. Qed.

Lemma keeps_addTile_slot {X} (f : ShiftRegistrar -> X) (tile : Tile)
  (deps : option (list Tile)) :
  (forall v s, f (set_shift_tile_dep_tiles v s) = f s) ->
  keeps f (find_slot tile) ->
  keeps f (addTile_slot tile deps).
Proof. intros Hf Hfind. unfold addTile_slot. keeps_more. Qed.

Lemma addTile_slot_no_growth (tile : Tile) (deps : option (list Tile))
  (s s1 : ShiftRegistrar) (row col : Z) :
  addTile_slot tile deps s = (Ok (row, col), s1) ->
  previous_missing s1 row col = Ok true ->
  same_grids s s1.
Proof.
  unfold addTile_slot. intros H Hm.
  apply bind_cases in H as [(l & s0 & H0 & H) | (e & _ & [=])].
  assert (G0 : same_grids s s0).
  { unfold same_grids.
    repeat split; revert H0;
      match goal with |- _ -> ?f _ = _ => by_keeps f H'; exact H' end. }
  apply bind_cases in H as [([] & sF & HF & H) | (e & _ & [=])].
  apply bind_cases in H as [([] & sD & HD & H) | (e & _ & [=])].
  rewrite bind_get, bind_liftR in H.
  destruct (posY sD) as [y|] eqn:Ey; [|discriminate]. cbn [need] in H.
  rewrite bind_liftR in H.
  destruct (posX sD) as [x|] eqn:Ex; [|discriminate]. cbn [need] in H.
  injection H as <- <- <-.
  assert (Ht : tiles sD = tiles sF) by (revert HD; by_keeps tiles H'; exact H').
  assert (Hs : shifts sD = shifts sF) by (revert HD; by_keeps shifts H'; exact H').
  assert (Hh : coords_hor sD = coords_hor sF) by (revert HD; by_keeps coords_hor H'; exact H').
  assert (Hv : coords_ver sD = coords_ver sF) by (revert HD; by_keeps coords_ver H'; exact H').
  assert (Hn : nx sD = nx sF) by (revert HD; by_keeps nx H'; exact H').
  assert (HY : posY sD = posY sF) by (revert HD; by_keeps posY H'; exact H').
  assert (HX : posX sD = posX sF) by (revert HD; by_keeps posX H'; exact H').
  rewrite (previous_missing_ext sF sD _ _ Ht) in Hm.
  rewrite HY in Ey. rewrite HX in Ex.
  destruct (find_slot_no_growth _ _ _ _ _ HF Ey Ex Hm) as (T & S & Hc & Vc & N).
  destruct G0 as (T0 & S0 & H0' & V0 & N0).
  unfold same_grids. repeat split; congruence.
Qed.

(** C5: [addTile] raises the [ValueError] of the ordering test exactly when
    the slot computed for the tile has a row above it and a column left of
    it, and the slot above and the slot to the left are both empty.  The
    registrar is then as the computation of the slot left it: the grids
    have not grown, no tile and no position are stored, [acqOrder] is not
    extended. *)
Theorem addTile_ordering_error (tile : Tile) (deps : option (list Tile))
  (s : ShiftRegistrar) :
  let out := addTile tile deps s in
  (fst out = Raise (ValueError PreviousNotStitched)
   <-> exists row col s1,
         addTile_slot tile deps s = (Ok (row, col), s1)
         /\ 1 <= row /\ 1 <= col
         /\ grid_get (tiles s1) (row - 1) col = Ok None
         /\ grid_get (tiles s1) row (col - 1) = Ok None)
  /\ (fst out = Raise (ValueError PreviousNotStitched) ->
      same_grids s (snd out) /\ acqOrder (snd out) = acqOrder s).
Proof.
  intros out. subst out. unfold addTile.
  destruct (addTile_slot tile deps s) as [[[row col]|e] s1] eqn:Es.
  - rewrite (bind_run _ _ _ _ _ Es). cbv beta iota.
    destruct (_compute_registration tile row col s1) as [r s'] eqn:Ec. cbn [fst snd].
    assert (Hiff : r = Raise (ValueError PreviousNotStitched)
                   <-> previous_missing s1 row col = Ok true /\ s' = s1).
    { rewrite <- compute_registration_ordering, Ec.
      split; [now intros -> | now intros [= ->]]. }
    split.
    + rewrite Hiff. split.
      * intros [Hm _]. exists row, col, s1. split; [reflexivity|].
        now apply previous_missing_true.
      * intros (row' & col' & s1' & [= <- <- <-] & Hrest).
        apply previous_missing_true in Hrest.
        split; [assumption|].
        pose proof (proj2 (compute_registration_ordering tile row col s1 s1)
                      (conj Hrest eq_refl)) as Hc.
        rewrite Hc in Ec. now injection Ec as _ <-.
    + intros Hr. apply Hiff in Hr as [Hm ->].
      split; [exact (addTile_slot_no_growth _ _ _ _ _ _ Es Hm)|].
      revert Es. apply keeps_addTile_slot; [reflexivity|].
      apply keeps_find_slot; reflexivity.
  - rewrite (bind_run_raise _ _ _ _ _ Es). cbn [fst snd].
    assert (He : e <> ValueError PreviousNotStitched).
    { intros ->. exact (quietM_addTile_slot _ _ _ _ Es). }
    split.
    + split; [intros [= H]; contradiction | intros (? & ? & ? & [=] & _)].
    + intros [= H]; contradiction.
Qed.

End Growth.

(** On the staircase session the tile left of slot (2, 2) gets slot
    (2, 1), whose neighbours (1, 1) and (2, 0) are empty. *)
Lemma addTile_ordering_error_example :
  addTile_slot (K := no_shift) skipped_tile None staircase_session
  = (Ok (2, 1), snd (addTile_slot (K := no_shift) skipped_tile None staircase_session))
  /\ fst (addTile (K := no_shift) skipped_tile None staircase_session)
     = Raise (ValueError PreviousNotStitched).
Proof. vm_compute. split; reflexivity. Qed.

Lemma addTile_ordering_error_witness :
  same_grids staircase_session
    (snd (addTile (K := no_shift) skipped_tile None staircase_session))
  /\ acqOrder (snd (addTile (K := no_shift) skipped_tile None staircase_session))
     = acqOrder staircase_session.
Proof.
  apply (proj2 (@addTile_ordering_error no_shift skipped_tile None staircase_session)).
  vm_compute. reflexivity.
Defined.

(** ** Dependent tiles, in a session without exception *)

Section Dependents.
Context {K : Kernels}.

Lemma compute_registration_acqOrder (tile : Tile) (row col : Z) (s s' : ShiftRegistrar) :
  _compute_registration tile row col s = (Ok tt, s') ->
  acqOrder s' = acqOrder s ++ [(row, col)].
Proof.
  unfold _compute_registration. mstep.
  destruct (previous_missing s row col) as [[|]|] eqn:Hm; mstep; try discriminate.
  destruct (grid_set (tiles s) row col (Some tile)) as [g|] eqn:Hg; mstep; try discriminate.
  destruct (expected_position (set_tiles g s) row col) as [[ox oy]|] eqn:He;
    mstep; try discriminate.
  destruct (horizontal_estimate row col (set_tiles g s)) as [[[pos m]|] s1] eqn:Hh;
    mstep; try discriminate.
  destruct (vertical_estimate row col s1) as [[[pos2 m2]|] s2] eqn:Hv;
    mstep; try discriminate.
  destruct (reconcile pos m pos2 m2 ox oy) as [p|] eqn:Hr; mstep; try discriminate.
  destruct (grid_set (shifts s2) row col (Some p)) as [g2|] eqn:Hg2; mstep; try discriminate.
  intros H. injection H as <-. cbn.
  apply (keeps_vertical_estimate acqOrder) in Hv; try (intros; reflexivity).
  apply (keeps_horizontal_estimate acqOrder) in Hh; try (intros; reflexivity).
  now rewrite Hv, Hh.
Qed.

(** A call that returns extends [acqOrder] by the slot of the tile, and
    [shift_tile_dep_tiles] by the offsets of the dependent tiles when a
    list was passed, and by nothing when [None] was. *)
Lemma addTile_returns (tile : Tile) (deps : option (list Tile)) (s s' : ShiftRegistrar) :
  addTile tile deps s = (Ok tt, s') ->
  (exists slot, acqOrder s' = acqOrder s ++ [slot])
  /\ shift_tile_dep_tiles s'
     = shift_tile_dep_tiles s
       ++ match deps with Some l => [offsets_of tile l] | None => [] end.
Proof.
  unfold addTile. intros H.
  apply bind_cases in H as [([row col] & s1 & Hslot & H) | (e & _ & [=])].
  pose proof (compute_registration_acqOrder _ _ _ _ _ H) as Hacq.
  assert (Hdep : shift_tile_dep_tiles s' = shift_tile_dep_tiles s1).
  { revert H. apply keeps_compute_registration; intros; reflexivity. }
  assert (Hacq1 : acqOrder s1 = acqOrder s).
  { revert Hslot. apply keeps_addTile_slot; [reflexivity|].
    apply keeps_find_slot; reflexivity. }
  split; [exists (row, col); congruence|].
  rewrite Hdep. clear H Hacq Hdep Hacq1 s'.
  unfold addTile_slot in Hslot.
  apply bind_cases in Hslot as [(l & s0 & H0 & H) | (e & _ & [=])].
  apply bind_cases in H as [([] & sF & HF & H) | (e & _ & [=])].
  apply bind_cases in H as [([] & sD & HD & H) | (e & _ & [=])].
  assert (Hs1 : shift_tile_dep_tiles s1 = shift_tile_dep_tiles sD)
    by (revert H; by_keeps shift_tile_dep_tiles H'; exact H').
  assert (HsF : shift_tile_dep_tiles sF = shift_tile_dep_tiles s0).
  { revert HF. apply keeps_find_slot; reflexivity. }
  rewrite Hs1. destruct deps as [l'|].
  - rewrite bind_modify in H0. injection H0 as <- <-.
    cbn [shift_tile_dep_tiles set_shift_tile_dep_tiles] in HsF.
    rewrite (store_dependents_last tile _ sF _ [] HsF) in HD.
    injection HD as <-. reflexivity.
  - injection H0 as <- <-. cbn in HD. injection HD as <-.
    now rewrite HsF, app_nil_r.
Qed.

Lemma run_strict_lists (calls : list (Tile * option (list Tile))) (s s' : ShiftRegistrar) :
  run_strict calls s = Ok s' ->
  length (acqOrder s') = (length (acqOrder s) + length calls)%nat
  /\ shift_tile_dep_tiles s' = shift_tile_dep_tiles s ++ stored_offsets calls.
Proof.
  revert s. induction calls as [|c calls IH]; intros s; cbn [run_strict].
  - intros [= <-]. cbn. now rewrite Nat.add_0_r, app_nil_r.
  - destruct (addTile (fst c) (snd c) s) as [[[]|e] s1] eqn:E; [|discriminate].
    intros H. destruct (IH _ H) as [Hl Hd].
    destruct (addTile_returns _ _ _ _ E) as [[slot Ha] Hs].
    rewrite Hl, Hd, Ha, Hs, length_app. cbn [length stored_offsets flat_map].
    split; [lia|]. now rewrite <- app_assoc.
Qed.

Lemma map_result_length {A B} (f : A -> result B) (l : list A) (l' : list B) :
  map_result f l = Ok l' -> length l' = length l.
Proof.
  revert l'. induction l as [|a l IH]; intros l'; cbn.
  - now intros [= <-].
  - destruct (f a) as [b|]; [|discriminate]. cbn.
    destruct (map_result f l) as [bs|]; [|discriminate]. cbn.
    intros [= <-]. cbn. now rewrite (IH bs).
Qed.

Lemma nth_error_combine_some {A B} (la : list A) (lb : list B) (i : nat) (a : A) (b : B) :
  nth_error la i = Some a -> nth_error lb i = Some b ->
  nth_error (combine la lb) i = Some (a, b).
Proof.
  revert lb i. induction la as [|x la IH]; intros [|y lb] [|i]; cbn; try discriminate.
  - now intros [= ->] [= ->].
  - apply IH.
Qed.

Lemma stored_offsets_all (calls : list (Tile * option (list Tile))) :
  (forall c, In c calls -> snd c <> None) ->
  length (stored_offsets calls) = length calls
  /\ forall i t l, nth_error calls i = Some (t, Some l) ->
       nth_error (stored_offsets calls) i = Some (offsets_of t l).
Proof.
  induction calls as [|[t0 [l0|]] calls IH]; intros Hall.
  - split; [reflexivity | intros [|i]; discriminate].
  - destruct IH as [IHl IHn]; [intros c Hc; apply Hall; now right|].
    change (stored_offsets ((t0, Some l0) :: calls))
      with (offsets_of t0 l0 :: stored_offsets calls).
    split; [cbn [length]; now rewrite IHl|].
    intros [|i] t l; cbn [nth_error].
    + now intros [= -> ->].
    + apply IHn.
  - exfalso. apply (Hall (t0, None)); [now left | reflexivity].
Qed.

(** The two lists of [getPositions]: one position per entry of
    [acqOrder], and the positions paired with [shift_tile_dep_tiles]. *)
Lemma getPositions_lists (s : ShiftRegistrar) (tp : list (float * float))
  (dp : list (list (float * float))) :
  getPositions s = Ok (tp, dp) ->
  length tp = length (acqOrder s)
  /\ dp = map (fun p => dependent_positions (fst p) (snd p))
              (combine tp (shift_tile_dep_tiles s)).
Proof.
  unfold getPositions.
  destruct (grid_get (tiles s) 0 0) as [[first|]|]; cbn [bindR]; try discriminate.
  destruct (need (px_size s)) as [px|]; cbn [bindR]; try discriminate.
  destruct (map_result _ (acqOrder s)) as [tps|] eqn:E; cbn [bindR]; try discriminate.
  intros [= <- <-]. apply map_result_length in E. split; [assumption | reflexivity].
Qed.

End Dependents.

(** ** Dependent tiles, in a session that mixes calls with and without them *)

(** C8: after a tile added without dependent tiles and a tile added with
    one, the second list of [getPositions] has a single entry, for both
    registrars. *)
Theorem dependent_list_misses_entries :
  IdentityRegistrar.getPositions (IdentityRegistrar.run mixed_calls IdentityRegistrar.init)
  = ([(0, 0); (4, 0)], [[(1, 1)]])%float
  /\ getPositions (run (K := no_shift) mixed_calls ShiftRegistrar_init)
     = Ok ([(0, 0); (4, 0)], [[(-3, 1)]])%float.
Proof. vm_compute. split; reflexivity. Qed.

(** C7: in that session the offset of the dependent tile, (-3, 1), is
    stored once, but [getPositions] adds it to the position of the first
    tile, (0, 0), and not to the position of its main tile, (4, 0). *)
Theorem dependent_offset_added_to_other_tile :
  let s := run (K := no_shift) mixed_calls ShiftRegistrar_init in
  let offset := np_subtract2 (md_pos dep_tile) (md_pos right_tile) in
  shift_tile_dep_tiles s = [[offset]]
  /\ exists p_first p_main,
       getPositions s = Ok ([p_first; p_main], [dependent_positions p_first [offset]])
       /\ dependent_positions p_first [offset] = [(-3, 1)%float]
       /\ dependent_positions p_main [offset] = [(1, 1)%float].
Proof.
  vm_compute. split; [reflexivity|].
  exists (0, 0)%float, (4, 0)%float. repeat split.
Qed.

(** * Further properties of the registrar *)

(** ** The regions of [_estimateROI] *)

Ltac simpl_min_max_goal :=
  repeat match goal with
    | |- context [Z.min ?a ?b] =>
        first [rewrite (Z.min_l a b) by lia | rewrite (Z.min_r a b) by lia]
    | |- context [Z.max ?a ?b] =>
        first [rewrite (Z.max_l a b) by lia | rewrite (Z.max_r a b) by lia]
    end.

(** Whatever the shift, the two regions [_estimateROI] answers lie within
    the tile and have the same extent, the part of the tile that the shift
    leaves covered: nothing of it for a shift beyond the tile on the
    negative side. *)
Theorem estimateROI_congruent (self : ShiftRegistrar) (h w sx sy : Z)
  (l1 t1 r1 b1 l2 t2 r2 b2 : Z) :
  size self = Some (h, w) -> 0 <= h -> 0 <= w ->
  _estimateROI self (sx, sy) = Ok ((l1, t1, r1, b1), (l2, t2, r2, b2)) ->
  (0 <= l1 <= r1 /\ r1 <= w) /\ (0 <= l2 <= r2 /\ r2 <= w)
  /\ (0 <= t1 <= b1 /\ b1 <= h) /\ (0 <= t2 <= b2 /\ b2 <= h)
  /\ r1 - l1 = Z.max 0 (w - Z.abs sx) /\ r2 - l2 = Z.max 0 (w - Z.abs sx)
  /\ b1 - t1 = Z.max 0 (h - Z.abs sy) /\ b2 - t2 = Z.max 0 (h - Z.abs sy).
Proof.
  intros Hsz Hh Hw. unfold _estimateROI. rewrite Hsz; cbn.
  destruct (w <=? sx) eqn:E1; [discriminate|].
  destruct (h <=? sy) eqn:E2; [discriminate|]. cbn.
  intros H. injection H as <- <- <- <- <- <- <- <-.
  apply Z.leb_gt in E1, E2.
  destruct (Z.le_gt_cases 0 sx); destruct (Z.le_gt_cases 0 sy);
    destruct (Z.le_gt_cases w (- sx)); destruct (Z.le_gt_cases h (- sy));
    simpl_min_max_goal; lia.
Qed.

Lemma estimateROI_congruent_witness :
  (0 <= 0 <= 0 /\ 0 <= 5) /\ (0 <= 5 <= 5 /\ 5 <= 5)
  /\ (0 <= 0 <= 3 /\ 3 <= 5) /\ (0 <= 2 <= 5 /\ 5 <= 5)
  /\ 0 - 0 = Z.max 0 (5 - Z.abs (-7)) /\ 5 - 5 = Z.max 0 (5 - Z.abs (-7))
  /\ 3 - 0 = Z.max 0 (5 - Z.abs (-2)) /\ 5 - 2 = Z.max 0 (5 - Z.abs (-2)).
Proof.
  apply (estimateROI_congruent row_session 5 5 (-7) (-2));
    [vm_compute; reflexivity | lia | lia | vm_compute; reflexivity].
Defined.

(** ** The shape of the grids *)

Lemma Forall_list_update {A} (P : A -> Prop) (n : nat) (v : A) (l : list A) :
  Forall P l -> P v -> Forall P (list_update n v l).
Proof.
  intros Hl Hv. revert n. induction Hl as [|a l Ha Hl IH]; intros [|n]; cbn; auto.
Qed.

Lemma py_getitem_In {A} (l : list A) (i : Z) (a : A) : py_getitem l i = Ok a -> In a l.
Proof.
  unfold py_getitem. destruct (py_norm _ i) as [n|]; [|discriminate].
  destruct (nth_error l n) eqn:E; [|discriminate].
  intros [= <-]. exact (nth_error_In _ _ E).
Qed.

Lemma py_setitem_length {A} (l l' : list A) (i : Z) (v : A) :
  py_setitem l i v = Ok l' -> length l' = length l.
Proof.
  unfold py_setitem. destruct (py_norm _ i); [|discriminate].
  intros [= <-]. apply length_list_update.
Qed.

Lemma rect_grid_set {A} (rows cols : nat) (g g' : grid A) (r c : Z) (v : option A) :
  grid_set g r c v = Ok g' -> rect rows cols g -> rect rows cols g'.
Proof.
  unfold grid_set, bindR. intros H [Hl Hf].
  destruct (py_getitem g r) as [row|] eqn:E1; [|discriminate].
  destruct (py_setitem row c v) as [row'|] eqn:E2; [|discriminate].
  split.
  - now rewrite (py_setitem_length _ _ _ _ H).
  - unfold py_setitem in H. destruct (py_norm _ r); [|discriminate].
    injection H as <-. apply Forall_list_update; [assumption|].
    rewrite (py_setitem_length _ _ _ _ E2).
    rewrite Forall_forall in Hf. apply Hf. exact (py_getitem_In _ _ _ E1).
Qed.

Lemma append_none_all {A} (g : grid A) :
  append_none (length g) g = Ok (map (fun r => r ++ [None]) g).
Proof. induction g as [|r g IH]; cbn; [reflexivity | now rewrite IH]. Qed.

Lemma rect_append_col {A} (rows cols : nat) (g : grid A) :
  rect rows cols g -> rect rows (S cols) (map (fun r => r ++ [None]) g).
Proof.
  intros [Hl Hf]. split; [now rewrite length_map|].
  apply Forall_map. revert Hf. apply Forall_impl.
  intros r Hr. rewrite length_app, Hr. cbn. lia.
Qed.

Lemma rect_append_row {A} (rows cols : nat) (g : grid A) (n : Z) :
  rect rows cols g -> Z.to_nat n = cols -> rect (S rows) cols (g ++ [none_row n]).
Proof.
  intros [Hl Hf] Hn. split.
  - rewrite length_app, Hl. cbn. lia.
  - apply Forall_app. split; [assumption|]. constructor; [|constructor].
    unfold none_row. now rewrite repeat_length.
Qed.

Lemma shaped_ext (s s' : ShiftRegistrar) :
  nx s' = nx s -> tiles s' = tiles s -> coords_ver s' = coords_ver s ->
  coords_hor s' = coords_hor s -> shifts s' = shifts s -> shaped s -> shaped s'.
Proof. unfold shaped. intros -> -> -> -> ->. auto. Qed.

Lemma shaped_init : shaped ShiftRegistrar_init.
Proof.
  split; [reflexivity|]. exists 1%nat. split; [lia|].
  repeat split; repeat constructor.
Qed.

Section Shaped.
Context {K : Kernels}.

Lemma maintains_shaped_frame {A} (m : M A) :
  keeps nx m -> keeps tiles m -> keeps coords_ver m -> keeps coords_hor m ->
  keeps shifts m -> maintains shaped m.
Proof.
  intros H1 H2 H3 H4 H5 s r s' Hi H.
  exact (shaped_ext s s' (H1 _ _ _ H) (H2 _ _ _ H) (H3 _ _ _ H) (H4 _ _ _ H)
           (H5 _ _ _ H) Hi).
Qed.

(** On grids of that shape [_updateGrid] returns: no row is missing. *)
Lemma updateGrid_x_shaped (s : ShiftRegistrar) :
  shaped s ->
  exists s', _updateGrid_x s = (Ok tt, s') /\ shaped s' /\ nx s' = nx s + 1
             /\ length (tiles s') = length (tiles s).
Proof.
  intros (Hnx & rows & Hr & Ht & Hv & Hh & Hs).
  unfold _updateGrid_x. rewrite bind_modify, bind_get, bind_liftR.
  cbn [tiles coords_ver coords_hor shifts set_nx].
  rewrite append_none_all, bind_liftR.
  replace (length (tiles s)) with (length (coords_ver s))
    by (rewrite (proj1 Hv); symmetry; exact (proj1 Ht)).
  rewrite append_none_all, bind_liftR.
  replace (length (coords_ver s)) with (length (coords_hor s))
    by (rewrite (proj1 Hh); symmetry; exact (proj1 Hv)).
  rewrite append_none_all, bind_liftR.
  replace (length (coords_hor s)) with (length (shifts s))
    by (rewrite (proj1 Hs); symmetry; exact (proj1 Hh)).
  rewrite append_none_all.
  eexists. split; [reflexivity|].
  cbn [tiles nx shifts coords_hor coords_ver set_tiles set_shifts set_coords_hor
         set_coords_ver set_nx].
  split; [|split; [reflexivity | now rewrite length_map, (proj1 Ht), (proj1 Hs)]].
  split; [cbn; lia|]. exists rows. split; [assumption|]. cbn.
  replace (Z.to_nat (nx s + 1)) with (S (Z.to_nat (nx s))) by lia.
  split; [now apply rect_append_col|]. split; [now apply rect_append_col|].
  split; now apply rect_append_col.
Qed.

Lemma maintains_shaped_updateGrid_x : maintains shaped _updateGrid_x.
Proof.
  intros s r s' Hi H. destruct (updateGrid_x_shaped s Hi) as (s'' & E & Hs & _).
  rewrite E in H. now injection H as _ <-.
Qed.

Lemma maintains_shaped_updateGrid_y : maintains shaped _updateGrid_y.
Proof.
  intros s r s' (Hnx & rows & Hr & Ht & Hv & Hh & Hs). unfold _updateGrid_y, modify.
  intros [= _ <-]. split; [exact Hnx|]. exists (S rows). split; [lia|]. cbn.
  split; [now apply rect_append_row|]. split; [now apply rect_append_row|].
  split; now apply rect_append_row.
Qed.


(** Storing into one of the grids: [g = self.grid; g[row][col] = v]. *)
Lemma maintains_shaped_store_hor (row col : Z) (v : option (Z * Z)) :
  maintains shaped
    (s <- get ;; g <- liftR (grid_set (coords_hor s) row col v) ;; modify (set_coords_hor g)).
Proof.
  intros s r s' Hi. rewrite bind_get, bind_liftR.
  destruct (grid_set (coords_hor s) row col v) as [g|e] eqn:E.
  - intros [= _ <-]. destruct Hi as (Hnx & rows & Hr & Ht & Hv & Hh & Hs).
    split; [exact Hnx|]. exists rows. cbn.
    repeat (split; [assumption|]). split; [|assumption].
    exact (rect_grid_set _ _ _ _ _ _ _ E Hh).
  - now intros [= _ <-].
Qed.

Lemma maintains_shaped_store_ver (row col : Z) (v : option (Z * Z)) :
  maintains shaped
    (s <- get ;; g <- liftR (grid_set (coords_ver s) row col v) ;; modify (set_coords_ver g)).
Proof.
  intros s r s' Hi. rewrite bind_get, bind_liftR.
  destruct (grid_set (coords_ver s) row col v) as [g|e] eqn:E.
  - intros [= _ <-]. destruct Hi as (Hnx & rows & Hr & Ht & Hv & Hh & Hs).
    split; [exact Hnx|]. exists rows. cbn.
    split; [assumption|]. split; [assumption|]. split; [|split; assumption].
    exact (rect_grid_set _ _ _ _ _ _ _ E Hv).
  - now intros [= _ <-].
Qed.

Ltac shaped_step :=
  first
    [ apply maintains_ret
    | apply maintains_raise
    | apply maintains_get
    | apply maintains_liftR
    | apply maintains_shaped_updateGrid_x
    | apply maintains_shaped_updateGrid_y
    | apply maintains_shaped_store_hor
    | apply maintains_shaped_store_ver
    | apply maintains_shaped_frame; solve [keeps_more]
    | apply maintains_bind; [| intros ?; cbv beta]
    | match goal with
      | |- maintains _ (match ?x with _ => _ end) => destruct x
      end ].

Lemma maintains_shaped_pos_to_left_right (row col : Z) (xdir : direction) :
  maintains shaped (_pos_to_left_right row col xdir).
Proof. unfold _pos_to_left_right. repeat shaped_step. Qed.

Lemma maintains_shaped_pos_to_top (row col : Z) : maintains shaped (_pos_to_top row col).
Proof. unfold _pos_to_top. repeat shaped_step. Qed.

Lemma maintains_shaped_horizontal (row col : Z) :
  maintains shaped (horizontal_estimate row col).
Proof.
  unfold horizontal_estimate. repeat shaped_step; apply maintains_shaped_pos_to_left_right.
Qed.

Lemma maintains_shaped_vertical (row col : Z) :
  maintains shaped (vertical_estimate row col).
Proof.
  unfold vertical_estimate. repeat shaped_step; apply maintains_shaped_pos_to_top.
Qed.

Lemma maintains_shaped_find_slot (tile : Tile) : maintains shaped (find_slot tile).
Proof. unfold find_slot. repeat shaped_step. Qed.

Lemma maintains_shaped_addTile_slot (tile : Tile) (deps : option (list Tile)) :
  maintains shaped (addTile_slot tile deps).
Proof.
  unfold addTile_slot. repeat shaped_step; apply maintains_shaped_find_slot.
Qed.

Lemma maintains_shaped_compute_registration (tile : Tile) (row col : Z) :
  maintains shaped (_compute_registration tile row col).
Proof.
  intros s r s' Hi. unfold _compute_registration. rewrite bind_get, bind_liftR.
  destruct (previous_missing s row col) as [[|]|e]; cbv beta iota;
    try (unfold raise; now intros [= _ <-]).
  rewrite bind_liftR.
  destruct (grid_set (tiles s) row col (Some tile)) as [g|e] eqn:Eg; cbv beta iota;
    [|now intros [= _ <-]].
  rewrite bind_modify.
  assert (Hi1 : shaped (set_tiles g s)).
  { destruct Hi as (Hnx & rows & Hr & Ht & Hv & Hh & Hs).
    split; [exact Hnx|]. exists rows. cbn. split; [assumption|].
    split; [exact (rect_grid_set _ _ _ _ _ _ _ Eg Ht) | auto]. }
  rewrite bind_get, bind_liftR.
  destruct (expected_position (set_tiles g s) row col) as [[ox oy]|e]; cbv beta iota;
    [|now intros [= _ <-]].
  intros H.
  apply bind_cases in H as [([pos m] & s1 & Hh & H) | (e & Hh & _)];
    [|exact (maintains_shaped_horizontal _ _ _ _ _ Hi1 Hh)].
  pose proof (maintains_shaped_horizontal _ _ _ _ _ Hi1 Hh) as Hi2.
  apply bind_cases in H as [([pos2 m2] & s2 & Hv & H) | (e & Hv & _)];
    [|exact (maintains_shaped_vertical _ _ _ _ _ Hi2 Hv)].
  pose proof (maintains_shaped_vertical _ _ _ _ _ Hi2 Hv) as Hi3.
  rewrite bind_liftR in H.
  destruct (reconcile pos m pos2 m2 ox oy) as [p|e]; [|now injection H as _ <-].
  rewrite bind_get, bind_liftR in H.
  destruct (grid_set (shifts s2) row col (Some p)) as [g2|e] eqn:Eg2;
    [|now injection H as _ <-].
  rewrite bind_modify in H. injection H as _ <-.
  destruct Hi3 as (Hnx & rows & Hr & Ht & Hv' & Hh' & Hs).
  split; [exact Hnx|]. exists rows. cbn. repeat (split; [assumption|]).
  exact (rect_grid_set _ _ _ _ _ _ _ Eg2 Hs).
Qed.

(** Every call of [addTile], returning or raising, leaves the four grids
    rectangular, with the same number of rows and [nx] columns. *)
Lemma maintains_shaped_addTile (tile : Tile) (deps : option (list Tile)) :
  maintains shaped (addTile tile deps).
Proof.
  unfold addTile. apply maintains_bind; [apply maintains_shaped_addTile_slot|].
  intros [row col]. apply maintains_shaped_compute_registration.
Qed.

End Shaped.

(** ** Growth of the grids *)

Section Related.
Variable R : ShiftRegistrar -> ShiftRegistrar -> Prop.
Hypothesis R_refl : forall s, R s s.
Hypothesis R_trans : forall a b c, R a b -> R b c -> R a c.

Lemma related_ret {A} (a : A) : related R (ret a).
Proof. intros s r s' [= _ <-]. apply R_refl. Qed.
Lemma related_raise {A} (e : exn) : related R (@raise A e).
Proof. intros s r s' [= _ <-]. apply R_refl. Qed.
Lemma related_get : related R get.
Proof. intros s r s' [= _ <-]. apply R_refl. Qed.
Lemma related_liftR {A} (x : result A) : related R (liftR x).
Proof. intros s r s' [= _ <-]. apply R_refl. Qed.
Lemma related_modify (g : ShiftRegistrar -> ShiftRegistrar) :
  (forall s, R s (g s)) -> related R (modify g).
Proof. intros Hg s r s' [= _ <-]. apply Hg. Qed.
Lemma related_bind {A B} (m : M A) (k : A -> M B) :
  related R m -> (forall a, related R (k a)) -> related R (bind m k).
Proof.
  intros Hm Hk s r s' H.
  apply bind_cases in H as [(a & s1 & H1 & H2) | (e & H1 & _)].
  - exact (R_trans _ _ _ (Hm _ _ _ H1) (Hk a _ _ _ H2)).
  - exact (Hm _ _ _ H1).
Qed.
Lemma related_for_each {A} (l : list A) (body : A -> M unit) :
  (forall a, related R (body a)) -> related R (for_each l body).
Proof.
  intros Hb. induction l as [|a l IH]; cbn.
  - apply related_ret.
  - apply related_bind; [apply Hb | intros _; exact IH].
Qed.
End Related.

Lemma filled_kept_refl {A} (g : grid A) : filled_kept g g.
Proof. intros i j x _ _ H. now exists x. Qed.

Lemma filled_kept_trans {A} (a b c : grid A) :
  filled_kept a b -> filled_kept b c -> filled_kept a c.
Proof.
  intros H1 H2 i j x Hi Hj H. destruct (H1 i j x Hi Hj H) as [x' H'].
  exact (H2 i j x' Hi Hj H').
Qed.

Lemma extends_refl (s : ShiftRegistrar) : extends s s.
Proof. repeat split; try lia; apply filled_kept_refl. Qed.

Lemma extends_trans (a b c : ShiftRegistrar) : extends a b -> extends b c -> extends a c.
Proof.
  intros (L1 & N1 & T1 & S1) (L2 & N2 & T2 & S2).
  repeat split; try lia; eapply filled_kept_trans; eassumption.
Qed.

Lemma extends_frame (s s' : ShiftRegistrar) :
  tiles s' = tiles s -> shifts s' = shifts s -> nx s' = nx s -> extends s s'.
Proof. intros Ht Hs Hn. unfold extends. rewrite Ht, Hs, Hn. apply extends_refl. Qed.

Lemma py_setitem_getitem_any {A} (l l' : list A) (k i : Z) (v a : A) :
  py_setitem l k v = Ok l' -> py_getitem l i = Ok a ->
  py_getitem l' i = Ok a \/ (py_getitem l' i = Ok v /\ py_getitem l k = Ok a).
Proof.
  unfold py_setitem, py_getitem.
  destruct (py_norm (Z.of_nat (length l)) k) as [n|] eqn:En; [|discriminate].
  intros [= <-]. rewrite length_list_update.
  destruct (py_norm (Z.of_nat (length l)) i) as [m|] eqn:Em; [|discriminate].
  destruct (nth_error l m) as [a'|] eqn:Ea; [|discriminate]. intros [= ->].
  destruct (Nat.eq_dec n m) as [->|Hne].
  - right. rewrite nth_error_list_update, Ea; [auto|].
    apply nth_error_Some. congruence.
  - left. now rewrite (nth_error_list_update_other _ _ _ _ Hne), Ea.
Qed.

(** After [g[r][c] = v] a slot holds what it held, or [v]. *)
Lemma grid_set_get_any {A} (g g' : grid A) (r c i j : Z) (v x : option A) :
  grid_set g r c v = Ok g' -> grid_get g i j = Ok x ->
  grid_get g' i j = Ok x \/ grid_get g' i j = Ok v.
Proof.
  unfold grid_set, grid_get, bindR.
  destruct (py_getitem g r) as [row|] eqn:E1; [|discriminate].
  destruct (py_setitem row c v) as [row'|] eqn:E2; [|discriminate].
  intros H. destruct (py_getitem g i) as [rowi|] eqn:Ei; [|discriminate]. intros Hj.
  destruct (py_setitem_getitem_any _ _ _ _ _ _ H Ei) as [-> | [-> Hr]]; [now left|].
  rewrite E1 in Hr. injection Hr as ->.
  destruct (py_setitem_getitem_any _ _ _ _ _ _ E2 Hj) as [-> | [-> _]]; [now left | now right].
Qed.

Lemma filled_kept_grid_set {A} (g g' : grid A) (r c : Z) (v : A) :
  grid_set g r c (Some v) = Ok g' -> filled_kept g g'.
Proof.
  intros H i j x _ _ Hx.
  destruct (grid_set_get_any _ _ _ _ _ _ _ _ H Hx) as [H' | H']; eauto.
Qed.

Lemma grid_set_length {A} (g g' : grid A) (r c : Z) (v : option A) :
  grid_set g r c v = Ok g' -> length g' = length g.
Proof.
  unfold grid_set, bindR.
  destruct (py_getitem g r) as [row|]; [|discriminate].
  destruct (py_setitem row c v) as [row'|]; [|discriminate].
  apply py_setitem_length.
Qed.

Lemma append_none_length {A} (n : nat) (g g' : grid A) :
  append_none n g = Ok g' -> length g' = length g.
Proof.
  revert g g'. induction n as [|n IH]; intros g g'; cbn.
  - now intros [= <-].
  - destruct g as [|r g]; [discriminate|]. unfold bindR.
    destruct (append_none n g) as [g''|] eqn:E; [|discriminate].
    intros [= <-]. cbn. now rewrite (IH _ _ E).
Qed.

Section Extends.
Context {K : Kernels}.

Lemma related_extends_frame {A} (m : M A) :
  keeps tiles m -> keeps shifts m -> keeps nx m -> related extends m.
Proof.
  intros H1 H2 H3 s r s' H.
  exact (extends_frame s s' (H1 _ _ _ H) (H2 _ _ _ H) (H3 _ _ _ H)).
Qed.

Lemma related_extends_updateGrid_x : related extends _updateGrid_x.
Proof.
  intros s r s'. unfold _updateGrid_x.
  rewrite bind_modify, bind_get, bind_liftR.
  cbn [tiles coords_ver coords_hor shifts set_nx].
  assert (Hfr : extends s (set_nx (nx s + 1) s)).
  { repeat split; cbn; try lia; apply filled_kept_refl. }
  destruct (append_none (length (tiles s)) (tiles s)) as [t'|] eqn:Et;
    [|now intros [= _ <-]].
  rewrite bind_liftR.
  destruct (append_none _ (coords_ver s)); [|now intros [= _ <-]].
  rewrite bind_liftR.
  destruct (append_none _ (coords_hor s)); [|now intros [= _ <-]].
  rewrite bind_liftR.
  destruct (append_none _ (shifts s)) as [s'_|] eqn:Es; [|now intros [= _ <-]].
  intros [= _ <-]. repeat split; cbn; try lia.
  - now rewrite (append_none_length _ _ _ Et).
  - intros i j x Hi Hj Hx. exists x. exact (grid_get_append_none _ _ _ _ _ _ Et Hi Hj Hx).
  - intros i j x Hi Hj Hx. exists x. exact (grid_get_append_none _ _ _ _ _ _ Es Hi Hj Hx).
Qed.

Lemma related_extends_updateGrid_y : related extends _updateGrid_y.
Proof.
  intros s r s'. unfold _updateGrid_y, modify. intros [= _ <-].
  repeat split; cbn; try lia.
  - rewrite length_app. lia.
  - intros i j x Hi Hj Hx. exists x. now apply grid_get_app.
  - intros i j x Hi Hj Hx. exists x. now apply grid_get_app.
Qed.

Ltac extends_step :=
  first
    [ apply (related_ret _ extends_refl)
    | apply (related_raise _ extends_refl)
    | apply (related_get _ extends_refl)
    | apply (related_liftR _ extends_refl)
    | apply related_extends_updateGrid_x
    | apply related_extends_updateGrid_y
    | apply related_extends_frame; solve [keeps_more]
    | apply (related_bind _ extends_trans); [| intros ?; cbv beta]
    | match goal with
      | |- related _ (match ?x with _ => _ end) => destruct x
      end ].

Lemma related_extends_find_slot (tile : Tile) : related extends (find_slot tile).
Proof. unfold find_slot. repeat extends_step. Qed.

Lemma related_extends_addTile_slot (tile : Tile) (deps : option (list Tile)) :
  related extends (addTile_slot tile deps).
Proof.
  unfold addTile_slot. repeat extends_step; apply related_extends_find_slot.
Qed.

Lemma related_extends_compute_registration (tile : Tile) (row col : Z) :
  related extends (_compute_registration tile row col).
Proof.
  intros s r s'. unfold _compute_registration. rewrite bind_get, bind_liftR.
  destruct (previous_missing s row col) as [[|]|e]; cbv beta iota;
    try (unfold raise; intros [= _ <-]; apply extends_refl).
  rewrite bind_liftR.
  destruct (grid_set (tiles s) row col (Some tile)) as [g|e] eqn:Eg; cbv beta iota;
    [|intros [= _ <-]; apply extends_refl].
  rewrite bind_modify.
  assert (E1 : extends s (set_tiles g s)).
  { repeat split; cbn; try lia.
    - now rewrite (grid_set_length _ _ _ _ _ Eg).
    - exact (filled_kept_grid_set _ _ _ _ _ Eg).
    - apply filled_kept_refl. }
  rewrite bind_get, bind_liftR.
  destruct (expected_position (set_tiles g s) row col) as [[ox oy]|e]; cbv beta iota;
    [|now intros [= _ <-]].
  intros H.
  assert (Hh' : related extends (horizontal_estimate row col))
    by (apply related_extends_frame; keeps_more).
  assert (Hv' : related extends (vertical_estimate row col))
    by (apply related_extends_frame; keeps_more).
  apply bind_cases in H as [([pos m] & s1 & Hh & H) | (e & Hh & _)];
    [|exact (extends_trans _ _ _ E1 (Hh' _ _ _ Hh))].
  pose proof (extends_trans _ _ _ E1 (Hh' _ _ _ Hh)) as E2.
  apply bind_cases in H as [([pos2 m2] & s2 & Hv & H) | (e & Hv & _)];
    [|exact (extends_trans _ _ _ E2 (Hv' _ _ _ Hv))].
  pose proof (extends_trans _ _ _ E2 (Hv' _ _ _ Hv)) as E3.
  rewrite bind_liftR in H.
  destruct (reconcile pos m pos2 m2 ox oy) as [p|e]; [|now injection H as _ <-].
  rewrite bind_get, bind_liftR in H.
  destruct (grid_set (shifts s2) row col (Some p)) as [g2|e] eqn:Eg2;
    [|now injection H as _ <-].
  rewrite bind_modify in H. injection H as _ <-.
  apply (extends_trans _ _ _ E3).
  repeat split; cbn; try lia.
  - apply filled_kept_refl.
  - exact (filled_kept_grid_set _ _ _ _ _ Eg2).
Qed.

Lemma related_extends_addTile (tile : Tile) (deps : option (list Tile)) :
  related extends (addTile tile deps).
Proof.
  unfold addTile. apply (related_bind _ extends_trans);
    [apply related_extends_addTile_slot|].
  intros [row col]. apply related_extends_compute_registration.
Qed.

End Extends.

(** ** The outcome of [addTile] *)

Ltac kept f H name :=
  lazymatch type of H with
  | ?m ?s = (?r, ?s') =>
      assert (name : f s' = f s) by
        (let Hk := fresh in assert (Hk : keeps f m) by keeps_more; exact (Hk _ _ _ H))
  end.

Section Outcome.
Context {K : Kernels}.

Lemma addTile_slot_pos (tile : Tile) (deps : option (list Tile)) (s s1 : ShiftRegistrar)
  (row col : Z) :
  addTile_slot tile deps s = (Ok (row, col), s1) ->
  posY s1 = Some row /\ posX s1 = Some col.
Proof.
  unfold addTile_slot. intros H.
  apply bind_cases in H as [(l & s0 & _ & H) | (e & _ & [=])].
  apply bind_cases in H as [([] & sF & _ & H) | (e & _ & [=])].
  apply bind_cases in H as [([] & sD & _ & H) | (e & _ & [=])].
  rewrite bind_get, bind_liftR in H.
  destruct (posY sD) as [y|] eqn:Ey; [|discriminate]. cbn [need] in H.
  rewrite bind_liftR in H.
  destruct (posX sD) as [x|] eqn:Ex; [|discriminate]. cbn [need] in H.
  injection H as <- <- <-. auto.
Qed.

(** What [_compute_registration] leaves behind: on return, the tile and a
    position in the slot, and the slot at the end of [acqOrder]; on an
    exception, [acqOrder] as it was. *)
Lemma compute_registration_outcome (tile : Tile) (row col : Z) (s s' : ShiftRegistrar)
  (r : result unit) :
  _compute_registration tile row col s = (r, s') ->
  match r with
  | Ok _ =>
      acqOrder s' = acqOrder s ++ [(row, col)]
      /\ grid_get (tiles s') row col = Ok (Some tile)
      /\ exists p, grid_get (shifts s') row col = Ok (Some p)
  | Raise _ => acqOrder s' = acqOrder s
  end.
Proof.
  unfold _compute_registration. rewrite bind_get, bind_liftR.
  destruct (previous_missing s row col) as [[|]|e]; cbv beta iota;
    try (unfold raise; now intros [= <- <-]).
  rewrite bind_liftR.
  destruct (grid_set (tiles s) row col (Some tile)) as [g|e] eqn:Eg; cbv beta iota;
    [|now intros [= <- <-]].
  rewrite bind_modify, bind_get, bind_liftR.
  destruct (expected_position (set_tiles g s) row col) as [[ox oy]|e]; cbv beta iota;
    [|now intros [= <- <-]].
  intros H.
  apply bind_cases in H as [([pos m] & s1 & Hh & H) | (e & Hh & ->)].
  2:{ kept acqOrder Hh A1. exact A1. }
  kept acqOrder Hh A1. kept tiles Hh T1. cbn in A1, T1.
  apply bind_cases in H as [([pos2 m2] & s2 & Hv & H) | (e & Hv & ->)].
  2:{ kept acqOrder Hv A2. congruence. }
  kept acqOrder Hv A2. kept tiles Hv T2.
  rewrite bind_liftR in H.
  destruct (reconcile pos m pos2 m2 ox oy) as [p|e];
    [|injection H as <- <-; congruence].
  rewrite bind_get, bind_liftR in H.
  destruct (grid_set (shifts s2) row col (Some p)) as [g2|e] eqn:Eg2;
    [|injection H as <- <-; congruence].
  rewrite bind_modify in H. injection H as <- <-. cbn.
  split; [congruence|]. split.
  - rewrite T2, T1. exact (grid_get_set _ _ _ _ _ Eg).
  - exists p. exact (grid_get_set _ _ _ _ _ Eg2).
Qed.

Lemma addTile_result (tile : Tile) (deps : option (list Tile)) (s s' : ShiftRegistrar)
  (r : result unit) :
  addTile tile deps s = (r, s') ->
  match r with
  | Ok _ =>
      exists row col p,
        posY s' = Some row /\ posX s' = Some col
        /\ acqOrder s' = acqOrder s ++ [(row, col)]
        /\ grid_get (tiles s') row col = Ok (Some tile)
        /\ grid_get (shifts s') row col = Ok (Some p)
  | Raise _ => acqOrder s' = acqOrder s
  end.
Proof.
  unfold addTile.
  assert (Hk : keeps acqOrder (addTile_slot tile deps)).
  { apply keeps_addTile_slot; [reflexivity|]. apply keeps_find_slot; reflexivity. }
  destruct (addTile_slot tile deps s) as [[[row col]|e] s1] eqn:Es.
  - rewrite (bind_run _ _ _ _ _ Es). cbv beta iota. intros Ec.
    pose proof (compute_registration_outcome _ _ _ _ _ _ Ec) as Ho.
    rewrite (Hk _ _ _ Es) in Ho.
    destruct r as [[]|e]; [|exact Ho].
    destruct Ho as (Ha & Ht & p & Hp).
    destruct (addTile_slot_pos _ _ _ _ _ _ Es) as [Hy Hx].
    exists row, col, p. repeat split; try assumption.
    + rewrite <- Hy. revert Ec. apply keeps_compute_registration; intros; reflexivity.
    + rewrite <- Hx. revert Ec. apply keeps_compute_registration; intros; reflexivity.
  - rewrite (bind_run_raise _ _ _ _ _ Es). intros [= <- <-]. exact (Hk _ _ _ Es).
Qed.

(** A call of [addTile] that returns has stored the tile and a position in
    the slot [(posY, posX)] and appended that slot to [acqOrder]; a call
    that raises, whatever the exception, leaves [acqOrder] as it was. *)
Theorem addTile_outcome (tile : Tile) (deps : option (list Tile)) (s : ShiftRegistrar) :
  let out := addTile tile deps s in
  match fst out with
  | Ok _ =>
      exists row col p,
        posY (snd out) = Some row /\ posX (snd out) = Some col
        /\ acqOrder (snd out) = acqOrder s ++ [(row, col)]
        /\ grid_get (tiles (snd out)) row col = Ok (Some tile)
        /\ grid_get (shifts (snd out)) row col = Ok (Some p)
  | Raise _ => acqOrder (snd out) = acqOrder s
  end.
Proof.
  intros out. subst out.
  destruct (addTile tile deps s) as [r s'] eqn:E. cbn [fst snd].
  exact (addTile_result _ _ _ _ _ E).
Qed.

End Outcome.

(** ** The slot of a tile *)

Lemma rect_cell {A} (rows cols : nat) (g : grid A) (i j : Z) (v : option A) :
  rect rows cols g -> 0 <= i -> 0 <= j -> grid_get g i j = Ok v ->
  i < Z.of_nat rows /\ j < Z.of_nat cols.
Proof.
  intros [Hl Hall] Hi Hj H.
  apply grid_get_nonneg in H as (row & Hr & Hc); try assumption.
  assert (Hlen : length row = cols).
  { rewrite Forall_forall in Hall. apply Hall. eapply nth_error_In; eassumption. }
  assert (H1 : (Z.to_nat i < length g)%nat) by (apply nth_error_Some; congruence).
  assert (H2 : (Z.to_nat j < length row)%nat) by (apply nth_error_Some; congruence).
  lia.
Qed.

Section Slot.
Context {K : Kernels}.

(** After the first tile, [find_slot] (the part of [addTile] that chooses
    the slot) puts the new tile in one of the four slots next to the
    closest tile's, records that tile's column in [pos_prev_x], and the
    slot is a valid (Python) index of the grids: at least -1 and below
    their extent. *)
Theorem find_slot_adjacent (tile first : Tile) (s s1 : ShiftRegistrar) :
  shaped s ->
  grid_get (tiles s) 0 0 = Ok (Some first) ->
  find_slot tile s = (Ok tt, s1) ->
  exists i j p row col,
    _find_closest_tile s (md_pos tile) = Ok ((i, j), p)
    /\ posY s1 = Some row /\ posX s1 = Some col
    /\ pos_prev_x s1 = Some j
    /\ ((row = i /\ (col = j + 1 \/ col = j - 1))
        \/ (col = j /\ (row = i + 1 \/ row = i - 1)))
    /\ -1 <= row < Z.of_nat (length (tiles s1))
    /\ -1 <= col < nx s1.
Proof.
  intros Hsh Hfirst H. unfold find_slot in H.
  rewrite bind_get, bind_liftR, Hfirst in H. cbv beta iota in H.
  destruct (negb (shape_eqb (shape tile) (shape first))); [discriminate|].
  rewrite bind_liftR in H.
  destruct (_find_closest_tile s (md_pos tile)) as [[[i j] p]|e] eqn:Ec; [|discriminate].
  cbv beta iota in H. cbn [fst snd] in H.
  destruct (find_closest_tile_filled _ _ _ _ _ Ec) as (Hi & Hj & t & Ht).
  pose proof Hsh as (Hnx & rows & Hrows & Rt & Rv & Rh & Rs).
  destruct (rect_cell _ _ _ _ _ _ Rt Hi Hj Ht) as [Hi' Hj'].
  rewrite Z2Nat.id in Hj' by lia.
  apply bind_cases in H as [([] & sA & HA & H) | (e & _ & [=])].
  rewrite bind_modify in H.
  kept posX H EX. kept posY H EY. kept pos_prev_x H EP. kept tiles H ET. kept nx H EN.
  cbn in EX, EY, EP, ET, EN.
  exists i, j, p.
  enough (exists row col, posY sA = Some row /\ posX sA = Some col
            /\ ((row = i /\ (col = j + 1 \/ col = j - 1))
                \/ (col = j /\ (row = i + 1 \/ row = i - 1)))
            /\ -1 <= row < Z.of_nat (length (tiles sA))
            /\ -1 <= col < nx sA) as (row & col & Hy & Hx & Hadj & Hr & Hc).
  { exists row, col. rewrite EX, EY, EP, ET, EN. auto 10. }
  clear H EX EY EP ET EN s1.
  pose proof (proj1 Rt) as Lt. pose proof (proj1 Rs) as Ls.
  destruct (PrimFloat.abs _ <? PrimFloat.abs _)%float.
  - destruct (_ <? 0)%float.
    + rewrite bind_modify, bind_get in HA. cbn [shifts set_posX set_posY] in HA.
      destruct (Z.of_nat (length (shifts s)) <=? i + 1) eqn:E.
      * unfold _updateGrid_y, modify in HA. injection HA as <-.
        exists (i + 1), j. cbn. rewrite length_app. cbn [length].
        repeat split; auto; lia.
      * unfold ret in HA. injection HA as <-. apply Z.leb_gt in E.
        exists (i + 1), j. cbn. repeat split; auto; lia.
    + unfold modify in HA. injection HA as <-.
      exists (i - 1), j. cbn. repeat split; auto; lia.
  - destruct (0 <? _)%float.
    + rewrite bind_modify, bind_get, bind_liftR in HA.
      cbn [shifts set_posX set_posY] in HA.
      destruct (py_getitem (shifts s) 0) as [row0|e] eqn:E0; [|discriminate].
      assert (Hlen : length row0 = Z.to_nat (nx s)).
      { apply py_getitem_nonneg in E0; [|lia].
        destruct Rs as [_ Hall]. rewrite Forall_forall in Hall. apply Hall.
        eapply nth_error_In; eassumption. }
      destruct (Z.of_nat (length row0) <=? j + 1) eqn:E.
      * set (s0 := set_posX _ _) in HA.
        assert (Hs0 : shaped s0) by (revert Hsh; apply shaped_ext; reflexivity).
        destruct (updateGrid_x_shaped s0 Hs0) as (s' & Hrun & _ & Hn' & Hl').
        rewrite Hrun in HA. injection HA as <-.
        kept posX Hrun EX. kept posY Hrun EY.
        exists i, (j + 1). rewrite EX, EY, Hn', Hl'. cbn.
        repeat split; auto; lia.
      * unfold ret in HA. injection HA as <-. apply Z.leb_gt in E.
        exists i, (j + 1). cbn. repeat split; auto; lia.
    + unfold modify in HA. injection HA as <-.
      exists i, (j - 1). cbn. repeat split; auto; lia.
Qed.

End Slot.

(** ** The order of floats *)

Ltac compare_cases :=
  repeat match goal with
    | H : context [Pos.compare_cont Eq ?m ?n] |- _ =>
        change (Pos.compare_cont Eq m n) with (Pos.compare m n) in H
    | |- context [Pos.compare_cont Eq ?m ?n] =>
        change (Pos.compare_cont Eq m n) with (Pos.compare m n)
    end;
  repeat match goal with
    | H : context [Z.compare ?x ?y] |- _ => destruct (Z.compare_spec x y)
    | |- context [Z.compare ?x ?y] => destruct (Z.compare_spec x y)
    | H : context [Pos.compare ?x ?y] |- _ => destruct (Pos.compare_spec x y)
    | |- context [Pos.compare ?x ?y] => destruct (Pos.compare_spec x y)
    end;
  cbn in *; subst; try discriminate; try reflexivity; try lia.

Lemma SFltb_irrefl (x : spec_float) : SFltb x x = false.
Proof.
  unfold SFltb. destruct x as [[|]|[|]| |[|] m e]; cbn; try reflexivity; compare_cases.
Qed.

Lemma SFltb_trans (a b c : spec_float) :
  SFltb a b = true -> SFltb b c = true -> SFltb a c = true.
Proof.
  unfold SFltb.
  destruct a as [[|]|[|]| |[|] ma ea], b as [[|]|[|]| |[|] mb eb],
    c as [[|]|[|]| |[|] mc ec]; cbn; try discriminate; try reflexivity;
    intros H1 H2; compare_cases.
Qed.

Lemma ltb_irrefl (x : float) : (x <? x)%float = false.
Proof. rewrite ltb_spec. apply SFltb_irrefl. Qed.

Lemma ltb_trans (a b c : float) :
  (a <? b)%float = true -> (b <? c)%float = true -> (a <? c)%float = true.
Proof. rewrite !ltb_spec. apply SFltb_trans. Qed.

(** Nothing is below a value that is below [c], unless it is below [c]. *)
Lemma not_below_smaller (a b c : float) :
  (a <? c)%float = false -> (b <? c)%float = true -> (a <? b)%float = false.
Proof.
  intros H1 H2. destruct (a <? b)%float eqn:E; [|reflexivity].
  rewrite (ltb_trans _ _ _ E H2) in H1. discriminate.
Qed.

(** ** The closest tile *)

Lemma in_py_range_iff (lo hi k : Z) : In k (py_range lo hi) <-> lo <= k < hi.
Proof.
  unfold py_range. rewrite in_map_iff. split.
  - intros (n & <- & Hn). apply in_seq in Hn. lia.
  - intros Hk. exists (Z.to_nat (k - lo)). split; [lia|]. apply in_seq. lia.
Qed.

Lemma fold_left_prefix {A B} (P : list B -> A -> Prop) (f : A -> B -> A) (l : list B) :
  (forall pre x acc, In x l -> P pre acc -> P (pre ++ [x]) (f acc x)) ->
  forall pre a, P pre a -> P (pre ++ l) (fold_left f l a).
Proof.
  induction l as [|x l IH]; intros Hf pre a Ha; cbn.
  - now rewrite app_nil_r.
  - replace (pre ++ x :: l) with ((pre ++ [x]) ++ l) by (rewrite <- app_assoc; reflexivity).
    apply IH.
    + intros pre' y acc Hy. apply Hf. now right.
    + apply Hf; [now left | assumption].
Qed.

Lemma rect_grid_get {A} (rows cols : nat) (g : grid A) (i j : Z) :
  rect rows cols g -> 0 <= i < Z.of_nat rows -> 0 <= j < Z.of_nat cols ->
  exists cell, grid_get g i j = Ok cell.
Proof.
  intros [Hl Hall] Hi Hj.
  destruct (nth_error g (Z.to_nat i)) as [row|] eqn:Er.
  2:{ apply nth_error_None in Er. lia. }
  assert (Hlen : length row = cols).
  { rewrite Forall_forall in Hall. apply Hall. eapply nth_error_In; eassumption. }
  destruct (nth_error row (Z.to_nat j)) as [cell|] eqn:Ec.
  2:{ apply nth_error_None in Ec. lia. }
  exists cell. apply grid_get_nonneg; [lia | lia |]. now exists row.
Qed.

Lemma rect_hd {A} (rows cols : nat) (g : grid A) :
  (0 < rows)%nat -> rect rows cols g -> length (hd [] g) = cols.
Proof.
  intros Hr [Hl Hall]. destruct g as [|r g]; [cbn in Hl; lia|].
  now inversion Hall.
Qed.

Section Nearest.
Context {K : Kernels}.

Lemma closest_step_inv (g : grid Tile) (pos : float * float) (visited : list (Z * Z))
  (acc : result (float * option ((Z * Z) * (float * float)))) (ij : Z * Z) :
  (exists cell, grid_get g (fst ij) (snd ij) = Ok cell) ->
  closest_inv g pos visited acc ->
  closest_inv g pos (visited ++ [ij]) (closest_step g pos acc ij).
Proof.
  intros [cell Hc] (minDist & found & -> & Hall & Hf).
  unfold closest_step. cbn [bindR]. rewrite Hc. cbn [bindR].
  destruct cell as [t|].
  - fold (distance pos (md_pos t)).
    destruct (distance pos (md_pos t) <? minDist)%float eqn:E.
    + exists (distance pos (md_pos t)), (Some (ij, md_pos t)). split; [reflexivity|]. split.
      * intros a b t' Hin Hg. apply in_app_or in Hin as [Hin | [-> | []]].
        -- exact (not_below_smaller _ _ _ (Hall a b t' Hin Hg) E).
        -- cbn [fst snd] in Hc. rewrite Hc in Hg. injection Hg as <-. apply ltb_irrefl.
      * split; [apply in_or_app; right; now left|]. split; [reflexivity|]. split.
        -- destruct found as [[ij' q]|].
           ++ destruct Hf as (_ & _ & Hlt & _). exact (ltb_trans _ _ _ E Hlt).
           ++ now rewrite <- Hf.
        -- now exists t.
    + exists minDist, found. split; [reflexivity|]. split.
      * intros a b t' Hin Hg. apply in_app_or in Hin as [Hin | [-> | []]].
        -- exact (Hall a b t' Hin Hg).
        -- cbn [fst snd] in Hc. rewrite Hc in Hg. injection Hg as <-. exact E.
      * destruct found as [[ij' q]|]; [|exact Hf].
        destruct Hf as (Hin & Hrest). split; [apply in_or_app; now left | exact Hrest].
  - exists minDist, found. split; [reflexivity|]. split.
    + intros a b t' Hin Hg. apply in_app_or in Hin as [Hin | [-> | []]].
      * exact (Hall a b t' Hin Hg).
      * cbn [fst snd] in Hc. rewrite Hc in Hg. discriminate.
    + destruct found as [[ij' q]|]; [|exact Hf].
      destruct Hf as (Hin & Hrest). split; [apply in_or_app; now left | exact Hrest].
Qed.

(** [_find_closest_tile] on a registrar whose grids are rectangular: the
    slot it returns is in the grid and holds a tile whose [MD_POS] is the
    position returned, at a distance below infinity, and no tile of the
    grid is closer; it raises only when no tile is at a distance below
    infinity, and then the unbound local variable of its [return]. *)
Theorem find_closest_tile_nearest (s : ShiftRegistrar) (pos : float * float) :
  shaped s ->
  match _find_closest_tile s pos with
  | Ok ((i, j), p) =>
      0 <= i < Z.of_nat (length (tiles s)) /\ 0 <= j < nx s
      /\ (exists t, grid_get (tiles s) i j = Ok (Some t) /\ md_pos t = p)
      /\ (distance pos p <? infinity)%float = true
      /\ forall i' j' t', 0 <= i' -> 0 <= j' ->
           grid_get (tiles s) i' j' = Ok (Some t') ->
           (distance pos (md_pos t') <? distance pos p)%float = false
  | Raise e =>
      e = UnboundLocalError
      /\ forall i' j' t', 0 <= i' -> 0 <= j' ->
           grid_get (tiles s) i' j' = Ok (Some t') ->
           (distance pos (md_pos t') <? infinity)%float = false
  end.
Proof.
  intros (Hnx & rows & Hrows & Rt & _).
  unfold _find_closest_tile.
  pose proof (proj1 Rt) as Hlen. pose proof (rect_hd _ _ _ Hrows Rt) as Hhd.
  set (idx := list_prod _ _).
  assert (Hidx : forall a b, In (a, b) idx <-> (0 <= a < Z.of_nat rows /\ 0 <= b < nx s)).
  { intros a b. subst idx. rewrite in_prod_iff, !in_py_range_iff, Hlen, Hhd. lia. }
  assert (HI : closest_inv (tiles s) pos ([] ++ idx)
                 (fold_left (closest_step (tiles s) pos) idx (Ok (infinity, None)))).
  { apply fold_left_prefix.
    - intros pre [a b] acc Hin. apply closest_step_inv. cbn [fst snd].
      apply Hidx in Hin. apply (rect_grid_get _ _ _ _ _ Rt); lia.
    - exists infinity, None. split; [reflexivity|]. split; [intros a b t []|reflexivity]. }
  cbn [app] in HI. destruct HI as (minDist & found & -> & Hall & Hf). cbn [bindR].
  assert (Hin : forall i' j' t', 0 <= i' -> 0 <= j' ->
            grid_get (tiles s) i' j' = Ok (Some t') -> In (i', j') idx).
  { intros i' j' t' Hi Hj Hg. apply Hidx.
    destruct (rect_cell _ _ _ _ _ _ Rt Hi Hj Hg). lia. }
  destruct found as [[[i j] q]|].
  - destruct Hf as (Hij & -> & Hlt & t & Ht & Hq). apply Hidx in Hij.
    cbn [fst snd] in Ht. rewrite Hlen.
    split; [lia|]. split; [lia|]. split; [now exists t|]. split; [exact Hlt|].
    intros i' j' t' Hi Hj Hg. exact (Hall i' j' t' (Hin _ _ _ Hi Hj Hg) Hg).
  - subst minDist. split; [reflexivity|].
    intros i' j' t' Hi Hj Hg. exact (Hall i' j' t' (Hin _ _ _ Hi Hj Hg) Hg).
Qed.

End Nearest.

(** ** Sessions *)

Section Sessions.
Context {K : Kernels}.

(** Whatever calls of [addTile] a registrar has seen, returning or
    raising, its four grids are rectangular: they have the same number of
    rows, at least one, and every row of each has [nx] cells. *)
Theorem grids_stay_rectangular (calls : list (Tile * option (list Tile))) :
  shaped (run calls ShiftRegistrar_init).
Proof.
  generalize shaped_init. generalize ShiftRegistrar_init.
  induction calls as [|c calls IH]; intros s Hs; cbn; [assumption|].
  apply IH. destruct (addTile (fst c) (snd c) s) as [r s'] eqn:E.
  exact (maintains_shaped_addTile _ _ _ _ _ Hs E).
Qed.

(** Calls of [addTile], returning or raising, never shrink the grid and
    never empty a slot: the number of rows and [nx] do not decrease, and a
    slot of [tiles] or [shifts] that is filled stays filled. *)
Theorem session_only_grows (calls : list (Tile * option (list Tile))) (s : ShiftRegistrar) :
  extends s (run calls s).
Proof.
  revert s. induction calls as [|c calls IH]; intros s; cbn; [apply extends_refl|].
  destruct (addTile (fst c) (snd c) s) as [r s'] eqn:E. cbn [snd].
  exact (extends_trans _ _ _ (related_extends_addTile _ _ _ _ _ E) (IH s')).
Qed.

End Sessions.

(** ** The mean shift *)

Lemma comprehension_all {A} (f : Z -> result (option A)) (l : list Z) :
  (forall i, In i l -> exists c, f i = Ok c) ->
  exists vs, comprehension f l = Ok vs
             /\ (vs = [] <-> forall i, In i l -> f i = Ok None).
Proof.
  induction l as [|i l IH]; intros Hall; cbn [comprehension].
  - exists []. split; [reflexivity|]. split; [intros _ i []|reflexivity].
  - destruct (Hall i (or_introl eq_refl)) as [c Hc]. rewrite Hc. cbn [bindR].
    destruct IH as (vs & -> & Hvs); [intros k Hk; apply Hall; now right|]. cbn [bindR].
    destruct c as [v|].
    + exists (v :: vs). split; [reflexivity|]. split; [discriminate|].
      intros H. rewrite (H i (or_introl eq_refl)) in Hc. discriminate.
    + exists vs. split; [reflexivity|]. rewrite Hvs. split.
      * intros H k [<- | Hk]; [exact Hc | now apply H].
      * intros H k Hk. apply H. now right.
Qed.

Lemma py_int_error (f : float) (e : exn) :
  py_int f = Raise e -> e <> ValueError NotEnoughData.
Proof. unfold py_int. destruct (Prim2SF f) as [| | |[|] m x]; intros [= <-]; discriminate. Qed.

(** On a rectangular grid and for a slot of it, [_mean_shift] raises its
    "Not enough data" error exactly when no shift is stored in the columns
    1 to [col - 1] of the row and in the rows 1 to [row - 1] of the column:
    row 0, column 0 and the slot itself are never read. *)
Theorem mean_shift_not_enough_data (rows cols : nat) (g : grid (Z * Z)) (row col : Z) :
  rect rows cols g -> 0 <= row < Z.of_nat rows -> 0 <= col < Z.of_nat cols ->
  (_mean_shift row col g = Raise (ValueError NotEnoughData)
   <-> (forall i, 1 <= i < col -> grid_get g row i = Ok None)
       /\ (forall i, 1 <= i < row -> grid_get g i col = Ok None)).
Proof.
  intros Hg Hrow Hcol. unfold _mean_shift.
  destruct (comprehension_all (fun i => grid_get g row i) (py_range 1 col))
    as (vs1 & -> & H1).
  { intros i Hi. apply in_py_range_iff in Hi. apply (rect_grid_get _ _ _ _ _ Hg); lia. }
  destruct (comprehension_all (fun i => grid_get g i col) (py_range 1 row))
    as (vs2 & -> & H2).
  { intros i Hi. apply in_py_range_iff in Hi. apply (rect_grid_get _ _ _ _ _ Hg); lia. }
  cbn [bindR].
  assert (Hnil : vs1 ++ vs2 = [] <->
            (forall i, 1 <= i < col -> grid_get g row i = Ok None)
            /\ (forall i, 1 <= i < row -> grid_get g i col = Ok None)).
  { split.
    - intros H. apply app_eq_nil in H as [E1 E2]. split; intros i Hi.
      + apply (proj1 H1 E1). now apply in_py_range_iff.
      + apply (proj1 H2 E2). now apply in_py_range_iff.
    - intros [A1 A2].
      assert (E1 : vs1 = []) by (apply H1; intros i Hi; apply A1; now apply in_py_range_iff).
      assert (E2 : vs2 = []) by (apply H2; intros i Hi; apply A2; now apply in_py_range_iff).
      now rewrite E1, E2. }
  rewrite <- Hnil. destruct (vs1 ++ vs2) as [|v vs] eqn:Ev.
  - split; reflexivity.
  - split; [|discriminate]. intros H. exfalso.
    destruct (py_int _) as [mx|e] eqn:Ex in H; cbn [bindR] in H.
    + destruct (py_int _) as [my|e] eqn:Ey in H; cbn [bindR] in H; [discriminate|].
      injection H as ->. exact (py_int_error _ _ Ey eq_refl).
    + injection H as ->. exact (py_int_error _ _ Ex eq_refl).
Qed.

(** ** Instances *)

Ltac shaped_by_computation rows :=
  split; [reflexivity|]; exists rows; split; [lia|];
  repeat split; try reflexivity; vm_compute; repeat constructor.

Lemma find_slot_adjacent_witness :
  let s1 := snd (find_slot (K := no_shift) below_tile row_session) in
  exists i j p row col,
    _find_closest_tile (K := no_shift) row_session (md_pos below_tile) = Ok ((i, j), p)
    /\ posY s1 = Some row /\ posX s1 = Some col
    /\ pos_prev_x s1 = Some j
    /\ ((row = i /\ (col = j + 1 \/ col = j - 1))
        \/ (col = j /\ (row = i + 1 \/ row = i - 1)))
    /\ -1 <= row < Z.of_nat (length (tiles s1))
    /\ -1 <= col < nx s1.
Proof.
  apply (@find_slot_adjacent no_shift below_tile origin_tile row_session
           (snd (find_slot (K := no_shift) below_tile row_session))).
  - shaped_by_computation 1%nat.
  - vm_compute. reflexivity.
  - vm_compute. reflexivity.
Defined.

Lemma find_closest_tile_nearest_witness :
  match _find_closest_tile (K := no_shift) row_session (3, -4)%float with
  | Ok ((i, j), p) =>
      0 <= i < Z.of_nat (length (tiles row_session)) /\ 0 <= j < nx row_session
      /\ (exists t, grid_get (tiles row_session) i j = Ok (Some t) /\ md_pos t = p)
      /\ (distance (K := no_shift) (3, -4) p <? infinity)%float = true
      /\ forall i' j' t', 0 <= i' -> 0 <= j' ->
           grid_get (tiles row_session) i' j' = Ok (Some t') ->
           (distance (K := no_shift) (3, -4) (md_pos t')
              <? distance (K := no_shift) (3, -4) p)%float = false
  | Raise e =>
      e = UnboundLocalError
      /\ forall i' j' t', 0 <= i' -> 0 <= j' ->
           grid_get (tiles row_session) i' j' = Ok (Some t') ->
           (distance (K := no_shift) (3, -4) (md_pos t') <? infinity)%float = false
  end.
Proof.
  apply (@find_closest_tile_nearest no_shift row_session (3, -4)%float).
  shaped_by_computation 1%nat.
Defined.

Lemma mean_shift_not_enough_data_witness :
  let g := [[None; None; None; None]; [None; None; Some (1, 0); None]] in
  (_mean_shift 1 3 g = Raise (ValueError NotEnoughData)
   <-> (forall i, 1 <= i < 3 -> grid_get g 1 i = Ok None)
       /\ (forall i, 1 <= i < 1 -> grid_get g i 3 = Ok None)).
Proof.
  apply (mean_shift_not_enough_data 2 4
           [[None; None; None; None]; [None; None; Some (1, 0); None]] 1 3).
  - split; [reflexivity | repeat constructor].
  - lia.
  - lia.
Defined.

(** ** [getPositions] after a session *)

Lemma map_result_all {A B} (f : A -> result B) (l : list A) :
  (forall a, In a l -> exists b, f a = Ok b) -> exists bs, map_result f l = Ok bs.
Proof.
  induction l as [|a l IH]; intros Hall; cbn [map_result]; [now exists []|].
  destruct (Hall a (or_introl eq_refl)) as [b ->]. cbn [bindR].
  destruct IH as [bs ->]; [intros x Hx; apply Hall; now right|]. cbn [bindR].
  now exists (b :: bs).
Qed.

Section Positions.
Context {K : Kernels}.

(** [px_size] is assigned by the call that finds slot (0, 0) empty, and by
    no other. *)
Lemma find_slot_px_size (tile : Tile) (s s' : ShiftRegistrar) (r : result unit) :
  find_slot tile s = (r, s') ->
  px_size s <> None \/ grid_get (tiles s) 0 0 = Ok None ->
  px_size s' <> None.
Proof.
  unfold find_slot. rewrite bind_get, bind_liftR.
  destruct (grid_get (tiles s) 0 0) as [[first|]|e]; cbv beta iota.
  - match goal with
    | |- ?m ?s0 = _ -> _ => assert (Hk : keeps px_size m) by keeps_more
    end.
    intros H [Hpx | [=]]. now rewrite (Hk _ _ _ H).
  - unfold modify. intros [= _ <-] _. cbn. discriminate.
  - intros [= _ <-] [Hpx | [=]]. exact Hpx.
Qed.

Lemma addTile_px_size (tile : Tile) (deps : option (list Tile)) (s s' : ShiftRegistrar)
  (r : result unit) :
  addTile tile deps s = (r, s') ->
  px_size s <> None \/ grid_get (tiles s) 0 0 = Ok None ->
  px_size s' <> None.
Proof.
  unfold addTile. intros H Hq.
  assert (Hslot : forall r1 s1, addTile_slot tile deps s = (r1, s1) -> px_size s1 <> None).
  { clear H. intros r1 s1. unfold addTile_slot. intros H.
    apply bind_cases in H as [(l & s0 & H0 & H) | (e & H0 & ->)].
    2:{ destruct deps; discriminate. }
    kept px_size H0 E1. kept tiles H0 E2. rewrite <- E1, <- E2 in Hq.
    apply bind_cases in H as [([] & sF & HF & H) | (e & HF & ->)].
    2:{ exact (find_slot_px_size _ _ _ _ HF Hq). }
    pose proof (find_slot_px_size _ _ _ _ HF Hq) as HpF.
    kept px_size H E3. congruence. }
  apply bind_cases in H as [([row col] & s1 & Hs & Hc) | (e & Hs & ->)].
  - assert (E : px_size s' = px_size s1).
    { revert Hc. apply keeps_compute_registration; intros; reflexivity. }
    rewrite E. exact (Hslot _ _ Hs).
  - exact (Hslot _ _ Hs).
Qed.

Lemma run_px_size (calls : list (Tile * option (list Tile))) (s : ShiftRegistrar) :
  px_size s <> None -> px_size (run calls s) <> None.
Proof.
  revert s. induction calls as [|c calls IH]; intros s Hs; cbn; [assumption|].
  apply IH. destruct (addTile (fst c) (snd c) s) as [r s'] eqn:E.
  exact (addTile_px_size _ _ _ _ _ E (or_introl Hs)).
Qed.

Lemma addTile_positions_stored (tile : Tile) (deps : option (list Tile)) :
  maintains positions_stored (addTile tile deps).
Proof.
  intros s r s' Hi H row col Hin Hrow Hcol.
  pose proof (related_extends_addTile _ _ _ _ _ H) as (_ & _ & _ & Hkept).
  pose proof (addTile_result _ _ _ _ _ H) as Ho.
  destruct r as [[]|e].
  - destruct Ho as (row' & col' & p & _ & _ & Ha & _ & Hp).
    rewrite Ha in Hin. apply in_app_or in Hin as [Hin | [[= <- <-] | []]].
    + destruct (Hi _ _ Hin Hrow Hcol) as [q Hq]. exact (Hkept _ _ _ Hrow Hcol Hq).
    + now exists p.
  - rewrite Ho in Hin.
    destruct (Hi _ _ Hin Hrow Hcol) as [q Hq]. exact (Hkept _ _ _ Hrow Hcol Hq).
Qed.

Lemma run_positions_stored (calls : list (Tile * option (list Tile))) (s : ShiftRegistrar) :
  positions_stored s -> positions_stored (run calls s).
Proof.
  revert s. induction calls as [|c calls IH]; intros s Hs; cbn; [assumption|].
  apply IH. destruct (addTile (fst c) (snd c) s) as [r s'] eqn:E.
  exact (addTile_positions_stored _ _ _ _ _ Hs E).
Qed.

(** After a session of at least one call, some of which may have raised,
    [getPositions] returns, with one position for each call that
    returned, provided no tile was given a negative row or column (no tile
    was added above row 0 or left of column 0). *)
Theorem getPositions_returns (c : Tile * option (list Tile))
  (calls : list (Tile * option (list Tile))) :
  let s := run (c :: calls) ShiftRegistrar_init in
  (forall row col, In (row, col) (acqOrder s) -> 0 <= row /\ 0 <= col) ->
  exists tp dp, getPositions s = Ok (tp, dp) /\ length tp = length (acqOrder s).
Proof.
  intros s Hpos. subst s. cbn [run fold_left] in *.
  fold (run calls (snd (addTile (fst c) (snd c) ShiftRegistrar_init))) in *.
  set (s1 := snd (addTile (fst c) (snd c) ShiftRegistrar_init)) in *.
  set (s := run calls s1) in *.
  assert (He : established (shape (fst c)) s).
  { apply run_established, first_call_established. }
  assert (Hpx : px_size s <> None).
  { apply run_px_size. subst s1.
    destruct (addTile (fst c) (snd c) ShiftRegistrar_init) as [r s'] eqn:E.
    apply (addTile_px_size _ _ _ _ _ E). right. reflexivity. }
  assert (Hst : positions_stored s).
  { apply run_positions_stored. subst s1.
    destruct (addTile (fst c) (snd c) ShiftRegistrar_init) as [r s'] eqn:E.
    refine (addTile_positions_stored _ _ _ _ _ _ E). intros row col []. }
  destruct He as (_ & first & Hfirst & _).
  destruct (px_size s) as [px|] eqn:Epx; [|congruence].
  unfold getPositions. rewrite Hfirst, Epx. cbn [bindR need].
  destruct (map_result_all
              (tile_position s (fst (md_pos first) / fst px, snd (md_pos first) / snd px)%float px)
              (acqOrder s)) as [tps Htps].
  { intros [row col] Hin. destruct (Hpos _ _ Hin) as [Hr Hc].
    destruct (Hst _ _ Hin Hr Hc) as [p Hp].
    unfold tile_position. cbn [fst snd]. rewrite Hp. cbn [bindR need]. eauto. }
  rewrite Htps. cbn [bindR].
  eexists _, _. split; [reflexivity|]. exact (map_result_length _ _ _ Htps).
Qed.

End Positions.

Lemma getPositions_returns_witness :
  let s := run (K := no_shift) ((origin_tile, None) :: [(right_tile, Some [dep_tile])])
             ShiftRegistrar_init in
  exists tp dp, getPositions s = Ok (tp, dp) /\ length tp = length (acqOrder s).
Proof.
  apply (@getPositions_returns no_shift (origin_tile, None) [(right_tile, Some [dep_tile])]).
  vm_compute. intros row col [[= <- <-] | [[= <- <-] | []]]; split; discriminate.
Defined.

(** ** The cells of a grid that grows *)




Section Grow.
Context {K : Kernels}.



End Grow.


(** ** The fallback of the estimators *)

Section Fallback.
Context {K : Kernels}.

(** The fallback of [_pos_to_left_right] and [_pos_to_top] (the mean or
    last shift, then the shift measured again from there) replaces the
    measured shift only by a candidate whose match is strictly higher: it
    answers either the shift and match it was given, or one of its two
    candidates with a match above the one given. *)
Theorem fallback_improves (self : ShiftRegistrar) (prev_tile tile : Tile)
  (exp_shift mean xy xy' : Z * Z) (match_ match' : float) :
  fallback self prev_tile tile exp_shift mean xy match_ = Ok (xy', match') ->
  (xy' = xy /\ match' = match_)
  \/ ((match_ <? match')%float = true
      /\ (xy' = mean
          \/ exists drift,
               _get_shift self prev_tile tile
                 (fst exp_shift - fst mean, snd exp_shift - snd mean) = Ok drift
               /\ xy' = (fst mean + fst drift, snd mean + snd drift))).
Proof.
  unfold fallback. destruct mean as [mean_x mean_y]. cbn [fst snd].
  destruct (_estimateMatch self prev_tile tile _) as [mc|e]; cbn [bindR]; [|discriminate].
  destruct (match_ <? mc)%float eqn:E1.
  - destruct ((mean_x =? 0) && (mean_y =? 0)).
    + intros [= <- <-]. right. auto.
    + destruct (_get_shift self prev_tile tile _) as [drift|e]; cbn [bindR]; [|discriminate].
      destruct (_estimateMatch self prev_tile tile _) as [mc2|e]; cbn [bindR]; [|discriminate].
      destruct (mc <? mc2)%float eqn:E2; intros [= <- <-]; right.
      * split; [exact (ltb_trans _ _ _ E1 E2)|]. right. now exists drift.
      * auto.
  - destruct ((mean_x =? 0) && (mean_y =? 0)).
    + intros [= <- <-]. left. auto.
    + destruct (_get_shift self prev_tile tile _) as [drift|e]; cbn [bindR]; [|discriminate].
      destruct (_estimateMatch self prev_tile tile _) as [mc2|e]; cbn [bindR]; [|discriminate].
      destruct (match_ <? mc2)%float eqn:E2; intros [= <- <-].
      * right. split; [exact E2|]. right. now exists drift.
      * left. auto.
Qed.

End Fallback.

Lemma fallback_improves_witness :
  ((1, 0) = (0, 0) /\ 0%float = (-1)%float)
  \/ (((-1) <? 0)%float = true
      /\ ((1, 0) = (1, 0)
          \/ exists drift,
               _get_shift (K := one_left) stripes_session stripes_tile stripes_inv_tile
                 (fst (4, 0) - fst (1, 0), snd (4, 0) - snd (1, 0)) = Ok drift
               /\ (1, 0) = (fst (1, 0) + fst drift, snd (1, 0) + snd drift))).
Proof.
  apply (@fallback_improves one_left stripes_session stripes_tile stripes_inv_tile
           (4, 0) (1, 0) (0, 0) (1, 0) (-1)%float 0%float).
  vm_compute. reflexivity.
Defined.

(** ** The dependent tiles that [getPositions] returns *)

Section DependentPositions.
Context {K : Kernels}.

(** A session whose calls all return is the session run call by call. *)
Lemma run_strict_run (calls : list (Tile * option (list Tile))) (s s' : ShiftRegistrar) :
  run_strict calls s = Ok s' -> run calls s = s'.
Proof.
  revert s. induction calls as [|c calls IH]; intros s; cbn [run_strict run fold_left].
  - now intros [= <-].
  - destruct (addTile (fst c) (snd c) s) as [[[]|e] s1] eqn:E; [|discriminate].
    cbn [snd]. apply IH.
Qed.

(** What [getPositions] needs of a registrar to return: a tile in slot
    (0, 0), a pixel size, and a position in every slot of [acqOrder]. *)
Lemma getPositions_of_state (s : ShiftRegistrar) :
  (exists t, grid_get (tiles s) 0 0 = Ok (Some t)) ->
  px_size s <> None ->
  positions_stored s ->
  (forall row col, In (row, col) (acqOrder s) -> 0 <= row /\ 0 <= col) ->
  exists tp dp, getPositions s = Ok (tp, dp).
Proof.
  intros [first Hfirst] Hpx Hst Hpos.
  destruct (px_size s) as [px|] eqn:Epx; [|congruence].
  unfold getPositions. rewrite Hfirst, Epx. cbn [bindR need].
  destruct (map_result_all
              (tile_position s (fst (md_pos first) / fst px, snd (md_pos first) / snd px)%float px)
              (acqOrder s)) as [tps Htps].
  { intros [row col] Hin. destruct (Hpos _ _ Hin) as [Hr Hc].
    destruct (Hst _ _ Hin Hr Hc) as [p Hp].
    unfold tile_position. cbn [fst snd]. rewrite Hp. cbn [bindR need]. eauto. }
  rewrite Htps. cbn [bindR]. eauto.
Qed.

(** After at least one call the registrar has what [getPositions] needs,
    but for the sign of the slots. *)
Lemma session_ready (c : Tile * option (list Tile))
  (calls : list (Tile * option (list Tile))) :
  let s := run (c :: calls) ShiftRegistrar_init in
  (exists t, grid_get (tiles s) 0 0 = Ok (Some t))
  /\ px_size s <> None /\ positions_stored s.
Proof.
  cbn [run fold_left].
  fold (run calls (snd (addTile (fst c) (snd c) ShiftRegistrar_init))).
  split; [|split].
  - destruct (run_established (shape (fst c)) calls _
                (first_call_established (fst c) (snd c))) as (_ & t & Ht & _).
    now exists t.
  - apply run_px_size.
    destruct (addTile (fst c) (snd c) ShiftRegistrar_init) as [r s'] eqn:E.
    apply (addTile_px_size _ _ _ _ _ E). right. reflexivity.
  - apply run_positions_stored.
    destruct (addTile (fst c) (snd c) ShiftRegistrar_init) as [r s'] eqn:E.
    refine (addTile_positions_stored _ _ _ _ _ _ E). intros row col [].
Qed.

Lemma session_getPositions (calls : list (Tile * option (list Tile))) (s : ShiftRegistrar) :
  calls <> [] ->
  run_strict calls ShiftRegistrar_init = Ok s ->
  (forall row col, In (row, col) (acqOrder s) -> 0 <= row /\ 0 <= col) ->
  exists tp dp, getPositions s = Ok (tp, dp).
Proof.
  intros Hne Hrun Hpos. destruct calls as [|c calls]; [contradiction|].
  apply run_strict_run in Hrun. subst s.
  destruct (session_ready c calls) as (Hfirst & Hpx & Hst).
  now apply getPositions_of_state.
Qed.

(** After a session of at least one call in which every call passed a
    list of dependent tiles, none raised and no tile got a negative row
    or column, [getPositions] returns; its two lists have one entry per
    call, and the entry of a tile in the second holds, for each of its
    dependent tiles in the order passed, the position of the tile plus the
    offset taken at insertion. *)
Theorem dependents_aligned (calls : list (Tile * option (list Tile)))
  (s : ShiftRegistrar) :
  calls <> [] ->
  (forall c, In c calls -> snd c <> None) ->
  run_strict calls ShiftRegistrar_init = Ok s ->
  (forall row col, In (row, col) (acqOrder s) -> 0 <= row /\ 0 <= col) ->
  exists tp dp,
    getPositions s = Ok (tp, dp)
    /\ length tp = length calls /\ length dp = length calls
    /\ forall i t l p,
         nth_error calls i = Some (t, Some l) -> nth_error tp i = Some p ->
         nth_error dp i = Some (dependent_positions p (offsets_of t l)).
Proof.
  intros Hne Hall Hrun Hpos.
  destruct (session_getPositions _ _ Hne Hrun Hpos) as (tp & dp & Hget).
  exists tp, dp. split; [exact Hget|].
  destruct (run_strict_lists _ _ _ Hrun) as [Hacq Hdeps]. cbn in Hacq, Hdeps.
  destruct (getPositions_lists _ _ _ Hget) as [Hl ->]. rewrite Hacq in Hl. rewrite Hdeps.
  destruct (stored_offsets_all calls Hall) as [Hlen Hnth].
  split; [assumption|]. split.
  - rewrite length_map, length_combine. lia.
  - intros i t l p Hc Hp.
    rewrite nth_error_map, (nth_error_combine_some _ _ _ _ _ Hp (Hnth _ _ _ Hc)).
    reflexivity.
Qed.

(** After a session of at least one call in which no call raised and no
    tile got a negative row or column, [getPositions] returns, with one
    position per call; its second list pairs the positions, from the first
    tile on, with the lists of offsets of the calls that passed a list: a
    call that passed [None] has no entry, and the entries of the later
    calls move up by one. *)
Theorem getPositions_after_session (calls : list (Tile * option (list Tile)))
  (s : ShiftRegistrar) :
  calls <> [] ->
  run_strict calls ShiftRegistrar_init = Ok s ->
  (forall row col, In (row, col) (acqOrder s) -> 0 <= row /\ 0 <= col) ->
  exists tp dp,
    getPositions s = Ok (tp, dp)
    /\ length tp = length calls
    /\ dp = map (fun p => dependent_positions (fst p) (snd p))
                (combine tp (stored_offsets calls)).
Proof.
  intros Hne Hrun Hpos.
  destruct (session_getPositions _ _ Hne Hrun Hpos) as (tp & dp & Hget).
  exists tp, dp. split; [exact Hget|].
  destruct (run_strict_lists _ _ _ Hrun) as [Hacq Hdeps]. cbn in Hacq, Hdeps.
  destruct (getPositions_lists _ _ _ Hget) as [Hl ->].
  split; [congruence | now rewrite Hdeps].
Qed.

End DependentPositions.

Lemma dependents_aligned_witness :
  exists tp dp,
    getPositions (run (K := no_shift) listed_calls ShiftRegistrar_init) = Ok (tp, dp)
    /\ length tp = length listed_calls /\ length dp = length listed_calls
    /\ forall i t l p,
         nth_error listed_calls i = Some (t, Some l) -> nth_error tp i = Some p ->
         nth_error dp i = Some (dependent_positions p (offsets_of t l)).
Proof.
  apply (@dependents_aligned no_shift listed_calls
           (run (K := no_shift) listed_calls ShiftRegistrar_init)).
  - discriminate.
  - intros c [<- | [<- | []]]; discriminate.
  - vm_compute. reflexivity.
  - vm_compute. intros row col [[= <- <-] | [[= <- <-] | []]]; split; discriminate.
Defined.

Lemma getPositions_after_session_witness :
  exists tp dp,
    getPositions (run (K := no_shift) mixed_calls ShiftRegistrar_init) = Ok (tp, dp)
    /\ length tp = length mixed_calls
    /\ dp = map (fun p => dependent_positions (fst p) (snd p))
                (combine tp (stored_offsets mixed_calls)).
Proof.
  apply (@getPositions_after_session no_shift mixed_calls
           (run (K := no_shift) mixed_calls ShiftRegistrar_init)).
  - discriminate.
  - vm_compute. reflexivity.
  - vm_compute. intros row col [[= <- <-] | [[= <- <-] | []]]; split; discriminate.
Defined.
